(** * bible-mcp: reference resolution and token assembly

    A shallow embedding of [src/utils/referenceUtils.ts] (catalog maps,
    citation regex, [parseReference], [parseVerseId], [isValidReference],
    [formatVerseId]) and of [src/db/database.ts] ([assembleTextFromTokens],
    [getEnglishText], [getPassage], [searchText]); then of the rest of
    [referenceUtils.ts] ([parseWordId], [formatReference], [getBookNames],
    [getBookAliases], [referenceToDbId]), of the two [getEnglishText]
    handlers of [src/server.ts], and of the token import of
    [scripts/create-db.ts].

    Conventions.
    - A JavaScript string is a [string] of 8-bit characters; the catalog and
      the citations are ASCII, where UTF-16 code units and bytes coincide.
    - A JavaScript [number] that the code reads or produces is an integer or
      [NaN] ([parseInt] of a digitless string); see [JS.number].
    - [BibleLookup.json] is data that is not part of the sources: the
      catalog is a parameter [bibleData] of everything that depends on it. *)

From Stdlib Require Import ZArith Ascii String DecimalString DecimalPos Lia.
From stdpp Require Import gmap strings list sorting.

Open Scope Z_scope.

(** ** JavaScript primitives used by the sources *)

Module JS.

(** [number]: the integers and [NaN]. *)
Inductive number : Type :=
| NaN
| Num (z : Z).

#[global] Instance number_eq_dec : EqDecision number.
Proof. solve_decision. Defined.

(** ToBoolean on numbers: [0] and [NaN] are falsy. *)
Definition truthy_number (n : number) : bool :=
  match n with
  | NaN => false
  | Num z => negb (z =? 0)
  end.

(** ToBoolean on strings: only the empty string is falsy. *)
Definition truthy_string (s : string) : bool :=
  match s with
  | EmptyString => false
  | String _ _ => true
  end.

(** ToBoolean on [T | undefined]. *)
Definition truthy_opt {A} (t : A → bool) (o : option A) : bool :=
  match o with
  | None => false
  | Some a => t a
  end.

(** [a < b] and [a > b]: any comparison with [NaN] is false. *)
Definition lt (a b : number) : bool :=
  match a, b with
  | Num x, Num y => x <? y
  | _, _ => false
  end.

Definition gt (a b : number) : bool := lt b a.

(** [a < b] where [b] may be [undefined] (ToNumber(undefined) = NaN). *)
Definition lt_opt (a : number) (b : option number) : bool :=
  match b with
  | None => false
  | Some b => lt a b
  end.

(** Number.prototype.toString (radix 10). *)
Definition toString (n : number) : string :=
  match n with
  | NaN => "NaN"
  | Num z => NilZero.string_of_int (Z.to_int z)
  end.

Fixpoint replicate_char (n : nat) (c : ascii) : string :=
  match n with
  | O => EmptyString
  | S n' => String c (replicate_char n' c)
  end.

(** [s.padStart(n, c)] for a one-character filler. *)
Definition padStart (n : nat) (c : ascii) (s : string) : string :=
  replicate_char (n - String.length s) c +:+ s.

(** [s.substring(a, b)] for [a <= b]; indices past the end are clamped. *)
Definition substring (a b : nat) (s : string) : string :=
  String.substring a (b - a) s.

Definition is_digit (c : ascii) : bool :=
  let n := nat_of_ascii c in (48 <=? n)%nat && (n <=? 57)%nat.

Definition digit_val (c : ascii) : Z := Z.of_nat (nat_of_ascii c) - 48.

(** White space, for [\s], [trim] and [parseInt] (ASCII part). *)
Definition is_space (c : ascii) : bool :=
  let n := nat_of_ascii c in
  ((9 <=? n)%nat && (n <=? 13)%nat) || (n =? 32)%nat.

Fixpoint skip_spaces (s : string) : string :=
  match s with
  | String c s' => if is_space c then skip_spaces s' else s
  | EmptyString => EmptyString
  end.

(** The digits read by [parseInt]: [None] when there is none. *)
Fixpoint read_digits (acc : option Z) (s : string) : option Z :=
  match s with
  | String c s' =>
      if is_digit c
      then read_digits (Some (10 * default 0 acc + digit_val c)) s'
      else acc
  | EmptyString => acc
  end.

Definition of_digits (o : option Z) (sign : Z) : number :=
  match o with
  | None => NaN
  | Some z => Num (sign * z)
  end.

(** [parseInt(s, 10)]: leading white space, an optional sign, then the
    longest run of decimal digits; [NaN] when that run is empty. *)
Definition parseInt (s : string) : number :=
  match skip_spaces s with
  | String "-" s' => of_digits (read_digits None s') (-1)
  | String "+" s' => of_digits (read_digits None s') 1
  | s' => of_digits (read_digits None s') 1
  end.

Definition lower_char (c : ascii) : ascii :=
  let n := nat_of_ascii c in
  if (65 <=? n)%nat && (n <=? 90)%nat then ascii_of_nat (n + 32) else c.

Definition upper_char (c : ascii) : ascii :=
  let n := nat_of_ascii c in
  if (97 <=? n)%nat && (n <=? 122)%nat then ascii_of_nat (n - 32) else c.

Fixpoint toLowerCase (s : string) : string :=
  match s with
  | EmptyString => EmptyString
  | String c s' => String (lower_char c) (toLowerCase s')
  end.

(** [s.startsWith(p)]. *)
Definition startsWith (s p : string) : bool := String.prefix p s.

Fixpoint rev_string (acc s : string) : string :=
  match s with
  | EmptyString => acc
  | String c s' => rev_string (String c acc) s'
  end.

(** [s.trim()]. *)
Definition trim (s : string) : string :=
  rev_string EmptyString
    (skip_spaces (rev_string EmptyString (skip_spaces s))).

(** [s.replace(/\./g, '')]. *)
Fixpoint strip_dots (s : string) : string :=
  match s with
  | EmptyString => EmptyString
  | String c s' =>
      if Ascii.eqb c "." then strip_dots s' else String c (strip_dots s')
  end.

(** The characters of [[.*+?^${}()|[\]\\]]. *)
Definition is_regex_special (c : ascii) : bool :=
  existsb (Ascii.eqb c)
    ["."; "*"; "+"; "?"; "^"; "$"; "{"; "}"; "("; ")"; "|"; "["; "]";
     "\"]%char.

(** [s.replace(/[.*+?^${}()|[\]\\]/g, '\\$&')]. *)
Fixpoint escapeRegex (s : string) : string :=
  match s with
  | EmptyString => EmptyString
  | String c s' =>
      if is_regex_special c
      then String "\" (String c (escapeRegex s'))
      else String c (escapeRegex s')
  end.

End JS.

(** ** Regular expressions: the fragment [verseRegex] is written in

    A backtracking matcher in continuation-passing style, as in the
    ECMAScript specification of RegExp: greedy quantifiers, ordered
    alternation, numbered capture groups, and the [i] flag (characters are
    compared after canonicalisation to upper case). *)

Module Regex.

Inductive regex : Type :=
| Eps
| Chr (a : ascii)
| Digit
| Space
| Seq (r1 r2 : regex)
| Alt (r1 r2 : regex)
| Star (r : regex)
| Opt (r : regex)
| Group (n : nat) (r : regex).

(** [r+] is [r] followed by [r*]. *)
Definition Plus (r : regex) : regex := Seq r (Star r).

Definition captures : Type := list (option string).

(** The text consumed between the input [s] and its suffix [s']. *)
Definition matched (s s' : string) : string :=
  String.substring 0 (String.length s - String.length s') s.

Definition one_char {R} (p : ascii → bool) (s : string)
    (k : string → option R) : option R :=
  match s with
  | String b s' => if p b then k s' else None
  | EmptyString => None
  end.

Definition or_else {R} (a b : option R) : option R :=
  match a with
  | Some x => Some x
  | None => b
  end.

(** A quantified atom may not match the empty string on an iteration
    that is not required. *)
Definition progress {R} (s s' : string) (x : option R) : option R :=
  if (String.length s' <? String.length s)%nat then x else None.

Fixpoint rmatch {R} (r : regex) (s : string) (c : captures)
    (k : string → captures → option R) {struct r} : option R :=
  match r with
  | Eps => k s c
  | Chr a =>
      one_char (λ b, Ascii.eqb (JS.upper_char a) (JS.upper_char b)) s
        (λ s', k s' c)
  | Digit => one_char JS.is_digit s (λ s', k s' c)
  | Space => one_char JS.is_space s (λ s', k s' c)
  | Seq r1 r2 => rmatch r1 s c (λ s' c', rmatch r2 s' c' k)
  | Alt r1 r2 => or_else (rmatch r1 s c k) (rmatch r2 s c k)
  | Star r1 =>
      (fix loop (fuel : nat) (s : string) (c : captures) {struct fuel}
         : option R :=
         match fuel with
         | O => k s c
         | S fuel' =>
             or_else
               (rmatch r1 s c (λ s' c', progress s s' (loop fuel' s' c')))
               (k s c)
         end) (String.length s) s c
  | Opt r1 =>
      or_else (rmatch r1 s c (λ s' c', progress s s' (k s' c'))) (k s c)
  | Group n r1 =>
      rmatch r1 s c (λ s' c', k s' (<[n := Some (matched s s')]> c'))
  end.

(** [re.exec(s)] for a regex without the [g] flag: the match at the
    leftmost start position that has one. *)
Fixpoint exec (r : regex) (ngroups : nat) (s : string) : option captures :=
  or_else
    (rmatch r s (replicate (S ngroups) None)
       (λ s' c, Some (<[O := Some (matched s s')]> c)))
    (match s with
     | String _ s' => exec r ngroups s'
     | EmptyString => None
     end).

(** The pattern source of one escaped alternative: a backslash makes the
    next character a literal, any other character stands for itself
    ([JS.escapeRegex] leaves no other special character unescaped). *)
Fixpoint literal (src : string) : regex :=
  match src with
  | EmptyString => Eps
  | String "\" (String a src') => Seq (Chr a) (literal src')
  | String a src' => Seq (Chr a) (literal src')
  end.

(** [ps.join('|')] inside a group. *)
Fixpoint alternatives (ps : list string) : regex :=
  match ps with
  | [] => Eps
  | [p] => literal p
  | p :: ps' => Alt (literal p) (alternatives ps')
  end.

End Regex.

(** ** The catalog and [referenceUtils.ts] *)

(** A row of [BibleLookup.json]. *)
Module Book.
Record entry : Type := Entry {
  ord : string;
  name : string;
  abbreviations : list string;
  testament : string;
  osisId : string;
  chapters : gmap string Z
}.
End Book.

(** [interface BibleReference]; an optional field is an [option]. *)
Record BibleReference : Type := mkRef {
  book : string;
  bookId : string;
  chapter : JS.number;
  verse : option JS.number;
  endVerse : option JS.number;
  testament : string;
  osisId : string
}.

(** A JavaScript [Map] keyed by strings: an association list in insertion
    order. [set] on a key that is present replaces its value in place, and
    a new key goes to the end; iteration follows the list. *)
Module JsMap.

Definition t (V : Type) : Type := list (string * V).

Fixpoint set {V} (k : string) (v : V) (m : t V) : t V :=
  match m with
  | [] => [(k, v)]
  | (k', v') :: m' =>
      if String.eqb k' k then (k', v) :: m' else (k', v') :: set k v m'
  end.

Fixpoint get {V} (k : string) (m : t V) : option V :=
  match m with
  | [] => None
  | (k', v') :: m' => if String.eqb k' k then Some v' else get k m'
  end.

Definition keys {V} (m : t V) : list string := m.*1.

End JsMap.

(** [bookPatterns.sort((a, b) => b.length - a.length)]: the sort by
    decreasing length; [Array.prototype.sort] is stable, so strings of
    equal length keep the order in which they were pushed. *)
Fixpoint insert_by_length (x : string) (l : list string) : list string :=
  match l with
  | [] => [x]
  | y :: l' =>
      if (String.length y <=? String.length x)%nat
      then x :: y :: l'
      else y :: insert_by_length x l'
  end.

Definition sort_by_length (l : list string) : list string :=
  foldr insert_by_length [] l.

(** The three module-level tables filled by the initialisation loop. *)
Record tables : Type := Tables {
  numberMap : gmap string Book.entry;
  nameMap : JsMap.t Book.entry;
  patterns : list string
}.

Definition empty_tables : tables := Tables ∅ [] [].

(** The inner loop over [book.abbreviations] that fills [bookNameMap]. *)
Definition add_abbreviation (b : Book.entry)
    (m : JsMap.t Book.entry) (abbr : string) : JsMap.t Book.entry :=
  JsMap.set (JS.strip_dots (JS.toLowerCase abbr)) b
    (JsMap.set (JS.toLowerCase abbr) b m).

(** One iteration of [for (const book of bibleData)]. *)
Definition init_book (t : tables) (b : Book.entry) : tables :=
  {| numberMap := <[Book.ord b := b]> (numberMap t);
     nameMap :=
       foldl (add_abbreviation b)
         (JsMap.set (JS.toLowerCase (Book.name b)) b (nameMap t))
         (Book.abbreviations b);
     patterns :=
       (patterns t ++ [JS.escapeRegex (Book.name b)])
         ++ map JS.escapeRegex (Book.abbreviations b) |}.

Section ReferenceUtils.

Variable bibleData : list Book.entry.

Definition init_tables : tables := foldl init_book empty_tables bibleData.

Definition bookNumberMap : gmap string Book.entry := numberMap init_tables.
Definition bookNameMap : JsMap.t Book.entry := nameMap init_tables.
Definition bookPatterns : list string := sort_by_length (patterns init_tables).

Import Regex.

(** [(\d+\s+)?(P1|...|Pn)\s+(\d+)(?:\s*:\s*(\d+)(?:\s*-\s*(\d+))?)?]
    with the [i] flag, in three parts: the optional digit prefix, the
    group of book alternatives, and the chapter and verse numbers. *)
Definition digit_prefix : regex :=
  Opt (Group 1 (Seq (Plus Digit) (Plus Space))).

Definition chapter_verse : regex :=
  Seq (Plus Space)
 (Seq (Group 3 (Plus Digit))
      (Opt (Seq (Star Space) (Seq (Chr ":") (Seq (Star Space)
           (Seq (Group 4 (Plus Digit))
                (Opt (Seq (Star Space) (Seq (Chr "-") (Seq (Star Space)
                     (Group 5 (Plus Digit)))))))))))).

Definition verseRegex : regex :=
  Seq digit_prefix
    (Seq (Group 2 (alternatives bookPatterns)) chapter_verse).

(** [null] is [None]. *)
Definition parseVerseId (id : string) : option BibleReference :=
  if negb (JS.truthy_string id) || (String.length id <? 8)%nat then None
  else
    let bookId := JS.substring 0 2 id in
    let chapter := JS.parseInt (JS.substring 2 5 id) in
    let verse := JS.parseInt (JS.substring 5 8 id) in
    match bookNumberMap !! bookId with
    | None => None
    | Some bookData =>
        Some {| book := Book.name bookData;
                bookId := bookId;
                chapter := chapter;
                verse := Some verse;
                endVerse := None;
                testament := Book.testament bookData;
                osisId := Book.osisId bookData |}
    end.

Definition parseWordId (id : string) : option (BibleReference * JS.number) :=
  if negb (JS.truthy_string id) || (String.length id <? 11)%nat then None
  else
    match parseVerseId (JS.substring 0 8 id) with
    | None => None
    | Some verseRef => Some (verseRef, JS.parseInt (JS.substring 8 11 id))
    end.

(** The condition of the fallback loop. *)
Definition alias_related (bookKey key : string) : bool :=
  JS.startsWith bookKey key || JS.startsWith key bookKey.

(** [for (const [key, value] of bookNameMap.entries()) { if (...) {
    bookData = value; break; } }] *)
Fixpoint fallback_lookup (bookKey : string) (entries : JsMap.t Book.entry)
    : option (string * Book.entry) :=
  match entries with
  | [] => None
  | (key, value) :: rest =>
      if alias_related bookKey key then Some (key, value)
      else fallback_lookup bookKey rest
  end.

(** [(prefix && bookName) ? (prefix + bookName).toLowerCase()
                            : bookName.toLowerCase()] *)
Definition bookKey_of (prefix : option string) (bookName : string) : string :=
  if JS.truthy_opt JS.truthy_string prefix && JS.truthy_string bookName
  then JS.toLowerCase (default EmptyString prefix +:+ bookName)
  else JS.toLowerCase bookName.

(** [bookNameMap.get(bookKey)], then the fallback loop when that is
    [undefined]. *)
Definition lookup_book (bookKey : string) : option Book.entry :=
  match JsMap.get bookKey bookNameMap with
  | Some bookData => Some bookData
  | None => snd <$> fallback_lookup bookKey bookNameMap
  end.

(** [if (verse) { result.verse = parseInt(verse, 10); }], and the same for
    [endVerse]: a group that did not take part is [undefined]. *)
Definition optional_number (o : option string) : option JS.number :=
  match o with
  | Some s => if JS.truthy_string s then Some (JS.parseInt s) else None
  | None => None
  end.

(** [const [, prefix, bookName, chapter, verse, endVerse] = match]: the
    groups 2 and 3 take part in every match. *)
Definition parseReference (reference : string) : option BibleReference :=
  match exec verseRegex 5 (JS.trim reference) with
  | Some [_; prefix; Some bookName; Some chapter; verse; endVerse] =>
      match lookup_book (bookKey_of prefix bookName) with
      | None => None
      | Some bookData =>
          Some {| book := Book.name bookData;
                  bookId := Book.ord bookData;
                  chapter := JS.parseInt chapter;
                  verse := optional_number verse;
                  endVerse := optional_number endVerse;
                  testament := Book.testament bookData;
                  osisId := Book.osisId bookData |}
      end
  | _ => None
  end.

(** The leading [if (!reference) return false] has no case here: a
    [BibleReference] is an object. *)
Definition isValidReference (reference : BibleReference) : bool :=
  match bookNumberMap !! bookId reference with
  | None => false
  | Some bookData =>
      match Book.chapters bookData !! JS.toString (chapter reference) with
      | None => false
      | Some maxVerse =>
          if match verse reference with
             | Some v => JS.lt v (JS.Num 1) || JS.gt v (JS.Num maxVerse)
             | None => false
             end
          then false
          else if match endVerse reference with
                  | Some e =>
                      JS.lt e (JS.Num 1) || JS.gt e (JS.Num maxVerse)
                      || JS.lt_opt e (verse reference)
                  | None => false
                  end
          then false
          else true
      end
  end.

(** [ref.verse || 1] *)
Definition verse_or_1 (v : option JS.number) : JS.number :=
  match v with
  | Some n => if JS.truthy_number n then n else JS.Num 1
  | None => JS.Num 1
  end.

Definition formatVerseId (ref : BibleReference) : string :=
  bookId ref
    +:+ JS.padStart 3 "0" (JS.toString (chapter ref))
    +:+ JS.padStart 3 "0" (JS.toString (verse_or_1 (verse ref))).


Definition getBookNames : list string := Book.name <$> bibleData.

Definition getBookAliases (bookId : string) : list string :=
  match bookNumberMap !! bookId with
  | None => []
  | Some book => Book.name book :: Book.abbreviations book
  end.

End ReferenceUtils.

(** ** A sample catalog

    Rows in the format of [BibleLookup.json] for the books that the
    specification and the tests name, used to run the definitions. *)

Module Sample.

(** [{"1": v1, "2": v2, ...}] from the list of verse counts. *)
Definition chapters_of (counts : list Z) : gmap string Z :=
  list_to_map
    (imap (λ i n, (JS.toString (JS.Num (Z.of_nat (S i))), n)) counts).

Definition genesis : Book.entry :=
  Book.Entry "01" "Genesis" ["Gen"; "Ge"; "Gn"] "OT" "Gen"
    (chapters_of [31; 25; 24]).
Definition kings1 : Book.entry :=
  Book.Entry "11" "1 Kings" ["1 Kgs"; "1Kgs"; "1 Ki"] "OT" "1Kgs"
    (chapters_of [53; 46]).
Definition psalms : Book.entry :=
  Book.Entry "19" "Psalms" ["Ps"; "Psalm"; "Psa."] "OT" "Ps"
    (chapters_of [6; 12; 8]).
Definition song : Book.entry :=
  Book.Entry "22" "Song of Solomon" ["Song"; "SOS"] "OT" "Song"
    (chapters_of [17; 17]).
Definition john : Book.entry :=
  Book.Entry "43" "John" ["Jn"; "Jhn"; "Joh"] "NT" "John"
    (chapters_of [51; 25; 36]).
Definition romans : Book.entry :=
  Book.Entry "45" "Romans" ["Rom"; "Ro"] "NT" "Rom"
    (chapters_of [32; 29]).
Definition corinthians1 : Book.entry :=
  Book.Entry "46" "1 Corinthians" ["1 Cor"; "1Cor"] "NT" "1Cor"
    (chapters_of [31; 16]).
Definition james : Book.entry :=
  Book.Entry "59" "James" ["Jas"; "Jm"] "NT" "Jas"
    (chapters_of [27; 26]).
Definition john1 : Book.entry :=
  Book.Entry "62" "1 John" ["1 Jn"; "1Jn"; "1 Joh"] "NT" "1John"
    (chapters_of [10; 29]).
Definition john3 : Book.entry :=
  Book.Entry "64" "3 John" ["3 Jn"; "3Jn"] "NT" "3John"
    (chapters_of [14]).

Definition bibleData : list Book.entry :=
  [genesis; kings1; psalms; song; john; romans; corinthians1; james;
   john1; john3].

End Sample.

(** ** [database.ts]: token storage and text assembly *)

Module Database.

(** A row of the table [english_tokens]. Its [chapter] and [verse] are
    written [Database.Row.chapter] and [Database.Row.verse] throughout:
    a [BibleReference] has fields of the same names. *)
Module Row.
Record t : Type := Make {
  id : string;
  book_num : string;
  book_name : string;
  chapter : Z;
  verse : Z;
  word_position : Z;
  text : string;
  skip_space_after : Z;
  exclude : Z
}.
End Row.

(** [skip_space_after: number | boolean] *)
Inductive flag : Type :=
| FBool (b : bool)
| FNum (n : Z).

Definition truthy_flag (f : flag) : bool :=
  match f with
  | FBool b => b
  | FNum n => negb (n =? 0)
  end.

(** The objects handed to [assembleTextFromTokens]. *)
Record token : Type := Token {
  text : string;
  skip_space_after : flag
}.

(** One step of the [reduce] callback; the accumulator is paired with
    the index of the element being visited. *)
Definition assemble_step (len : Z) (acc : string * Z) (tok : token)
    : string * Z :=
  let '(txt, index) := acc in
  let tokenText := text tok in
  let skipSpace := truthy_flag (skip_space_after tok) in
  let space : string := if skipSpace then EmptyString else " " in
  (txt +:+ tokenText +:+ (if index <? len - 1 then space else EmptyString),
   index + 1).

Definition assembleTextFromTokens (tokens : list token) : string :=
  fst (foldl (assemble_step (Z.of_nat (length tokens)))
         (EmptyString, 0) tokens).

(** *** The SQL statements *)

(** Stable insertion sort, for [ORDER BY]. *)
Fixpoint insert_sorted {A} (le : A → A → bool) (x : A) (l : list A)
    : list A :=
  match l with
  | [] => [x]
  | y :: l' => if le x y then x :: y :: l' else y :: insert_sorted le x l'
  end.

Definition order_by {A} (le : A → A → bool) (l : list A) : list A :=
  foldr (insert_sorted le) [] l.

(** A bound JavaScript number equals an INTEGER column; [NaN] is bound
    as NULL and equals nothing. *)
Definition sql_eq (col : Z) (param : JS.number) : bool :=
  match param with
  | JS.Num z => col =? z
  | JS.NaN => false
  end.

Definition sql_ge (col : Z) (param : JS.number) : bool :=
  match param with
  | JS.Num z => z <=? col
  | JS.NaN => false
  end.

Definition sql_le (col : Z) (param : JS.number) : bool :=
  match param with
  | JS.Num z => col <=? z
  | JS.NaN => false
  end.

Definition select_token (r : Row.t) : token :=
  Token (Row.text r) (FNum (Row.skip_space_after r)).

(** [SELECT text, skip_space_after FROM english_tokens
     WHERE book_num = ? AND chapter = ? AND verse = ?
     ORDER BY word_position] *)
Definition sql_verse_tokens (rows : list Row.t)
    (bookId : string) (chapter verse : JS.number) : list token :=
  select_token <$>
    order_by (λ a b, Row.word_position a <=? Row.word_position b)
      (filter (λ r, String.eqb (Row.book_num r) bookId
                    && sql_eq (Database.Row.chapter r) chapter
                    && sql_eq (Database.Row.verse r) verse = true) rows).

(** The same statement with [AND exclude = 0]. *)
Definition sql_verse_tokens_included (rows : list Row.t)
    (bookId : string) (chapter verse : JS.number) : list token :=
  select_token <$>
    order_by (λ a b, Row.word_position a <=? Row.word_position b)
      (filter (λ r, String.eqb (Row.book_num r) bookId
                    && sql_eq (Database.Row.chapter r) chapter
                    && sql_eq (Database.Row.verse r) verse
                    && (Row.exclude r =? 0) = true) rows).

(** [SELECT DISTINCT verse FROM english_tokens WHERE book_num = ? AND
     chapter = ? AND verse >= ? AND verse <= ? ORDER BY verse] *)
Definition sql_distinct_verses (rows : list Row.t)
    (bookId : string) (chapter startVerse endVerse : JS.number) : list Z :=
  order_by Z.leb
    (remove_dups
       (Database.Row.verse <$>
          filter (λ r, String.eqb (Row.book_num r) bookId
                       && sql_eq (Database.Row.chapter r) chapter
                       && sql_ge (Database.Row.verse r) startVerse
                       && sql_le (Database.Row.verse r) endVerse = true) rows)).

(** SQLite's [LIKE]: [%] is any run of characters, [_] any one
    character, letters compare without case. *)
Fixpoint like (pattern s : string) {struct pattern} : bool :=
  match pattern with
  | EmptyString =>
      match s with EmptyString => true | String _ _ => false end
  | String "%" p' =>
      (fix any (s : string) : bool :=
         like p' s
         || match s with
            | EmptyString => false
            | String _ s' => any s'
            end) s
  | String "_" p' =>
      match s with EmptyString => false | String _ s' => like p' s' end
  | String a p' =>
      match s with
      | EmptyString => false
      | String b s' =>
          Ascii.eqb (JS.upper_char a) (JS.upper_char b) && like p' s'
      end
  end.

(** [CAST(book_num AS INTEGER)]: the integer prefix, else 0. *)
Definition cast_integer (s : string) : Z :=
  match JS.parseInt s with
  | JS.Num z => z
  | JS.NaN => 0
  end.

(** The [conditions] array built by [searchText], as a row predicate. *)
Definition search_conditions (query : string)
    (testament book : option string) (r : Row.t) : bool :=
  like ("%" +:+ query +:+ "%") (Row.text r)
  && match testament with
     | Some "OT" => cast_integer (Row.book_num r) <=? 39
     | Some "NT" => 40 <=? cast_integer (Row.book_num r)
     | _ => true
     end
  && (if JS.truthy_opt JS.truthy_string book
      then String.eqb (Row.book_num r) (default EmptyString book)
      else true).

Definition verse_key : Type := string * string * Z * Z.

Definition verse_key_le (a b : verse_key) : bool :=
  let '(an, _, ac, av) := a in
  let '(bn, _, bc, bv) := b in
  match String.compare an bn with
  | Lt => true
  | Gt => false
  | Eq => (ac <? bc) || ((ac =? bc) && (av <=? bv))
  end.

(** [LIMIT ?]: a negative bound means no bound. *)
Definition sql_limit {A} (n : Z) (l : list A) : list A :=
  if n <? 0 then l else take (Z.to_nat n) l.

(** [SELECT DISTINCT book_num, book_name, chapter, verse FROM
     english_tokens WHERE <conditions> AND exclude = 0
     ORDER BY book_num, chapter, verse LIMIT ?] *)
Definition sql_find_verses (rows : list Row.t) (query : string)
    (testament book : option string) (limit : Z) : list verse_key :=
  sql_limit limit
    (order_by verse_key_le
       (remove_dups
          ((λ r, (Row.book_num r, Row.book_name r, Database.Row.chapter r,
                  Database.Row.verse r)) <$>
             filter (λ r, search_conditions query testament book r
                          && (Row.exclude r =? 0) = true) rows))).

(** *** The connection and the calls made on it *)

Inductive statement : Type :=
| VerseTokens (bookId : string) (chapter verse : JS.number)
| VerseTokensIncluded (bookId : string) (chapter verse : JS.number)
| DistinctVerses (bookId : string) (chapter startVerse endVerse : JS.number)
| FindVerses (query : string) (testament book : option string) (limit : Z).

(** [db] is the module-level connection ([null] until opened); [file] is
    what [DEFAULT_DB_PATH] holds, if it exists; [issued] lists the
    statements run so far, latest first. *)
Record world : Type := World {
  db : option (list Row.t);
  file : option (list Row.t);
  issued : list statement
}.

Inductive outcome (A : Type) : Type :=
| Return (a : A)
| Throw (message : string).
Arguments Return {A} a.
Arguments Throw {A} message.

Definition M (A : Type) : Type := world → outcome A * world.

#[global] Instance M_ret : MRet M := λ A a w, (Return a, w).
#[global] Instance M_bind : MBind M := λ A B f m w,
  match m w with
  | (Return a, w') => f a w'
  | (Throw e, w') => (Throw e, w')
  end.

(** [initDatabase()] with the default path; the message of the error
    thrown is abridged. *)
Definition initDatabase : M unit := λ w,
  match db w with
  | Some _ => (Return (), w)
  | None =>
      match file w with
      | None => (Throw "Database file not found", w)
      | Some rows => (Return (), World (Some rows) (file w) (issued w))
      end
  end.

(** [db.prepare(sql).all(params)] *)
Definition run {A} (st : statement) (result : list Row.t → A) : M A := λ w,
  match db w with
  | Some rows => (Return (result rows), World (db w) (file w) (st :: issued w))
  | None => (Throw "db is null", w)
  end.

(** The [console.log(tokens)] before the return writes to the console
    only and is left out. *)
Definition getEnglishText (reference : BibleReference) : M (option string) :=
  _ ← initDatabase;
  let bookId := bookId reference in
  let chapter := chapter reference in
  let verse := verse reference in
  if negb (JS.truthy_string bookId) || negb (JS.truthy_number chapter)
     || negb (JS.truthy_opt JS.truthy_number verse)
  then mret None
  else
    let verse := default JS.NaN verse in
    tokens ← run (VerseTokens bookId chapter verse)
               (λ rows, sql_verse_tokens rows bookId chapter verse);
    if (length tokens =? 0)%nat then mret None
    else mret (Some (assembleTextFromTokens tokens)).

Record passage_verse : Type := PassageVerse {
  pv_text : string;
  pv_verse : Z;
  pv_reference : string
}.

Definition getPassage (reference : BibleReference) : M (list passage_verse) :=
  _ ← initDatabase;
  let bookId := bookId reference in
  let book := book reference in
  let chapter := chapter reference in
  let startVerse := verse_or_1 (verse reference) in
  let endVerse :=
    match endVerse reference with
    | Some e => if JS.truthy_number e then e else startVerse
    | None => startVerse
    end in
  verses ← run (DistinctVerses bookId chapter startVerse endVerse)
             (λ rows, sql_distinct_verses rows bookId chapter startVerse
                        endVerse);
  mapM (λ v : Z,
          let verseReference :=
            book +:+ " " +:+ JS.toString chapter +:+ ":"
              +:+ JS.toString (JS.Num v) in
          tokens ← run (VerseTokensIncluded bookId chapter (JS.Num v))
                     (λ rows, sql_verse_tokens_included rows bookId chapter
                                (JS.Num v));
          mret (PassageVerse (assembleTextFromTokens tokens) v
                  verseReference))
       verses.

Record search_hit : Type := SearchHit {
  sh_text : string;
  sh_reference : string;
  sh_book : string;
  sh_chapter : Z;
  sh_verse : Z
}.

Definition searchText (query : string) (testament book : option string)
    (limit : option Z) : M (list search_hit) :=
  let limit := default 20 limit in
  _ ← initDatabase;
  matchingVerses ← run (FindVerses query testament book limit)
                     (λ rows, sql_find_verses rows query testament book
                                limit);
  mapM (λ v : verse_key,
          let '(book_num, book_name, chapter, verse) := v in
          tokens ← run (VerseTokensIncluded book_num (JS.Num chapter)
                          (JS.Num verse))
                     (λ rows, sql_verse_tokens_included rows book_num
                                (JS.Num chapter) (JS.Num verse));
          mret (SearchHit (assembleTextFromTokens tokens)
                  (book_name +:+ " " +:+ JS.toString (JS.Num chapter)
                     +:+ ":" +:+ JS.toString (JS.Num verse))
                  book_name chapter verse))
       matchingVerses.

End Database.

(** ** Sample token storage *)

Module SampleDb.

Import Database.

(** A row of verse [bookNum c:v] at word position [w]. *)
Definition row (bookNum bookName : string) (c v w : Z) (text : string)
    (skip excl : Z) : Row.t :=
  Row.Make
    (bookNum +:+ JS.padStart 3 "0" (JS.toString (JS.Num c))
       +:+ JS.padStart 3 "0" (JS.toString (JS.Num v))
       +:+ JS.padStart 3 "0" (JS.toString (JS.Num w)))
    bookNum bookName c v w text skip excl.

(** Genesis 1:1 with one excluded alignment token, stored out of
    position order, and the first words of Genesis 1:2 and John 1:1. *)
Definition rows : list Row.t :=
  [ row "01" "Genesis" 1 1 2 "the" 0 0;
    row "01" "Genesis" 1 1 1 "In" 0 0;
    row "01" "Genesis" 1 1 3 "beginning" 0 0;
    row "01" "Genesis" 1 1 4 "-" 0 1;
    row "01" "Genesis" 1 1 5 "God" 0 0;
    row "01" "Genesis" 1 1 6 "created" 0 0;
    row "01" "Genesis" 1 1 7 "the" 0 0;
    row "01" "Genesis" 1 1 8 "heavens" 0 0;
    row "01" "Genesis" 1 1 9 "and" 0 0;
    row "01" "Genesis" 1 1 10 "the" 0 0;
    row "01" "Genesis" 1 1 11 "earth" 1 0;
    row "01" "Genesis" 1 1 12 "." 0 0;
    row "01" "Genesis" 1 2 1 "Now" 0 0;
    row "01" "Genesis" 1 2 2 "the" 0 0;
    row "01" "Genesis" 1 2 3 "earth" 0 0;
    row "43" "John" 1 1 1 "In" 0 0;
    row "43" "John" 1 1 2 "the" 0 0;
    row "43" "John" 1 1 3 "beginning" 0 0 ].

(** The connection is closed and the database file exists. *)
Definition closed : world := World None (Some rows) [].

(** The connection is closed and there is no database file. *)
Definition missing : world := World None None [].

Definition genesis_1_1 : BibleReference :=
  mkRef "Genesis" "01" (JS.Num 1) (Some (JS.Num 1)) None "OT" "Gen".

Definition genesis_1 : BibleReference :=
  mkRef "Genesis" "01" (JS.Num 1) None None "OT" "Gen".

End SampleDb.

(** ** Definitions used to state the properties *)

Section JoinTokens.
Import Database.

(** The separator that follows a token that is not the last one. *)
Definition space_after (tok : token) : string :=
  if truthy_flag (skip_space_after tok) then EmptyString else " ".

(** Join with conditional spaces, by recursion on the tokens. *)
Fixpoint join_tokens (tokens : list token) : string :=
  match tokens with
  | [] => EmptyString
  | [tok] => text tok
  | tok :: rest => text tok +:+ space_after tok +:+ join_tokens rest
  end.
End JoinTokens.

(** A three-digit field of a fixed-width identifier. *)
Definition pad3 (n : JS.number) : string := JS.padStart 3 "0" (JS.toString n).

Definition pad3_ok (n : nat) : bool :=
  let s := pad3 (JS.Num (Z.of_nat n)) in
  (String.length s =? 3)%nat
  && bool_decide (JS.parseInt s = JS.Num (Z.of_nat n)).

(** Genesis 1 with the verse number 0, as [parseReference] builds it from
    the citation [Genesis 1:0]. *)
Definition genesis_1_0 : BibleReference :=
  mkRef "Genesis" "01" (JS.Num 1) (Some (JS.Num 0)) None "OT" "Gen".

(** [getBookAliases]'s list for a row: the name, then the abbreviations. *)
Definition book_aliases (b : Book.entry) : list string :=
  Book.name b :: Book.abbreviations b.

(** A catalog in which a one-letter abbreviation, after a digit prefix,
    is related to aliases of two different books. *)
Module Letters.
Definition thessalonians1 : Book.entry :=
  Book.Entry "52" "1 Thessalonians" ["1 Thess"] "NT" "1Thess"
    (Sample.chapters_of [10; 20]).
Definition timothy1 : Book.entry :=
  Book.Entry "54" "1 Timothy" ["1 Tim"; "1 Ti"] "NT" "1Tim"
    (Sample.chapters_of [20; 15; 16]).
Definition titus : Book.entry :=
  Book.Entry "56" "Titus" ["Tit"; "Ti"; "T"] "NT" "Titus"
    (Sample.chapters_of [16; 15; 15]).
Definition bibleData : list Book.entry := [thessalonians1; timothy1; titus].
End Letters.

(** The literal characters of an escaped alternative. *)
Fixpoint unescape (src : string) : string :=
  match src with
  | EmptyString => EmptyString
  | String "\" (String a src') => String a (unescape src')
  | String a src' => String a (unescape src')
  end.

(** Remove the prefix [p] from [s], comparing characters as the [i] flag
    does. *)
Fixpoint strip_ci (p s : string) : option string :=
  match p with
  | EmptyString => Some s
  | String a p' =>
      match s with
      | String b s' =>
          if Ascii.eqb (JS.upper_char a) (JS.upper_char b)
          then strip_ci p' s' else None
      | EmptyString => None
      end
  end.

Fixpoint suffixes (s : string) : list string :=
  s :: match s with
       | EmptyString => []
       | String _ s' => suffixes s'
       end.

(** What one literal alternative does on the input [s]. *)
Definition lit_try {R} (s : string) (c : Regex.captures)
    (k : string → Regex.captures → option R) (p : string) : option R :=
  match strip_ci (unescape p) s with
  | Some s' => k s' c
  | None => None
  end.

(** The order of the sorted pattern list. *)
Definition longer_first (a b : string) : Prop :=
  (String.length b ≤ String.length a)%nat.

(** The part of [init_book] that fills the name table. *)
Definition name_step (m : JsMap.t Book.entry) (b : Book.entry)
    : JsMap.t Book.entry :=
  foldl (add_abbreviation b)
    (JsMap.set (JS.toLowerCase (Book.name b)) b m) (Book.abbreviations b).

(** The book group of [verseRegex] followed by the chapter and verse
    numbers. *)
Definition book_group (bibleData : list Book.entry) : Regex.regex :=
  Regex.Seq (Regex.Group 2 (Regex.alternatives (bookPatterns bibleData)))
    chapter_verse.

(** What follows an alternative that consumed [s] down to [s']. *)
Definition after_book {R} (s : string) (c : Regex.captures)
    (k : string → Regex.captures → option R) (s' : string) : option R :=
  Regex.rmatch chapter_verse s'
    (<[2%nat := Some (Regex.matched s s')]> c) k.

(** The object [parseReference] builds from the resolved book and the
    captured numbers. *)
Definition reference_of (bookData : Book.entry) (chapter : string)
    (verse endVerse : option string) : BibleReference :=
  {| book := Book.name bookData;
     bookId := Book.ord bookData;
     chapter := JS.parseInt chapter;
     verse := optional_number verse;
     endVerse := optional_number endVerse;
     testament := Book.testament bookData;
     osisId := Book.osisId bookData |}.

(** The fallback as the specification words it: the shortest related
    alias, the first one in iteration order among equals. *)
Definition shortest_related (bookKey : string) (entries : JsMap.t Book.entry)
    : option (string * Book.entry) :=
  foldl (λ best kv,
           if alias_related bookKey kv.1
           then match best with
                | None => Some kv
                | Some b =>
                    if (String.length kv.1 <? String.length b.1)%nat
                    then Some kv else Some b
                end
           else best)
    None entries.

(** [sel] is the first entry, in iteration order, whose key is related to
    [bookKey]; [None] when no key is. *)
Definition first_related (bookKey : string) (entries : JsMap.t Book.entry)
    (sel : option (string * Book.entry)) : Prop :=
  match sel with
  | Some (key, value) =>
      ∃ before after,
        entries = before ++ (key, value) :: after
        ∧ alias_related bookKey key = true
        ∧ Forall (λ kv, alias_related bookKey kv.1 = false) before
  | None => Forall (λ kv, alias_related bookKey kv.1 = false) entries
  end.

(** The keys under which [init_book] registers a row. *)
Definition alias_keys (b : Book.entry) : list string :=
  JS.toLowerCase (Book.name b)
  :: (Book.abbreviations b ≫= λ abbr,
        [JS.toLowerCase abbr; JS.strip_dots (JS.toLowerCase abbr)]).

(** An entry of the name table that is a row of the catalog under one of
    its keys. *)
Definition owned (bibleData : list Book.entry) (kv : string * Book.entry)
    : Prop :=
  kv.2 ∈ bibleData ∧ kv.1 ∈ alias_keys kv.2.

(** The rows of the token table that are not excluded. *)
Definition included (rows : list Database.Row.t) : list Database.Row.t :=
  filter (λ r, (Database.Row.exclude r =? 0) = true) rows.

(** ** The regex, declaratively *)

(** What a regex may do: [step r s c s' c'] holds when [r] can consume
    [s] down to [s'] and turn the captures [c] into [c']. *)
Fixpoint step (r : Regex.regex) (s : string) (c : Regex.captures)
    (s' : string) (c' : Regex.captures) {struct r} : Prop :=
  match r with
  | Regex.Eps => s' = s ∧ c' = c
  | Regex.Chr a =>
      ∃ b, s = String b s' ∧ JS.upper_char a = JS.upper_char b ∧ c' = c
  | Regex.Digit => ∃ b, s = String b s' ∧ JS.is_digit b = true ∧ c' = c
  | Regex.Space => ∃ b, s = String b s' ∧ JS.is_space b = true ∧ c' = c
  | Regex.Seq r1 r2 => ∃ s1 c1, step r1 s c s1 c1 ∧ step r2 s1 c1 s' c'
  | Regex.Alt r1 r2 => step r1 s c s' c' ∨ step r2 s c s' c'
  | Regex.Star r1 =>
      ∃ n : nat,
        (fix iter (n : nat) (s : string) (c : Regex.captures) : Prop :=
           match n with
           | O => s' = s ∧ c' = c
           | S n' => ∃ s1 c1, step r1 s c s1 c1 ∧ iter n' s1 c1
           end) n s c
  | Regex.Opt r1 => step r1 s c s' c' ∨ (s' = s ∧ c' = c)
  | Regex.Group n r1 =>
      ∃ c1, step r1 s c s' c1 ∧ c' = <[n := Some (Regex.matched s s')]> c1
  end.

(** Every character of [t] is a decimal digit. *)
Fixpoint all_digits (t : string) : bool :=
  match t with
  | EmptyString => true
  | String b t' => JS.is_digit b && all_digits t'
  end.

(** A non-empty run of decimal digits: what [\d+] captures. *)
Definition digit_run (t : string) : Prop :=
  all_digits t = true ∧ t ≠ EmptyString.

(** ** [referenceToDbId] and the word ids *)

(** [string | string[]], the two shapes of a database id. *)
Inductive db_id : Type :=
| VerseId (id : string)
| WordIds (ids : list string).

(** [Array.from({ length: 999 }, (_, i) => ...)] maps over the indices
    0 to 998; the [throw] is a [Throw]. *)
Definition referenceToDbId (ref : BibleReference) (table : string)
    : Database.outcome db_id :=
  if String.eqb table "bsb_english"
  then Database.Return (VerseId (formatVerseId ref))
  else
    let verseId := formatVerseId ref in
    if String.eqb table "hebrew_ot" || String.eqb table "greek_nt"
    then
      Database.Return
        (WordIds
           ((λ i : nat,
               verseId
                 +:+ JS.padStart 3 "0" (JS.toString (JS.Num (Z.of_nat i + 1))))
              <$> seq 0 999))
    else Database.Throw ("Unknown table: " +:+ table).

(** [create-db.ts]: the word position that the import scripts store. *)
Definition parseWordPosition (id : string) : JS.number :=
  if (String.length id <? 11)%nat then JS.Num 0
  else JS.parseInt (JS.substring 8 11 id).

(** ** Citations in canonical form *)

(** The loop of a starred atom, by name. *)
Definition star_loop {R} (r : Regex.regex)
    (k : string → Regex.captures → option R)
    : nat → string → Regex.captures → option R :=
  fix loop (fuel : nat) (s : string) (c : Regex.captures) {struct fuel}
      : option R :=
    match fuel with
    | O => k s c
    | S fuel' =>
        Regex.or_else
          (Regex.rmatch r s c
             (λ s' c', Regex.progress s s' (loop fuel' s' c')))
          (k s c)
    end.

(** The first character of a string satisfies [p]. *)
Definition starts_with (p : ascii → bool) (s : string) : bool :=
  match s with
  | String a _ => p a
  | EmptyString => false
  end.

(** White space, then a digit: where [\s+(\d+)] can start. *)
Definition numbers_follow (s : string) : bool :=
  match s with
  | String a t => JS.is_space a && starts_with JS.is_digit (JS.skip_spaces t)
  | EmptyString => false
  end.

(** In the name, white space is always followed, after any further white
    space, by a character that is not a digit. *)
Definition quiet (name : string) : bool :=
  forallb
    (λ t, match t with
          | String a t' =>
              negb (JS.is_space a)
              || starts_with (λ d, negb (JS.is_digit d)) (JS.skip_spaces t')
          | EmptyString => true
          end)
    (suffixes name).

(** The text after the chapter number of a citation. *)
Definition verse_part (verse endVerse : option string) : string :=
  match verse with
  | Some v =>
      ":" +:+ v +:+ match endVerse with
                    | Some e => "-" +:+ e
                    | None => EmptyString
                    end
  | None => EmptyString
  end.

(** [<name> <chapter>], [<name> <chapter>:<verse>] or
    [<name> <chapter>:<verse>-<endVerse>]. *)
Definition citation (name chapter : string) (verse endVerse : option string)
    : string :=
  name +:+ " " +:+ chapter +:+ verse_part verse endVerse.

(** No character of the string is white space. *)
Fixpoint no_space (s : string) : bool :=
  match s with
  | EmptyString => true
  | String a s' => negb (JS.is_space a) && no_space s'
  end.

(** The captures once the numbers of a citation are read. *)
Definition numbers_read (c : Regex.captures) (chapter : string)
    (verse endVerse : option string) : Regex.captures :=
  match verse with
  | None => <[3%nat := Some chapter]> c
  | Some v =>
      match endVerse with
      | None => <[4%nat := Some v]> (<[3%nat := Some chapter]> c)
      | Some e =>
          <[5%nat := Some e]>
            (<[4%nat := Some v]> (<[3%nat := Some chapter]> c))
      end
  end.


(** ** [server.ts]: the tool [getEnglishText] *)

(** The double quote character, and the two messages of the tool. *)
Definition dquote : string := String "034"%char EmptyString.

Definition invalid_reference_text (reference : string) : string :=
  "Invalid Bible reference: " +:+ dquote +:+ reference +:+ dquote
    +:+ ". Please use a format like " +:+ dquote +:+ "John 3:16" +:+ dquote
    +:+ " or " +:+ dquote +:+ "Genesis 1:1" +:+ dquote +:+ ".".

Definition no_text_found_text (reference : string) : string :=
  "No text found for reference: " +:+ dquote +:+ reference +:+ dquote
    +:+ ".".

(** The handler registered for the tool; its result is the text of the
    one content item of the response. *)
Definition getEnglishText_tool (bibleData : list Book.entry)
    (reference : string) : Database.M string :=
  match parseReference bibleData reference with
  | None => mret (invalid_reference_text reference)
  | Some parsedReference =>
      text ← Database.getEnglishText parsedReference;
      if negb (JS.truthy_opt JS.truthy_string text)
      then mret (no_text_found_text reference)
      else mret (default EmptyString text)
  end.

(** ** [create-db.ts]: the import of the English tokens *)

(** The object [bookNames], from ordinal to book name. *)
Definition bookNames : JsMap.t string :=
  [ ("01", "Genesis"); ("02", "Exodus"); ("03", "Leviticus");
    ("04", "Numbers"); ("05", "Deuteronomy"); ("06", "Joshua");
    ("07", "Judges"); ("08", "Ruth"); ("09", "1 Samuel");
    ("10", "2 Samuel"); ("11", "1 Kings"); ("12", "2 Kings");
    ("13", "1 Chronicles"); ("14", "2 Chronicles"); ("15", "Ezra");
    ("16", "Nehemiah"); ("17", "Esther"); ("18", "Job"); ("19", "Psalms");
    ("20", "Proverbs"); ("21", "Ecclesiastes"); ("22", "Song of Solomon");
    ("23", "Isaiah"); ("24", "Jeremiah"); ("25", "Lamentations");
    ("26", "Ezekiel"); ("27", "Daniel"); ("28", "Hosea"); ("29", "Joel");
    ("30", "Amos"); ("31", "Obadiah"); ("32", "Jonah"); ("33", "Micah");
    ("34", "Nahum"); ("35", "Habakkuk"); ("36", "Zephaniah");
    ("37", "Haggai"); ("38", "Zechariah"); ("39", "Malachi");
    ("40", "Matthew"); ("41", "Mark"); ("42", "Luke"); ("43", "John");
    ("44", "Acts"); ("45", "Romans"); ("46", "1 Corinthians");
    ("47", "2 Corinthians"); ("48", "Galatians"); ("49", "Ephesians");
    ("50", "Philippians"); ("51", "Colossians"); ("52", "1 Thessalonians");
    ("53", "2 Thessalonians"); ("54", "1 Timothy"); ("55", "2 Timothy");
    ("56", "Titus"); ("57", "Philemon"); ("58", "Hebrews");
    ("59", "James"); ("60", "1 Peter"); ("61", "2 Peter");
    ("62", "1 John"); ("63", "2 John"); ("64", "3 John"); ("65", "Jude");
    ("66", "Revelation") ].

(** The parameters bound to one [INSERT INTO english_tokens]. *)
Record inserted : Type := Inserted {
  ins_id : string;
  ins_book_num : string;
  ins_book_name : string;
  ins_chapter : JS.number;
  ins_verse : JS.number;
  ins_word_position : JS.number;
  ins_text : string;
  ins_skip_space_after : Z;
  ins_exclude : Z
}.

(** [x === "y" ? 1 : 0] *)
Definition y_flag (x : string) : Z := if String.eqb x "y" then 1 else 0.

(** One iteration of the loop of [importBSBTokens] on a record of the
    TSV file, whose fields are strings: [None] is [continue]. *)
Definition import_token (id text skip_space_after exclude : string)
    : option inserted :=
  if negb (JS.truthy_string id) || (String.length id <? 8)%nat then None
  else
    let bookNum := JS.substring 0 2 id in
    let chapter := JS.parseInt (JS.substring 2 5 id) in
    let verse := JS.parseInt (JS.substring 5 8 id) in
    let wordPosition :=
      if JS.truthy_string id && (11 <=? String.length id)%nat
      then JS.parseInt (JS.substring 8 11 id)
      else JS.Num 0 in
    let bookName :=
      match JsMap.get bookNum bookNames with
      | Some name => if JS.truthy_string name then name else EmptyString
      | None => EmptyString
      end in
    Some (Inserted id bookNum bookName chapter verse wordPosition text
            (y_flag skip_space_after) (y_flag exclude)).

(** The two-digit text of an ordinal. *)
Definition pad2 (n : nat) : string :=
  JS.padStart 2 "0" (JS.toString (JS.Num (Z.of_nat n))).

(** ** [server.ts]: the resource [getEnglishText] *)

(** A variable of the URI template: [string | string[]]. *)
Inductive template_var : Type :=
| Str (s : string)
| Arr (l : list string).

(** [x[0] ?? x], as the text it stands for in a template literal or as
    the argument of [parseInt]: the first character of a string that is
    not empty, the first element of an array that is not empty, and the
    value itself otherwise (the empty string, or the empty array, whose
    text is empty). *)
Definition first_or_self (x : template_var) : string :=
  match x with
  | Str (String a _) => String a EmptyString
  | Str EmptyString => EmptyString
  | Arr (s :: _) => s
  | Arr [] => EmptyString
  end.

Definition hex_val (c : ascii) : option Z :=
  let n := nat_of_ascii c in
  if (48 <=? n)%nat && (n <=? 57)%nat then Some (Z.of_nat n - 48)
  else if (97 <=? n)%nat && (n <=? 102)%nat then Some (Z.of_nat n - 87)
  else if (65 <=? n)%nat && (n <=? 70)%nat then Some (Z.of_nat n - 55)
  else None.

Fixpoint read_hex (acc : option Z) (s : string) : option Z :=
  match s with
  | String c s' =>
      match hex_val c with
      | Some v => read_hex (Some (16 * default 0 acc + v)) s'
      | None => acc
      end
  | EmptyString => acc
  end.

(** The digits of [parseInt(s)] without a radix: hexadecimal after [0x]
    or [0X], decimal otherwise. *)
Definition read_number (s : string) : option Z :=
  match s with
  | String "0" (String "x" s') => read_hex None s'
  | String "0" (String "X" s') => read_hex None s'
  | _ => JS.read_digits None s
  end.

(** [parseInt(s)] *)
Definition parseInt_auto (s : string) : JS.number :=
  match JS.skip_spaces s with
  | String "-" s' => JS.of_digits (read_number s') (-1)
  | String "+" s' => JS.of_digits (read_number s') 1
  | s' => JS.of_digits (read_number s') 1
  end.

(** The handler registered for the resource template
    [bible://{language}/{bookName}/{chapterNum}/{verseNum}]; its result
    is the text of the one content item. *)
Definition getEnglishText_resource (bibleData : list Book.entry)
    (bookName chapterNum verseNum : template_var) : Database.M string :=
  let parsedBookName := first_or_self bookName in
  let parsedChapterNum := parseInt_auto (first_or_self chapterNum) in
  let parsedVerseNum := parseInt_auto (first_or_self verseNum) in
  let cited :=
    parsedBookName +:+ " " +:+ JS.toString parsedChapterNum +:+ ":"
      +:+ JS.toString parsedVerseNum in
  match parseReference bibleData cited with
  | None => mret "Invalid reference"
  | Some reference =>
      text ← Database.getEnglishText reference;
      if JS.truthy_opt JS.truthy_string text
      then mret (default EmptyString text)
      else mret ("No text found for " +:+ cited)
  end.

(** * Properties *)

(** ** Strings *)

Lemma app_nil_l (s : string) : EmptyString +:+ s = s.
Proof. reflexivity. Qed.

Lemma app_cons (a : ascii) (s t : string) :
  String a s +:+ t = String a (s +:+ t).
Proof. reflexivity. Qed.

Lemma app_empty_r (s : string) : s +:+ EmptyString = s.
Proof.
  induction s as [|a s IH]; [done|]. by rewrite app_cons, IH.
Qed.

Lemma app_assoc_s (a b c : string) : (a +:+ b) +:+ c = a +:+ b +:+ c.
Proof.
  induction a as [|x a IH]; [done|]. by rewrite !app_cons, IH.
Qed.

Lemma length_app_s (a b : string) :
  String.length (a +:+ b) = (String.length a + String.length b)%nat.
Proof.
  induction a as [|x a IH]; [done|]. rewrite app_cons. simpl. by rewrite IH.
Qed.

Lemma substring_app_exact (a b : string) :
  String.substring 0 (String.length a) (a +:+ b) = a.
Proof.
  induction a as [|x a IH]; simpl.
  - by destruct b.
  - by rewrite IH.
Qed.

Lemma substring_app_skip (a b : string) (n m : nat) :
  String.substring (String.length a + n) m (a +:+ b) = String.substring n m b.
Proof. induction a as [|x a IH]; simpl; [done | apply IH]. Qed.

Lemma substring_whole (a : string) :
  String.substring 0 (String.length a) a = a.
Proof. induction a as [|x a IH]; simpl; [done | by rewrite IH]. Qed.

Lemma substring_middle (a b c : string) :
  String.substring (String.length a) (String.length b) (a +:+ b +:+ c) = b.
Proof.
  rewrite <- (Nat.add_0_r (String.length a)), substring_app_skip.
  apply substring_app_exact.
Qed.

Lemma substring_end (a b c : string) :
  String.substring (String.length a + String.length b) (String.length c)
    (a +:+ b +:+ c) = c.
Proof.
  rewrite substring_app_skip.
  rewrite <- (Nat.add_0_r (String.length b)), substring_app_skip.
  apply substring_whole.
Qed.

(** ** Token assembly *)

Section Assemble.
Import Database.

Lemma assemble_fold_acc len (tokens : list token) acc i :
  fst (foldl (assemble_step len) (acc, i) tokens)
  = acc +:+ fst (foldl (assemble_step len) (EmptyString, i) tokens).
Proof.
  revert acc i. induction tokens as [|tok tokens IH]; intros acc i; simpl.
  - by rewrite app_empty_r.
  - rewrite IH. symmetry. rewrite IH. by rewrite app_nil_l, !app_assoc_s.
Qed.

(** The index test only compares the position with the length, so the
    fold over a tail is the fold over that tail on its own. *)
Lemma assemble_fold_shift len (tokens : list token) acc i :
  fst (foldl (assemble_step (len + 1)) (acc, i + 1) tokens)
  = fst (foldl (assemble_step len) (acc, i) tokens).
Proof.
  revert acc i. induction tokens as [|tok tokens IH]; intros acc i; simpl.
  - done.
  - replace (len + 1 - 1) with (len - 1 + 1) by lia.
    replace (i + 1 <? len - 1 + 1) with (i <? len - 1)
      by (destruct (Z.ltb_spec i (len - 1)),
                   (Z.ltb_spec (i + 1) (len - 1 + 1)); lia).
    apply IH.
Qed.

Lemma assemble_cons tok (rest : list token) :
  assembleTextFromTokens (tok :: rest)
  = text tok
      +:+ (if (0 <? Z.of_nat (length rest)) then space_after tok
           else EmptyString)
      +:+ assembleTextFromTokens rest.
Proof.
  unfold assembleTextFromTokens.
  change (foldl ?f ?a (tok :: rest)) with (foldl f (f a tok) rest).
  replace (Z.of_nat (length (tok :: rest)))
    with (Z.of_nat (length rest) + 1) by (simpl length; lia).
  unfold assemble_step at 2.
  replace (Z.of_nat (length rest) + 1 - 1)
    with (Z.of_nat (length rest)) by lia.
  rewrite (assemble_fold_shift _ rest _ 0).
  rewrite assemble_fold_acc. by rewrite app_nil_l, !app_assoc_s.
Qed.

(** The indexed [reduce] is the recursive join. *)
Lemma assemble_join (tokens : list token) :
  assembleTextFromTokens tokens = join_tokens tokens.
Proof.
  induction tokens as [|tok [|tok' rest] IH].
  - done.
  - rewrite assemble_cons. simpl. by rewrite !app_empty_r.
  - rewrite assemble_cons, IH. done.
Qed.

(** C6: [assembleTextFromTokens] concatenates the token texts in order
    and puts one space after every token but the last, unless the
    token's flag suppresses it; the two token lists of the specification
    assemble to "In the beginning." and to "Hello, world". *)
Theorem C6_assemble_spacing :
  assembleTextFromTokens [] = EmptyString
  ∧ (∀ tok, assembleTextFromTokens [tok] = text tok)
  ∧ (∀ tok tok' rest,
        assembleTextFromTokens (tok :: tok' :: rest)
        = text tok
            +:+ (if truthy_flag (skip_space_after tok) then EmptyString
                 else " ")
            +:+ assembleTextFromTokens (tok' :: rest))
  ∧ assembleTextFromTokens
      [Token "In" (FBool false); Token "the" (FBool false);
       Token "beginning." (FBool true)] = "In the beginning."
  ∧ assembleTextFromTokens
      [Token "Hello" (FBool true); Token "," (FBool false);
       Token "world" (FBool true)] = "Hello, world".
Proof.
  split; [reflexivity|]. split; [intros tok; by rewrite assemble_join|].
  split; [|split; reflexivity].
  intros tok tok' rest. by rewrite !assemble_join.
Qed.

End Assemble.


(** ** The book-number table *)

Section NumberMap.
Variable bibleData : list Book.entry.

Lemma numberMap_foldl (l : list Book.entry) (t : tables) :
  numberMap (foldl init_book t l)
  = foldl (λ m b, <[Book.ord b := b]> m) (numberMap t) l.
Proof. revert t. induction l as [|b l IH]; intros t; [done|]. apply IH. Qed.

Lemma insert_books_lookup (l : list Book.entry) (m : gmap string Book.entry)
    (k : string) :
  foldl (λ m b, <[Book.ord b := b]> m) m l !! k
  = match last (filter (λ b, Book.ord b = k) l) with
    | Some b => Some b
    | None => m !! k
    end.
Proof.
  revert m. induction l as [|b l IH]; intros m; [done|].
  simpl foldl. rewrite IH, filter_cons. case_decide as Hk.
  - destruct (filter _ l) as [|b' l'] eqn:Hf.
    + simpl. by rewrite <- Hk, lookup_insert_eq.
    + rewrite last_cons_cons.
      destruct (last (b' :: l')) eqn:E; [done|]. by apply last_None in E.
  - destruct (last _); [done|]. by rewrite lookup_insert_ne.
Qed.

(** [bookNumberMap.get(k)] is the last row of the catalog with ordinal [k]. *)
Lemma bookNumberMap_lookup (k : string) :
  bookNumberMap bibleData !! k
  = last (filter (λ b, Book.ord b = k) bibleData).
Proof.
  unfold bookNumberMap, init_tables. rewrite numberMap_foldl.
  rewrite insert_books_lookup. simpl. rewrite lookup_empty.
  by destruct (last _).
Qed.

Lemma bookNumberMap_Some (k : string) (b : Book.entry) :
  bookNumberMap bibleData !! k = Some b → b ∈ bibleData ∧ Book.ord b = k.
Proof.
  rewrite bookNumberMap_lookup. intros H%last_Some_elem_of.
  by apply list_elem_of_filter in H as [? ?].
Qed.

Lemma bookNumberMap_None (k : string) :
  bookNumberMap bibleData !! k = None
  ↔ ∀ b, b ∈ bibleData → Book.ord b ≠ k.
Proof.
  rewrite bookNumberMap_lookup, last_None. split.
  - intros Hnil b Hb Hk.
    assert (b ∈ filter (λ b, Book.ord b = k) bibleData) as Hin
      by (by apply list_elem_of_filter).
    rewrite Hnil in Hin. by apply elem_of_nil in Hin.
  - intros Hall. destruct (filter _ bibleData) as [|b l] eqn:Hf; [done|].
    assert (b ∈ filter (λ b, Book.ord b = k) bibleData) as Hin
      by (rewrite Hf; left).
    apply list_elem_of_filter in Hin as [Hk Hb]. by destruct (Hall b Hb).
Qed.

End NumberMap.

(** ** Validation and decoding *)

Section Validation.
Variable bibleData : list Book.entry.

(** C5: for a reference whose book ordinal is in the catalog,
    [isValidReference] is false when the verse is 0, when the verse is
    greater than the chapter's verse count, when an end verse is present
    and less than the verse, and when the chapter is not a key of the
    book's chapter map. *)
Theorem C5_isValidReference_rejects (reference : BibleReference)
    (bookData : Book.entry) :
  bookNumberMap bibleData !! bookId reference = Some bookData →
  verse reference = Some (JS.Num 0)
  ∨ (∃ v maxVerse,
       verse reference = Some v
       ∧ Book.chapters bookData !! JS.toString (chapter reference)
         = Some maxVerse
       ∧ JS.gt v (JS.Num maxVerse) = true)
  ∨ (∃ e v,
       endVerse reference = Some e ∧ verse reference = Some v
       ∧ JS.lt e v = true)
  ∨ Book.chapters bookData !! JS.toString (chapter reference) = None →
  isValidReference bibleData reference = false.
Proof.
  intros Hbook Hcases. unfold isValidReference. rewrite Hbook.
  destruct (Book.chapters bookData !! _) as [maxVerse|] eqn:Hch; [|done].
  destruct Hcases
    as [Hv|[(v & m & Hv & Hm & Hgt)|[(e & v & He & Hv & Hlt)|?]]];
    [| |  |done].
  - by rewrite Hv.
  - rewrite Hv. simplify_eq. rewrite Hgt. by rewrite orb_true_r.
  - rewrite Hv, He. simpl. rewrite Hlt, orb_true_r. by destruct (_ || _).
Qed.


End Validation.

(** Each rejection of C5 on the sample catalog: John 3:0, John 3:37 (the
    chapter has 36 verses), John 3:16-15 and John 4 (not in the sample). *)
Lemma C5_isValidReference_rejects_witness :
  isValidReference Sample.bibleData
    (mkRef "John" "43" (JS.Num 3) (Some (JS.Num 0)) None "NT" "John") = false
  ∧ isValidReference Sample.bibleData
      (mkRef "John" "43" (JS.Num 3) (Some (JS.Num 37)) None "NT" "John")
    = false
  ∧ isValidReference Sample.bibleData
      (mkRef "John" "43" (JS.Num 3) (Some (JS.Num 16)) (Some (JS.Num 15))
         "NT" "John") = false
  ∧ isValidReference Sample.bibleData
      (mkRef "John" "43" (JS.Num 4) (Some (JS.Num 1)) None "NT" "John")
    = false.
Proof.
  split; [|split; [|split]].
  - apply (C5_isValidReference_rejects Sample.bibleData _ Sample.john).
    + vm_compute. reflexivity.
    + left. reflexivity.
  - apply (C5_isValidReference_rejects Sample.bibleData _ Sample.john).
    + vm_compute. reflexivity.
    + right. left. exists (JS.Num 37), 36.
      repeat split; vm_compute; reflexivity.
  - apply (C5_isValidReference_rejects Sample.bibleData _ Sample.john).
    + vm_compute. reflexivity.
    + right. right. left. exists (JS.Num 15), (JS.Num 16).
      repeat split; reflexivity.
  - apply (C5_isValidReference_rejects Sample.bibleData _ Sample.john).
    + vm_compute. reflexivity.
    + right. right. right. vm_compute. reflexivity.
Defined.

(** ** Fixed-width identifiers *)

Lemma pad3_ok_all : forallb pad3_ok (seq 0 1000) = true.
Proof. vm_compute. reflexivity. Qed.

(** A number from 0 to 999 is padded to exactly three characters, and
    [parseInt] reads it back. *)
Lemma pad3_spec (z : Z) :
  0 ≤ z ≤ 999 →
  String.length (pad3 (JS.Num z)) = 3%nat
  ∧ JS.parseInt (pad3 (JS.Num z)) = JS.Num z.
Proof.
  intros Hz.
  assert (pad3_ok (Z.to_nat z) = true) as H.
  { apply (proj1 (forallb_forall _ _) pad3_ok_all), in_seq. lia. }
  unfold pad3_ok in H. rewrite Z2Nat.id in H by lia.
  apply andb_prop in H as [Hlen Hparse].
  split; [by apply Nat.eqb_eq | by apply bool_decide_eq_true in Hparse].
Qed.

Section RoundTrip.
Variable bibleData : list Book.entry.

Lemma verse_or_1_range (v : option JS.number) :
  (∀ z, v = Some (JS.Num z) → 0 ≤ z ≤ 999) →
  ∃ z, verse_or_1 v = JS.Num z ∧ 0 ≤ z ≤ 999.
Proof.
  intros Hv. destruct v as [[|z]|]; simpl.
  - exists 1. split; [done|lia].
  - destruct (Z.eqb_spec z 0); simpl; [exists 1; split; [done|lia]|].
    exists z. split; [done|]. by apply Hv.
  - exists 1. split; [done|lia].
Qed.

Lemma parseVerseId_formatVerseId (r : BibleReference)
    (bookData : Book.entry) (c : Z) :
  bookNumberMap bibleData !! bookId r = Some bookData →
  String.length (bookId r) = 2%nat →
  chapter r = JS.Num c → 0 ≤ c ≤ 999 →
  (∀ z, verse r = Some (JS.Num z) → 0 ≤ z ≤ 999) →
  parseVerseId bibleData (formatVerseId r)
  = Some {| book := Book.name bookData;
            bookId := bookId r;
            chapter := chapter r;
            verse := Some (verse_or_1 (verse r));
            endVerse := None;
            testament := Book.testament bookData;
            osisId := Book.osisId bookData |}.
Proof.
  intros Hbook Hlen Hc Hcr Hv.
  destruct (verse_or_1_range _ Hv) as (v & Hv1 & Hvr).
  destruct (pad3_spec c Hcr) as [Hlc Hpc].
  destruct (pad3_spec v Hvr) as [Hlv Hpv].
  unfold formatVerseId, parseVerseId. rewrite Hc, Hv1.
  fold (pad3 (JS.Num c)). fold (pad3 (JS.Num v)).
  set (pc := pad3 (JS.Num c)) in *. set (pv := pad3 (JS.Num v)) in *.
  assert (String.length (bookId r +:+ pc +:+ pv) = 8%nat) as Hlen8
    by (rewrite !length_app_s; lia).
  assert (JS.truthy_string (bookId r +:+ pc +:+ pv) = true) as ->
    by (destruct (bookId r +:+ pc +:+ pv); [done|done]).
  rewrite Hlen8. simpl negb. cbv [orb Nat.ltb Nat.leb].
  assert (JS.substring 0 2 (bookId r +:+ pc +:+ pv) = bookId r) as ->.
  { rewrite <- (substring_app_exact (bookId r) (pc +:+ pv)) at 2.
    by rewrite Hlen. }
  assert (JS.substring 2 5 (bookId r +:+ pc +:+ pv) = pc) as ->.
  { rewrite <- (substring_middle (bookId r) pc pv) at 2.
    by rewrite Hlen, Hlc. }
  assert (JS.substring 5 8 (bookId r +:+ pc +:+ pv) = pv) as ->.
  { rewrite <- (substring_end (bookId r) pc pv) at 2.
    by rewrite Hlen, Hlc, Hlv. }
  by rewrite Hbook, Hpc, Hpv.
Qed.

(** C4, amended: for a reference whose two-character book ordinal is a
    key of the catalog, whose chapter is an integer from 0 to 999 and whose
    verse, when it is an integer, is from 0 to 999, decoding the encoded
    id returns the catalog's book name for that ordinal, the same ordinal
    and chapter, the same verse when it is present and not 0, and verse 1
    when the verse is absent or 0. *)
Theorem C4_roundtrip (r : BibleReference) (bookData : Book.entry) (c : Z) :
  bookNumberMap bibleData !! bookId r = Some bookData →
  String.length (bookId r) = 2%nat →
  chapter r = JS.Num c → 0 ≤ c ≤ 999 →
  (∀ z, verse r = Some (JS.Num z) → 0 ≤ z ≤ 999) →
  ∃ r', parseVerseId bibleData (formatVerseId r) = Some r'
        ∧ book r' = Book.name bookData
        ∧ bookId r' = bookId r
        ∧ chapter r' = chapter r
        ∧ (∀ z, verse r = Some (JS.Num z) → z ≠ 0 → verse r' = verse r)
        ∧ (verse r = None ∨ verse r = Some (JS.Num 0) →
           verse r' = Some (JS.Num 1)).
Proof.
  intros Hbook Hlen Hc Hcr Hv. eexists. split.
  { by eapply parseVerseId_formatVerseId. }
  simpl. repeat split; [|].
  - intros z -> Hz. simpl. by destruct (Z.eqb_spec z 0).
  - by intros [-> | ->].
Qed.

End RoundTrip.

(** C4 as stated fails on Genesis 1:0: the verse is present and at most
    999, the id is that of Genesis 1:1, and decoding gives verse 1. *)
Lemma C4_counterexample :
  bookNumberMap Sample.bibleData !! bookId genesis_1_0 = Some Sample.genesis
  ∧ book genesis_1_0 = Book.name Sample.genesis
  ∧ chapter genesis_1_0 = JS.Num 1
  ∧ verse genesis_1_0 = Some (JS.Num 0)
  ∧ formatVerseId genesis_1_0 = "01001001"
  ∧ parseVerseId Sample.bibleData (formatVerseId genesis_1_0)
    = Some (mkRef "Genesis" "01" (JS.Num 1) (Some (JS.Num 1)) None "OT" "Gen")
  ∧ Some (JS.Num 1) ≠ verse genesis_1_0.
Proof. repeat split; try (vm_compute; reflexivity). discriminate. Qed.

Lemma C4_roundtrip_witness :
  ∃ r', parseVerseId Sample.bibleData (formatVerseId SampleDb.genesis_1_1)
        = Some r'
        ∧ book r' = Book.name Sample.genesis
        ∧ bookId r' = bookId SampleDb.genesis_1_1
        ∧ chapter r' = chapter SampleDb.genesis_1_1
        ∧ (∀ z, verse SampleDb.genesis_1_1 = Some (JS.Num z) → z ≠ 0 →
           verse r' = verse SampleDb.genesis_1_1)
        ∧ (verse SampleDb.genesis_1_1 = None
           ∨ verse SampleDb.genesis_1_1 = Some (JS.Num 0) →
           verse r' = Some (JS.Num 1)).
Proof.
  apply (C4_roundtrip Sample.bibleData SampleDb.genesis_1_1 Sample.genesis 1).
  - vm_compute. reflexivity.
  - reflexivity.
  - reflexivity.
  - lia.
  - intros z [= <-]. lia.
Defined.

(** ** Storage access *)

Section EnglishText.
Import Database.

Lemma initDatabase_ready (w : world) :
  is_Some (db w) ∨ is_Some (file w) →
  ∃ w', initDatabase w = (Return (), w') ∧ issued w' = issued w
        ∧ is_Some (db w').
Proof.
  unfold initDatabase. intros [[rows Hdb]|[rows Hfile]].
  - rewrite Hdb. exists w. by rewrite Hdb.
  - destruct (db w) eqn:Hdb; [exists w; by rewrite Hdb|].
    rewrite Hfile. by eexists.
Qed.




(** The statement with [AND exclude = 0] is the plain statement run on
    the rows that are not excluded: filter first, then order and join. *)
Lemma sql_verse_tokens_included_filter (rows : list Row.t)
    (bookId : string) (chapter verse : JS.number) :
  sql_verse_tokens_included rows bookId chapter verse
  = sql_verse_tokens (filter (λ r, (Row.exclude r =? 0) = true) rows)
      bookId chapter verse.
Proof.
  unfold sql_verse_tokens_included, sql_verse_tokens. do 2 f_equal.
  rewrite list_filter_filter. apply list_filter_iff. intros r.
  rewrite andb_true_iff. tauto.
Qed.

Lemma insert_sorted_elem_of {A} (le : A → A → bool) (x y : A) (l : list A) :
  y ∈ insert_sorted le x l ↔ y = x ∨ y ∈ l.
Proof.
  induction l as [|z l IH]; simpl.
  - rewrite list_elem_of_singleton, elem_of_nil. tauto.
  - destruct (le x z); rewrite !elem_of_cons; [tauto|]. rewrite IH. tauto.
Qed.

Lemma order_by_elem_of {A} (le : A → A → bool) (y : A) (l : list A) :
  y ∈ order_by le l ↔ y ∈ l.
Proof.
  induction l as [|x l IH]; simpl; [done|].
  rewrite insert_sorted_elem_of, IH, elem_of_cons. tauto.
Qed.

(** No token of an excluded row reaches the assembler on that path. *)
Lemma sql_verse_tokens_included_sound (rows : list Row.t)
    (bookId : string) (chapter verse : JS.number) (tok : token) :
  tok ∈ sql_verse_tokens_included rows bookId chapter verse →
  ∃ r, r ∈ rows ∧ Row.exclude r = 0 ∧ tok = select_token r.
Proof.
  unfold sql_verse_tokens_included. intros (r & -> & Hr)%list_elem_of_fmap.
  apply order_by_elem_of, list_elem_of_filter in Hr as [Hc Hr].
  exists r. repeat split; [done|]. apply andb_prop in Hc as [_ Hc]. lia.
Qed.

Lemma initDatabase_open (w : world) (rows : list Row.t) :
  db w = Some rows → initDatabase w = (Return (), w).
Proof. unfold initDatabase. by intros ->. Qed.

(** A loop of per-verse statements on an open connection: every verse
    gets the statement's result on the same rows. *)
Lemma mapM_run {A B C} (f : A → M C) (st : A → statement)
    (q : A → list Row.t → B) (g : A → B → C) (l : list A) (w : world)
    (rows : list Row.t) :
  (∀ a w, f a w = (tokens ← run (st a) (q a); mret (g a tokens)) w) →
  db w = Some rows →
  mapM f l w
  = (Return ((λ a, g a (q a rows)) <$> l),
     World (Some rows) (file w) (reverse (st <$> l) ++ issued w)).
Proof.
  intros Hf. revert w. induction l as [|a l IH]; intros w Hdb.
  - simpl. unfold mret, M_ret. destruct w; simpl in *. by rewrite Hdb.
  - simpl. unfold mbind at 1, M_bind at 1. rewrite Hf.
    unfold mbind at 1, M_bind at 1, run at 1. rewrite Hdb.
    unfold mret at 1, M_ret at 1.
    unfold mbind at 1, M_bind at 1.
    rewrite IH by done. simpl.
    unfold mret, M_ret. rewrite reverse_cons, <- app_assoc. done.
Qed.

(** [getPassage] on an open connection: one entry per distinct verse of
    the range, whose text is the join of the verse's tokens that are not
    excluded, in position order. *)
Lemma getPassage_open (reference : BibleReference) (w : world)
    (rows : list Row.t) :
  db w = Some rows →
  let startVerse := verse_or_1 (verse reference) in
  let endVerse :=
    match endVerse reference with
    | Some e => if JS.truthy_number e then e else startVerse
    | None => startVerse
    end in
  fst (getPassage reference w)
  = Return
      ((λ v, PassageVerse
               (join_tokens
                  (sql_verse_tokens (included rows) (bookId reference)
                     (chapter reference) (JS.Num v)))
               v
               (book reference +:+ " " +:+ JS.toString (chapter reference)
                  +:+ ":" +:+ JS.toString (JS.Num v)))
         <$> sql_distinct_verses rows (bookId reference) (chapter reference)
               startVerse endVerse).
Proof.
  intros Hdb startVerse endVerse. unfold getPassage.
  unfold mbind at 1, M_bind at 1. rewrite (initDatabase_open w rows Hdb).
  unfold mbind at 1, M_bind at 1. unfold run at 1. rewrite Hdb.
  rewrite (mapM_run _
             (λ v, VerseTokensIncluded (bookId reference) (chapter reference)
                     (JS.Num v))
             (λ v rows, sql_verse_tokens_included rows (bookId reference)
                          (chapter reference) (JS.Num v))
             (λ v tokens,
                PassageVerse (assembleTextFromTokens tokens) v
                  (book reference +:+ " " +:+ JS.toString (chapter reference)
                     +:+ ":" +:+ JS.toString (JS.Num v)))
             _ _ rows) by done.
  simpl. f_equal. apply list_fmap_ext. intros _ v _.
  by rewrite assemble_join, sql_verse_tokens_included_filter.
Qed.


(** [getEnglishText] on an open connection, for a reference that passes
    the guard: the join of all the verse's tokens, excluded or not. *)
Lemma getEnglishText_open (reference : BibleReference) (w : world)
    (rows : list Row.t) (v : JS.number) :
  db w = Some rows →
  JS.truthy_string (bookId reference) = true →
  JS.truthy_number (chapter reference) = true →
  verse reference = Some v → JS.truthy_number v = true →
  fst (getEnglishText reference w)
  = Return
      (match sql_verse_tokens rows (bookId reference) (chapter reference) v
       with
       | [] => None
       | tokens => Some (join_tokens tokens)
       end).
Proof.
  intros Hdb Hb Hc Hv Hvt. unfold getEnglishText.
  unfold mbind at 1, M_bind at 1. rewrite (initDatabase_open w rows Hdb).
  rewrite Hb, Hc, Hv. simpl. rewrite Hvt. simpl.
  unfold mbind, M_bind, run. rewrite Hdb.
  destruct (sql_verse_tokens rows _ _ v) as [|tok tokens] eqn:Ht; [done|].
  simpl. by rewrite assemble_join.
Qed.

(** C1 at the failing input: Genesis 1:1 is stored with the excluded
    token "-" at position 4. [getEnglishText] returns it in the verse
    text; [getPassage] and [searchText] leave it out. *)
Theorem C1_getEnglishText_keeps_excluded :
  fst (getEnglishText SampleDb.genesis_1_1 SampleDb.closed)
  = Return (Some "In the beginning - God created the heavens and the earth.")
  ∧ fst (getPassage SampleDb.genesis_1_1 SampleDb.closed)
    = Return [PassageVerse
                "In the beginning God created the heavens and the earth."
                1 "Genesis 1:1"]
  ∧ fst (searchText "created" None None None SampleDb.closed)
    = Return [SearchHit
                "In the beginning God created the heavens and the earth."
                "Genesis 1:1" "Genesis" 1 1].
Proof. repeat split; vm_compute; reflexivity. Qed.

End EnglishText.

(** ** JavaScript maps *)

Section JsMapFacts.
Context {V : Type}.
Implicit Types (m : JsMap.t V) (k : string) (v : V).

Lemma JsMap_get_set m k k' v :
  JsMap.get k' (JsMap.set k v m)
  = if String.eqb k k' then Some v else JsMap.get k' m.
Proof.
  induction m as [|[k0 v0] m IH]; simpl.
  - by destruct (String.eqb_spec k k').
  - destruct (String.eqb_spec k0 k) as [->|Hk0]; simpl.
    + by destruct (String.eqb_spec k k').
    + rewrite IH. destruct (String.eqb_spec k0 k') as [->|?]; [|done].
      by destruct (String.eqb_spec k k'); [congruence|].
Qed.

(** A key, once set, stays. *)
Lemma JsMap_get_set_is_Some m k k' v :
  is_Some (JsMap.get k' m) → is_Some (JsMap.get k' (JsMap.set k v m)).
Proof. rewrite JsMap_get_set. by destruct (String.eqb k k'). Qed.

Lemma JsMap_get_elem_of m k v : JsMap.get k m = Some v → (k, v) ∈ m.
Proof.
  induction m as [|[k0 v0] m IH]; simpl; [done|].
  destruct (String.eqb_spec k0 k) as [->|?].
  - intros [= ->]. left.
  - intros H. right. by apply IH.
Qed.

(** Values are only ever introduced by [set]. *)
Lemma JsMap_set_Forall (P : V → Prop) m k v :
  P v → Forall (λ kv, P kv.2) m → Forall (λ kv, P kv.2) (JsMap.set k v m).
Proof.
  intros Hv. induction 1 as [|[k0 v0] m H0 Hm IH]; simpl.
  - by repeat constructor.
  - destruct (String.eqb k0 k); constructor; done.
Qed.

End JsMapFacts.

(** ** The name table and the pattern list *)

Section Tables.
Variable bibleData : list Book.entry.

Lemma patterns_foldl (l : list Book.entry) (t : tables) :
  patterns (foldl init_book t l)
  = patterns t ++ (l ≫= λ b, JS.escapeRegex <$> book_aliases b).
Proof.
  revert t. induction l as [|b l IH]; intros t; simpl.
  - by rewrite app_nil_r.
  - rewrite IH. simpl. by rewrite <- !app_assoc.
Qed.

Lemma patterns_init :
  patterns (init_tables bibleData)
  = bibleData ≫= λ b, JS.escapeRegex <$> book_aliases b.
Proof. unfold init_tables. by rewrite patterns_foldl. Qed.

Lemma insert_by_length_Permutation (x : string) (l : list string) :
  insert_by_length x l ≡ₚ x :: l.
Proof.
  induction l as [|y l IH]; simpl; [done|].
  destruct (_ <=? _)%nat; [done|]. rewrite IH. apply Permutation_swap.
Qed.

Lemma sort_by_length_Permutation (l : list string) : sort_by_length l ≡ₚ l.
Proof.
  induction l as [|x l IH]; simpl; [done|].
  by rewrite insert_by_length_Permutation, IH.
Qed.

Lemma insert_by_length_sorted (x : string) (l : list string) :
  StronglySorted longer_first l →
  StronglySorted longer_first (insert_by_length x l).
Proof.
  induction l as [|y l IH]; simpl; intros Hs.
  - repeat constructor.
  - apply StronglySorted_inv in Hs as [Hl Hy].
    destruct (Nat.leb_spec (String.length y) (String.length x)) as [Hle|Hgt].
    + constructor; [by constructor|]. constructor; [done|].
      eapply Forall_impl; [exact Hy|]. unfold longer_first. intros; lia.
    + constructor; [by apply IH|].
      rewrite insert_by_length_Permutation. constructor; [|done].
      unfold longer_first. lia.
Qed.

Lemma sort_by_length_sorted (l : list string) :
  StronglySorted longer_first (sort_by_length l).
Proof.
  induction l as [|x l IH]; simpl; [constructor|].
  by apply insert_by_length_sorted.
Qed.

(** The alternatives are exactly the escaped names and abbreviations. *)
Lemma elem_of_bookPatterns (p : string) :
  p ∈ bookPatterns bibleData
  ↔ ∃ b a, b ∈ bibleData ∧ a ∈ book_aliases b ∧ p = JS.escapeRegex a.
Proof.
  unfold bookPatterns. rewrite sort_by_length_Permutation, patterns_init.
  rewrite list_elem_of_bind. split.
  - intros (b & (a & -> & Ha)%list_elem_of_fmap & Hb). by exists b, a.
  - intros (b & a & Hb & Ha & ->). exists b. split; [|done].
    apply list_elem_of_fmap. by exists a.
Qed.

(** Every canonical name has its escaped alternative. *)
Lemma bookPatterns_name (b : Book.entry) :
  b ∈ bibleData → JS.escapeRegex (Book.name b) ∈ bookPatterns bibleData.
Proof.
  intros Hb. apply elem_of_bookPatterns. exists b, (Book.name b).
  repeat split; [done|left].
Qed.

(** Every registered abbreviation has its escaped alternative. *)
Lemma bookPatterns_abbreviation (b : Book.entry) (abbr : string) :
  b ∈ bibleData → abbr ∈ Book.abbreviations b →
  JS.escapeRegex abbr ∈ bookPatterns bibleData.
Proof.
  intros Hb Ha. apply elem_of_bookPatterns. exists b, abbr.
  repeat split; [done|by right].
Qed.

(** The alternatives are in decreasing order of their escaped length. *)
Lemma bookPatterns_sorted :
  StronglySorted longer_first (bookPatterns bibleData).
Proof. apply sort_by_length_sorted. Qed.

Lemma nameMap_foldl (l : list Book.entry) (t : tables) :
  nameMap (foldl init_book t l) = foldl name_step (nameMap t) l.
Proof. revert t. induction l as [|b l IH]; intros t; [done|]. apply IH. Qed.

Lemma add_abbreviations_keep (b : Book.entry) (l : list string)
    (m : JsMap.t Book.entry) (k : string) :
  is_Some (JsMap.get k m) →
  is_Some (JsMap.get k (foldl (add_abbreviation b) m l)).
Proof.
  revert m. induction l as [|a l IH]; intros m Hk; [done|].
  simpl. apply IH. unfold add_abbreviation.
  by do 2 apply JsMap_get_set_is_Some.
Qed.

Lemma add_abbreviations_key (b : Book.entry) (l : list string)
    (m : JsMap.t Book.entry) (a : string) :
  a ∈ l →
  is_Some (JsMap.get (JS.toLowerCase a) (foldl (add_abbreviation b) m l))
  ∧ is_Some (JsMap.get (JS.strip_dots (JS.toLowerCase a))
               (foldl (add_abbreviation b) m l)).
Proof.
  revert m. induction l as [|a' l IH]; intros m; [by intros ?%elem_of_nil|].
  intros [->|Hin]%elem_of_cons; [|by apply IH].
  simpl. split; apply add_abbreviations_keep; unfold add_abbreviation.
  - apply JsMap_get_set_is_Some. rewrite JsMap_get_set.
    by rewrite String.eqb_refl.
  - rewrite JsMap_get_set. by rewrite String.eqb_refl.
Qed.

Lemma name_step_keep (m : JsMap.t Book.entry) (b : Book.entry) (k : string) :
  is_Some (JsMap.get k m) → is_Some (JsMap.get k (name_step m b)).
Proof.
  intros Hk. apply add_abbreviations_keep. by apply JsMap_get_set_is_Some.
Qed.

Lemma name_step_key (m : JsMap.t Book.entry) (b : Book.entry) (a : string) :
  a ∈ book_aliases b →
  is_Some (JsMap.get (JS.toLowerCase a) (name_step m b)).
Proof.
  unfold book_aliases, name_step. intros [->|Hin]%elem_of_cons.
  - apply add_abbreviations_keep. rewrite JsMap_get_set.
    by rewrite String.eqb_refl.
  - by apply add_abbreviations_key.
Qed.

Lemma name_steps_keep (l : list Book.entry) (m : JsMap.t Book.entry)
    (k : string) :
  is_Some (JsMap.get k m) → is_Some (JsMap.get k (foldl name_step m l)).
Proof.
  revert m. induction l as [|b l IH]; intros m Hk; [done|].
  simpl. by apply IH, name_step_keep.
Qed.

Lemma name_steps_key (l : list Book.entry) (m : JsMap.t Book.entry)
    (b : Book.entry) (a : string) :
  b ∈ l → a ∈ book_aliases b →
  is_Some (JsMap.get (JS.toLowerCase a) (foldl name_step m l)).
Proof.
  revert m. induction l as [|b' l IH]; intros m; [by intros ?%elem_of_nil|].
  intros [->|Hin]%elem_of_cons Ha; simpl.
  - by apply name_steps_keep, name_step_key.
  - by apply IH.
Qed.

(** Every lower-cased name and abbreviation is a key of [bookNameMap]. *)
Lemma bookNameMap_alias_key (b : Book.entry) (a : string) :
  b ∈ bibleData → a ∈ book_aliases b →
  is_Some (JsMap.get (JS.toLowerCase a) (bookNameMap bibleData)).
Proof.
  intros Hb Ha. unfold bookNameMap, init_tables. rewrite nameMap_foldl.
  by eapply name_steps_key.
Qed.

(** So is every abbreviation with its dots removed. *)
Lemma bookNameMap_stripped_key (b : Book.entry) (a : string) :
  b ∈ bibleData → a ∈ Book.abbreviations b →
  is_Some (JsMap.get (JS.strip_dots (JS.toLowerCase a))
             (bookNameMap bibleData)).
Proof.
  intros Hb Ha. unfold bookNameMap, init_tables. rewrite nameMap_foldl.
  generalize (nameMap empty_tables).
  induction bibleData as [|b' l IH]; intros m; [by apply elem_of_nil in Hb|].
  apply elem_of_cons in Hb as [->|Hb]; simpl.
  - apply name_steps_keep. by apply add_abbreviations_key.
  - by apply IH.
Qed.

Lemma add_abbreviations_Forall (P : Book.entry → Prop) (b : Book.entry)
    (l : list string) (m : JsMap.t Book.entry) :
  P b → Forall (λ kv, P kv.2) m →
  Forall (λ kv, P kv.2) (foldl (add_abbreviation b) m l).
Proof.
  intros Hb. revert m. induction l as [|a l IH]; intros m Hm; [done|].
  simpl. apply IH. unfold add_abbreviation.
  by repeat (apply JsMap_set_Forall; [done|]).
Qed.

Lemma name_steps_Forall (P : Book.entry → Prop) (l : list Book.entry)
    (m : JsMap.t Book.entry) :
  Forall P l → Forall (λ kv, P kv.2) m →
  Forall (λ kv, P kv.2) (foldl name_step m l).
Proof.
  intros Hl. revert m. induction Hl as [|b l Hb Hl IH]; intros m Hm; [done|].
  simpl. apply IH. apply add_abbreviations_Forall; [done|].
  by apply JsMap_set_Forall.
Qed.

(** The values of [bookNameMap] are rows of the catalog. *)
Lemma bookNameMap_values (k : string) (b : Book.entry) :
  (k, b) ∈ bookNameMap bibleData → b ∈ bibleData.
Proof.
  unfold bookNameMap, init_tables. rewrite nameMap_foldl. intros Hin.
  assert (Forall (λ kv : string * Book.entry, kv.2 ∈ bibleData)
            (foldl name_step (nameMap empty_tables) bibleData)) as HF.
  { apply (name_steps_Forall (λ b, b ∈ bibleData));
      [by apply Forall_forall|constructor]. }
  by apply (proj1 (Forall_forall _ _) HF (k, b)).
Qed.

Lemma JsMap_set_owned (m : JsMap.t Book.entry) (k : string) (b : Book.entry) :
  owned bibleData (k, b) → Forall (owned bibleData) m →
  Forall (owned bibleData) (JsMap.set k b m).
Proof.
  intros Hkb. induction 1 as [|[k0 v0] m H0 Hm IH]; simpl.
  - constructor; [done|constructor].
  - destruct (String.eqb_spec k0 k) as [->|?]; constructor; done.
Qed.

Lemma add_abbreviations_owned (b : Book.entry) (l : list string)
    (m : JsMap.t Book.entry) :
  b ∈ bibleData → Forall (λ a, a ∈ Book.abbreviations b) l →
  Forall (owned bibleData) m →
  Forall (owned bibleData) (foldl (add_abbreviation b) m l).
Proof.
  intros Hb Hl. revert m. induction Hl as [|a l Ha Hl IH]; intros m Hm; [done|].
  simpl. apply IH. unfold add_abbreviation.
  apply JsMap_set_owned; [|apply JsMap_set_owned; [|done]].
  - split; [done|]. right. apply list_elem_of_bind. exists a.
    split; [|done]. right. left.
  - split; [done|]. right. apply list_elem_of_bind. exists a.
    split; [|done]. left.
Qed.

Lemma name_steps_owned (l : list Book.entry) (m : JsMap.t Book.entry) :
  Forall (λ b, b ∈ bibleData) l → Forall (owned bibleData) m →
  Forall (owned bibleData) (foldl name_step m l).
Proof.
  intros Hl. revert m. induction Hl as [|b l Hb Hl IH]; intros m Hm; [done|].
  simpl. apply IH. unfold name_step.
  apply add_abbreviations_owned; [done|by apply Forall_forall|].
  apply JsMap_set_owned; [|done]. split; [done|left].
Qed.

(** Every entry of [bookNameMap] is a row under one of its own keys. *)
Lemma bookNameMap_owned : Forall (owned bibleData) (bookNameMap bibleData).
Proof.
  unfold bookNameMap, init_tables. rewrite nameMap_foldl.
  apply name_steps_owned; [by apply Forall_forall|constructor].
Qed.

(** A key that only one row of the catalog registers resolves to it. *)
Lemma bookNameMap_get_unique (k : string) (b : Book.entry) :
  b ∈ bibleData → k ∈ alias_keys b →
  (∀ b', b' ∈ bibleData → k ∈ alias_keys b' → b' = b) →
  JsMap.get k (bookNameMap bibleData) = Some b.
Proof.
  intros Hb Hk Huniq.
  assert (is_Some (JsMap.get k (bookNameMap bibleData))) as [v Hv].
  { apply elem_of_cons in Hk as [->|(a & Ha & Hin)%list_elem_of_bind].
    - apply (bookNameMap_alias_key b (Book.name b)); [done|left].
    - apply elem_of_cons in Ha as [->|Ha].
      + apply (bookNameMap_alias_key b a); [done|by right].
      + apply list_elem_of_singleton in Ha as ->.
        by apply (bookNameMap_stripped_key b a). }
  rewrite Hv. f_equal. apply Huniq.
  - by apply JsMap_get_elem_of, bookNameMap_values in Hv.
  - apply JsMap_get_elem_of in Hv.
    by destruct (proj1 (Forall_forall _ _) bookNameMap_owned _ Hv).
Qed.

(** A book found in the name table is a row of the catalog, and its name
    is an alternative. *)
Lemma named_book_alias (k : string) (b : Book.entry) :
  JsMap.get k (bookNameMap bibleData) = Some b →
  b ∈ bibleData ∧ Book.name b ∈ book_aliases b.
Proof.
  intros H%JsMap_get_elem_of%bookNameMap_values. split; [done|left].
Qed.

End Tables.

(** C7 at the failing input: the sample row of Psalms registers the
    abbreviation "Psa.". The pattern list has its escaped form and no
    alternative for "Psa", which is a key of the name table all the same;
    so "Psa 3:1" does not parse while "Psa. 3:1" does. The list is sorted
    on the escaped patterns: the four-character "Psa." comes before the
    five-character "1 Cor". *)
Theorem C7_no_stripped_alternative :
  "Psa." ∈ Book.abbreviations Sample.psalms
  ∧ bookPatterns Sample.bibleData
    = ["Song of Solomon"; "1 Corinthians"; "Genesis"; "1 Kings"; "Psalms";
       "Romans"; "1 John"; "3 John"; "1 Kgs"; "Psalm"; "Psa\."; "1 Cor";
       "James"; "1 Joh"; "1Kgs"; "1 Ki"; "Song"; "John"; "1Cor"; "1 Jn";
       "3 Jn"; "Gen"; "SOS"; "Jhn"; "Joh"; "Rom"; "Jas"; "1Jn"; "3Jn"; "Ge";
       "Gn"; "Ps"; "Jn"; "Ro"; "Jm"]
  ∧ (JS.escapeRegex (JS.strip_dots "Psa.") ∉ bookPatterns Sample.bibleData)
  ∧ JsMap.get (JS.strip_dots (JS.toLowerCase "Psa."))
      (bookNameMap Sample.bibleData) = Some Sample.psalms
  ∧ parseReference Sample.bibleData "Psa 3:1" = None
  ∧ parseReference Sample.bibleData "Psa. 3:1"
    = Some (mkRef "Psalms" "19" (JS.Num 3) (Some (JS.Num 1)) None "OT" "Ps")
  ∧ (String.length (unescape "Psa\.") < String.length (unescape "1 Cor"))%nat.
Proof.
  split; [right; right; left|].
  split; [vm_compute; reflexivity|].
  split.
  { intros H%list_elem_of_In. vm_compute in H.
    repeat (destruct H as [H|H]; [discriminate H|]). exact H. }
  repeat split; vm_compute; (reflexivity || lia).
Qed.

(** ** The matcher on literal alternatives *)

Lemma backslash_special (c : ascii) :
  JS.is_regex_special c = false → c ≠ "\"%char.
Proof. intros H ->. discriminate. Qed.

Lemma unescape_cons_plain (c : ascii) (s : string) :
  c ≠ "\"%char → unescape (String c s) = String c (unescape s).
Proof.
  intros Hc. destruct c as [[] [] [] [] [] [] [] []]; try reflexivity.
  all: try (destruct s; reflexivity). done.
Qed.

(** Escaping and reading back gives the alias itself. *)
Lemma unescape_escapeRegex (a : string) : unescape (JS.escapeRegex a) = a.
Proof.
  induction a as [|c a IH]; [done|]. simpl.
  destruct (JS.is_regex_special c) eqn:Hc.
  - simpl. by rewrite IH.
  - rewrite unescape_cons_plain by (by apply backslash_special).
    by rewrite IH.
Qed.

Section Matcher.
Import Regex.
Context {R : Type}.
Implicit Types (s : string) (c : captures) (k : string → captures → option R).

Lemma rmatch_literal_aux (src : string) :
  (∀ s c k, rmatch (literal src) s c k = lit_try s c k src)
  ∧ (∀ a s c k,
       rmatch (literal (String a src)) s c k = lit_try s c k (String a src)).
Proof.
  induction src as [|b src [IH1 IH2]].
  - split; [done|]. intros a s c k. unfold lit_try.
    assert (literal (String a EmptyString) = Seq (Chr a) Eps) as ->
      by (by destruct a as [[] [] [] [] [] [] [] []]).
    assert (unescape (String a EmptyString) = String a EmptyString) as ->
      by (by destruct a as [[] [] [] [] [] [] [] []]).
    simpl. destruct s as [|x s]; simpl; [done|].
    by destruct (Ascii.eqb _ _).
  - split; [apply IH2|]. intros a s c k. unfold lit_try.
    destruct (ascii_dec a "\"%char) as [->|Ha].
    + simpl. destruct s as [|x s]; simpl; [done|].
      destruct (Ascii.eqb _ _); [|done]. apply IH1.
    + rewrite unescape_cons_plain by done.
      assert (literal (String a (String b src))
              = Seq (Chr a) (literal (String b src))) as ->.
      { by destruct a as [[] [] [] [] [] [] [] []]. }
      simpl. destruct s as [|x s]; simpl; [done|].
      destruct (Ascii.eqb _ _); [|done]. apply IH2.
Qed.

(** A literal alternative strips its characters, ignoring case. *)
Lemma rmatch_literal (src : string) s c k :
  rmatch (literal src) s c k = lit_try s c k src.
Proof. apply rmatch_literal_aux. Qed.

(** An alternation of literals tries them in order. *)
Lemma rmatch_alternatives (ps : list string) s c k :
  ps ≠ [] →
  rmatch (alternatives ps) s c k
  = foldr (λ p acc, or_else (lit_try s c k p) acc) None ps.
Proof.
  induction ps as [|p [|p' ps] IH]; intros Hne; [done| |].
  - simpl alternatives. rewrite rmatch_literal. simpl.
    by destruct (lit_try s c k p).
  - change (alternatives (p :: p' :: ps))
      with (Alt (literal p) (alternatives (p' :: ps))).
    change (rmatch (Alt ?r1 ?r2) s c k)
      with (or_else (rmatch r1 s c k) (rmatch r2 s c k)).
    rewrite rmatch_literal, IH by done. done.
Qed.

Lemma alternatives_none (ps : list string) s c k :
  k s c = None →
  (∀ p, p ∈ ps → lit_try s c k p = None) →
  rmatch (alternatives ps) s c k = None.
Proof.
  intros Hk Hps. destruct ps as [|p ps]; [done|].
  rewrite rmatch_alternatives by done.
  induction (p :: ps) as [|q qs IH]; [done|]. simpl.
  rewrite (Hps q) by left. simpl. apply IH. intros; apply Hps. by right.
Qed.

(** When every alternative either fails or gives [r], and one gives [r],
    the order of the alternatives does not matter. *)
Lemma alternatives_unique (ps : list string) s c k (r : R) :
  (∃ p, p ∈ ps ∧ lit_try s c k p = Some r) →
  (∀ p, p ∈ ps → lit_try s c k p = None ∨ lit_try s c k p = Some r) →
  rmatch (alternatives ps) s c k = Some r.
Proof.
  intros (p0 & Hp0 & Hr) Hps.
  rewrite rmatch_alternatives by (by destruct ps; [apply elem_of_nil in Hp0|]).
  induction ps as [|q qs IH]; [by apply elem_of_nil in Hp0|]. simpl.
  destruct (Hps q) as [Hq|Hq]; [by left| |by rewrite Hq].
  rewrite Hq. simpl. apply elem_of_cons in Hp0 as [->|Hp0]; [congruence|].
  apply IH; [done|]. intros; apply Hps. by right.
Qed.

End Matcher.

Lemma strip_ci_suffix (p s s' : string) :
  strip_ci p s = Some s' → s' ∈ suffixes s.
Proof.
  revert s. induction p as [|a p IH]; intros s; simpl.
  - intros [= ->]. destruct s'; left.
  - destruct s as [|b s]; [done|]. destruct (Ascii.eqb _ _); [|done].
    intros H. right. by apply IH.
Qed.

Lemma lower_upper_char (a : ascii) :
  JS.lower_char (JS.upper_char a) = JS.lower_char a.
Proof. by destruct a as [[] [] [] [] [] [] [] []]. Qed.

Lemma strip_ci_length (p s s' : string) :
  strip_ci p s = Some s' → (String.length s' ≤ String.length s)%nat.
Proof.
  revert s. induction p as [|a p IH]; intros s; simpl.
  - by intros [= ->].
  - destruct s as [|b s]; [done|]. destruct (Ascii.eqb _ _); [|done].
    intros H%IH. simpl. lia.
Qed.

(** What was stripped is the alias, up to case. *)
Lemma strip_ci_lower (p s s' : string) :
  strip_ci p s = Some s' →
  JS.toLowerCase (Regex.matched s s') = JS.toLowerCase p.
Proof.
  revert s. induction p as [|a p IH]; intros s; simpl.
  - intros [= ->]. unfold Regex.matched. rewrite Nat.sub_diag. by destruct s'.
  - destruct s as [|b s]; [done|].
    destruct (Ascii.eqb_spec (JS.upper_char a) (JS.upper_char b)) as [Hab|];
      [|done].
    intros H. specialize (IH _ H). unfold Regex.matched in *.
    pose proof (strip_ci_length _ _ _ H) as Hle.
    replace (String.length (String b s) - String.length s')%nat
      with (S (String.length s - String.length s')) by (simpl; lia).
    simpl. rewrite IH. f_equal.
    by rewrite <- (lower_upper_char b), <- Hab, lower_upper_char.
Qed.

(** ** The book group of [verseRegex] *)

(** Case analysis on the suffixes of a given string. *)
Ltac each_suffix H :=
  simpl in H;
  repeat (apply elem_of_cons in H as [->|H]);
  [..|by apply elem_of_nil in H].

Section Citation.
Import Regex.
Variable bibleData : list Book.entry.

Lemma rmatch_book_group {R} (s : string) (c : captures)
    (k : string → captures → option R) :
  rmatch (book_group bibleData) s c k
  = rmatch (alternatives (bookPatterns bibleData)) s c
      (λ s' c',
         rmatch chapter_verse s' (<[2%nat := Some (matched s s')]> c') k).
Proof. reflexivity. Qed.

Lemma lit_try_alias {R} (s : string) (c : captures)
    (k : string → captures → option R) (a : string) :
  lit_try s c
    (λ s' c',
       rmatch chapter_verse s' (<[2%nat := Some (matched s s')]> c') k)
    (JS.escapeRegex a)
  = match strip_ci a s with
    | Some s' => after_book s c k s'
    | None => None
    end.
Proof. unfold lit_try. by rewrite unescape_escapeRegex. Qed.

(** If the numbers can follow one suffix only, and some alias strips the
    input to that suffix, the group matches with that result, whatever
    the other aliases are. *)
Lemma book_group_unique {R} (s s1 : string) (c : captures)
    (k : string → captures → option R) (r : R) :
  (∃ b a, b ∈ bibleData ∧ a ∈ book_aliases b ∧ strip_ci a s = Some s1) →
  after_book s c k s1 = Some r →
  (∀ s', s' ∈ suffixes s → s' = s1 ∨ after_book s c k s' = None) →
  rmatch (book_group bibleData) s c k = Some r.
Proof.
  intros (b & a & Hb & Ha & Hs1) Hr Hothers. rewrite rmatch_book_group.
  apply alternatives_unique.
  - exists (JS.escapeRegex a). split.
    + apply elem_of_bookPatterns. by exists b, a.
    + by rewrite lit_try_alias, Hs1.
  - intros p (b' & a' & _ & _ & ->)%elem_of_bookPatterns.
    rewrite lit_try_alias.
    destruct (strip_ci a' s) as [s'|] eqn:Hs'; [|by left].
    destruct (Hothers s') as [->|Hnone];
      [by eapply strip_ci_suffix|by right|by left].
Qed.

(** If, for every suffix, the numbers cannot follow or no alias strips
    the input to it, the group does not match. *)
Lemma book_group_none {R} (s : string) (c : captures)
    (k : string → captures → option R) :
  after_book s c k s = None →
  (∀ s', s' ∈ suffixes s →
     after_book s c k s' = None
     ∨ ∀ b a, b ∈ bibleData → a ∈ book_aliases b → strip_ci a s ≠ Some s') →
  rmatch (book_group bibleData) s c k = None.
Proof.
  intros Hs Hall. rewrite rmatch_book_group. apply alternatives_none; [done|].
  intros p (b & a & Hb & Ha & ->)%elem_of_bookPatterns.
  rewrite lit_try_alias. destruct (strip_ci a s) as [s'|] eqn:Hs'; [|done].
  destruct (Hall s') as [Hnone|Hno]; [by eapply strip_ci_suffix|done|].
  by destruct (Hno b a).
Qed.

(** A text that is not a key of [bookNameMap] is not matched by any
    alternative. *)
Lemma no_alias_strips (s s' : string) :
  JsMap.get (JS.toLowerCase (matched s s')) (bookNameMap bibleData) = None →
  ∀ b a, b ∈ bibleData → a ∈ book_aliases b → strip_ci a s ≠ Some s'.
Proof.
  intros Hnone b a Hb Ha Hs.
  destruct (bookNameMap_alias_key bibleData b a Hb Ha) as [v Hv].
  rewrite <- (strip_ci_lower _ _ _ Hs) in Hv. congruence.
Qed.

Lemma exec_John_1_1 (bJ : Book.entry) :
  JsMap.get "john" (bookNameMap bibleData) = Some bJ →
  Book.name bJ = "John" →
  exec (verseRegex bibleData) 5 "John 1:1"
  = Some [Some "John 1:1"; None; Some "John"; Some "1"; Some "1"; None].
Proof.
  intros Hget Hname. destruct (named_book_alias _ _ _ Hget) as [Hb Ha].
  change (exec ?r 5 "John 1:1")
    with (or_else
            (rmatch (book_group bibleData) "John 1:1" (replicate 6 None)
               (λ s' c, Some (<[O := Some (matched "John 1:1" s')]> c)))
            (exec r 5 "ohn 1:1")).
  erewrite (book_group_unique _ " 1:1"); [reflexivity| | |].
  - exists bJ, "John". rewrite <- Hname at 1. by repeat split.
  - reflexivity.
  - intros s' Hs'. each_suffix Hs'; (by left) || (right; reflexivity).
Qed.

(** The digit prefix is taken first; the alternatives then see "John". *)
Lemma exec_1_John_1_1 (bJ : Book.entry) :
  JsMap.get "john" (bookNameMap bibleData) = Some bJ →
  Book.name bJ = "John" →
  exec (verseRegex bibleData) 5 "1 John 1:1"
  = Some [Some "1 John 1:1"; Some "1 "; Some "John"; Some "1"; Some "1";
          None].
Proof.
  intros Hget Hname. destruct (named_book_alias _ _ _ Hget) as [Hb Ha].
  change (exec ?r 5 "1 John 1:1")
    with (or_else
            (or_else
               (rmatch (book_group bibleData) "John 1:1"
                  (<[1%nat := Some "1 "]> (replicate 6 None))
                  (λ s' c, Some (<[O := Some (matched "1 John 1:1" s')]> c)))
               (rmatch (book_group bibleData) "1 John 1:1" (replicate 6 None)
                  (λ s' c, Some (<[O := Some (matched "1 John 1:1" s')]> c))))
            (exec r 5 " John 1:1")).
  erewrite (book_group_unique _ " 1:1"); [reflexivity| | |].
  - exists bJ, "John". rewrite <- Hname at 1. by repeat split.
  - reflexivity.
  - intros s' Hs'. each_suffix Hs'; (by left) || (right; reflexivity).
Qed.

Lemma exec_John_3_16 (bJ : Book.entry) :
  JsMap.get "john" (bookNameMap bibleData) = Some bJ →
  Book.name bJ = "John" →
  exec (verseRegex bibleData) 5 "John 3:16"
  = Some [Some "John 3:16"; None; Some "John"; Some "3"; Some "16"; None].
Proof.
  intros Hget Hname. destruct (named_book_alias _ _ _ Hget) as [Hb Ha].
  change (exec ?r 5 "John 3:16")
    with (or_else
            (rmatch (book_group bibleData) "John 3:16" (replicate 6 None)
               (λ s' c, Some (<[O := Some (matched "John 3:16" s')]> c)))
            (exec r 5 "ohn 3:16")).
  erewrite (book_group_unique _ " 3:16"); [reflexivity| | |].
  - exists bJ, "John". rewrite <- Hname at 1. by repeat split.
  - reflexivity.
  - intros s' Hs'. each_suffix Hs'; (by left) || (right; reflexivity).
Qed.

(** No match starts at "xx John...", "x John..." or " John..."; the
    match found starts at "John". *)
Lemma exec_xx_John_3_16_yy (bJ : Book.entry) :
  JsMap.get "john" (bookNameMap bibleData) = Some bJ →
  Book.name bJ = "John" →
  JsMap.get "xx john" (bookNameMap bibleData) = None →
  JsMap.get "x john" (bookNameMap bibleData) = None →
  JsMap.get " john" (bookNameMap bibleData) = None →
  exec (verseRegex bibleData) 5 "xx John 3:16 yy"
  = Some [Some "John 3:16"; None; Some "John"; Some "3"; Some "16"; None].
Proof.
  intros Hget Hname Hxx Hx Hsp.
  destruct (named_book_alias _ _ _ Hget) as [Hb Ha].
  change (exec ?r 5 "xx John 3:16 yy")
    with (or_else
            (rmatch (book_group bibleData) "xx John 3:16 yy" (replicate 6 None)
               (λ s' c, Some (<[O := Some (matched "xx John 3:16 yy" s')]> c)))
         (or_else
            (rmatch (book_group bibleData) "x John 3:16 yy" (replicate 6 None)
               (λ s' c, Some (<[O := Some (matched "x John 3:16 yy" s')]> c)))
         (or_else
            (rmatch (book_group bibleData) " John 3:16 yy" (replicate 6 None)
               (λ s' c, Some (<[O := Some (matched " John 3:16 yy" s')]> c)))
         (or_else
            (rmatch (book_group bibleData) "John 3:16 yy" (replicate 6 None)
               (λ s' c, Some (<[O := Some (matched "John 3:16 yy" s')]> c)))
            (exec r 5 "ohn 3:16 yy"))))).
  rewrite (book_group_none "xx John 3:16 yy").
  2: reflexivity.
  2: { intros s' Hs'.
       each_suffix Hs';
         (left; reflexivity) || (right; by apply no_alias_strips). }
  rewrite (book_group_none "x John 3:16 yy").
  2: reflexivity.
  2: { intros s' Hs'.
       each_suffix Hs';
         (left; reflexivity) || (right; by apply no_alias_strips). }
  rewrite (book_group_none " John 3:16 yy").
  2: reflexivity.
  2: { intros s' Hs'.
       each_suffix Hs';
         (left; reflexivity) || (right; by apply no_alias_strips). }
  erewrite (book_group_unique _ " 3:16 yy"); [reflexivity| | |].
  - exists bJ, "John". rewrite <- Hname at 1. by repeat split.
  - reflexivity.
  - intros s' Hs'. each_suffix Hs'; (by left) || (right; reflexivity).
Qed.

End Citation.

(** ** [parseReference] *)

(** The loop of the fallback stops at the first related key. *)
Lemma fallback_lookup_first (bookKey : string) (entries : JsMap.t Book.entry) :
  first_related bookKey entries (fallback_lookup bookKey entries).
Proof.
  induction entries as [|[key value] entries IH]; simpl; [constructor|].
  destruct (alias_related bookKey key) eqn:Hrel.
  - by exists [], entries.
  - destruct (fallback_lookup bookKey entries) as [[key' value']|]; simpl in *.
    + destruct IH as (before & after & -> & Hkey & Hbefore).
      exists ((key, value) :: before), after. repeat split; [done|].
      by constructor.
    + by constructor.
Qed.

Section Parse.
Variable bibleData : list Book.entry.

(** C3, amended: when the regex matches and the book text, with the digit
    prefix reattached, is not a key of the name table, the fallback takes
    the first key, in the table's insertion order, that is a prefix of the
    candidate or has the candidate as a prefix, and the reference is built
    from that key's book; when no key is related there is no reference.
    The length of the key plays no part. *)
Theorem C3_fallback_first_match (reference : string) (g0 prefix : option string)
    (bookName chapter : string) (verse endVerse : option string) :
  Regex.exec (verseRegex bibleData) 5 (JS.trim reference)
  = Some [g0; prefix; Some bookName; Some chapter; verse; endVerse] →
  JsMap.get (bookKey_of prefix bookName) (bookNameMap bibleData) = None →
  ∃ sel,
    first_related (bookKey_of prefix bookName) (bookNameMap bibleData) sel
    ∧ parseReference bibleData reference
      = (λ kv, reference_of kv.2 chapter verse endVerse) <$> sel.
Proof.
  intros Hexec Hget.
  exists (fallback_lookup (bookKey_of prefix bookName) (bookNameMap bibleData)).
  split; [apply fallback_lookup_first|].
  unfold parseReference, lookup_book. rewrite Hexec, Hget.
  by destruct (fallback_lookup _ _) as [[key value]|].
Qed.

(** C2: in a catalog whose name table sends "john" to the book named John
    and "1 john" to the book named 1 John, "1 John 1:1" parses to 1 John
    and "John 1:1" to John, whatever the other names and abbreviations
    are; for "1 John 1:1" the regex captures the prefix "1 " and the book
    text "John", and the key looked up is the prefix followed by the book
    text, in lower case. *)
Theorem C2_John_and_1_John (bJ b1J : Book.entry) :
  JsMap.get "john" (bookNameMap bibleData) = Some bJ →
  Book.name bJ = "John" →
  JsMap.get "1 john" (bookNameMap bibleData) = Some b1J →
  Book.name b1J = "1 John" →
  parseReference bibleData "1 John 1:1"
  = Some (mkRef "1 John" (Book.ord b1J) (JS.Num 1) (Some (JS.Num 1)) None
            (Book.testament b1J) (Book.osisId b1J))
  ∧ parseReference bibleData "John 1:1"
    = Some (mkRef "John" (Book.ord bJ) (JS.Num 1) (Some (JS.Num 1)) None
              (Book.testament bJ) (Book.osisId bJ))
  ∧ Regex.exec (verseRegex bibleData) 5 "1 John 1:1"
    = Some [Some "1 John 1:1"; Some "1 "; Some "John"; Some "1"; Some "1";
            None]
  ∧ bookKey_of (Some "1 ") "John" = "1 john".
Proof.
  intros HJ HnJ H1J Hn1J. repeat split.
  - unfold parseReference. change (JS.trim "1 John 1:1") with "1 John 1:1".
    rewrite (exec_1_John_1_1 _ bJ) by done.
    change (bookKey_of (Some "1 ") "John") with "1 john".
    unfold lookup_book. rewrite H1J, <- Hn1J. reflexivity.
  - unfold parseReference. change (JS.trim "John 1:1") with "John 1:1".
    rewrite (exec_John_1_1 _ bJ) by done.
    change (bookKey_of None "John") with "john".
    unfold lookup_book. rewrite HJ, <- HnJ. reflexivity.
  - by apply (exec_1_John_1_1 _ bJ).
Qed.

(** C9: the regex is searched for, not anchored. In a catalog whose name
    table sends "john" to the book named John and has none of the keys
    "xx john", "x john" and " john", the text "xx John 3:16 yy" parses to
    John 3:16, the reference of the citation inside it. *)
Theorem C9_citation_inside_text (bJ : Book.entry) :
  JsMap.get "john" (bookNameMap bibleData) = Some bJ →
  Book.name bJ = "John" →
  JsMap.get "xx john" (bookNameMap bibleData) = None →
  JsMap.get "x john" (bookNameMap bibleData) = None →
  JsMap.get " john" (bookNameMap bibleData) = None →
  parseReference bibleData "xx John 3:16 yy"
  = Some (mkRef "John" (Book.ord bJ) (JS.Num 3) (Some (JS.Num 16)) None
            (Book.testament bJ) (Book.osisId bJ))
  ∧ parseReference bibleData "xx John 3:16 yy"
    = parseReference bibleData "John 3:16".
Proof.
  intros Hget Hname Hxx Hx Hsp.
  assert (parseReference bibleData "xx John 3:16 yy"
          = parseReference bibleData "John 3:16") as Heq.
  { unfold parseReference.
    change (JS.trim "xx John 3:16 yy") with "xx John 3:16 yy".
    change (JS.trim "John 3:16") with "John 3:16".
    by rewrite (exec_xx_John_3_16_yy _ bJ), (exec_John_3_16 _ bJ). }
  split; [|done]. rewrite Heq. unfold parseReference.
  change (JS.trim "John 3:16") with "John 3:16".
  rewrite (exec_John_3_16 _ bJ) by done.
  change (bookKey_of None "John") with "john".
  unfold lookup_book. rewrite Hget, <- Hname. reflexivity.
Qed.

End Parse.

Lemma C2_John_and_1_John_witness :
  parseReference Sample.bibleData "1 John 1:1"
  = Some (mkRef "1 John" "62" (JS.Num 1) (Some (JS.Num 1)) None "NT" "1John")
  ∧ parseReference Sample.bibleData "John 1:1"
    = Some (mkRef "John" "43" (JS.Num 1) (Some (JS.Num 1)) None "NT" "John")
  ∧ Regex.exec (verseRegex Sample.bibleData) 5 "1 John 1:1"
    = Some [Some "1 John 1:1"; Some "1 "; Some "John"; Some "1"; Some "1";
            None]
  ∧ bookKey_of (Some "1 ") "John" = "1 john".
Proof.
  apply (C2_John_and_1_John Sample.bibleData Sample.john Sample.john1);
    vm_compute; reflexivity.
Defined.

Lemma C9_citation_inside_text_witness :
  parseReference Sample.bibleData "xx John 3:16 yy"
  = Some (mkRef "John" "43" (JS.Num 3) (Some (JS.Num 16)) None "NT" "John")
  ∧ parseReference Sample.bibleData "xx John 3:16 yy"
    = parseReference Sample.bibleData "John 3:16".
Proof.
  apply (C9_citation_inside_text Sample.bibleData Sample.john);
    vm_compute; reflexivity.
Defined.

(** C3 as stated fails on "1 T 3:16" in the catalog [Letters]: the key
    "1 t" is not in the name table; the related keys are, in insertion
    order, "1 thessalonians", "1 thess", "1 timothy", "1 tim" and "1 ti";
    the loop stops at the first, a book other than that of the shortest,
    "1 ti". *)
Lemma C3_counterexample :
  parseReference Letters.bibleData "1 T 3:16"
  = Some (mkRef "1 Thessalonians" "52" (JS.Num 3) (Some (JS.Num 16)) None
            "NT" "1Thess")
  ∧ Regex.exec (verseRegex Letters.bibleData) 5 (JS.trim "1 T 3:16")
    = Some [Some "1 T 3:16"; Some "1 "; Some "T"; Some "3"; Some "16"; None]
  ∧ JsMap.get (bookKey_of (Some "1 ") "T") (bookNameMap Letters.bibleData)
    = None
  ∧ filter (alias_related (bookKey_of (Some "1 ") "T"))
      (JsMap.keys (bookNameMap Letters.bibleData))
    = ["1 thessalonians"; "1 thess"; "1 timothy"; "1 tim"; "1 ti"]
  ∧ fallback_lookup (bookKey_of (Some "1 ") "T")
      (bookNameMap Letters.bibleData)
    = Some ("1 thessalonians", Letters.thessalonians1)
  ∧ shortest_related (bookKey_of (Some "1 ") "T")
      (bookNameMap Letters.bibleData)
    = Some ("1 ti", Letters.timothy1).
Proof. repeat split; vm_compute; reflexivity. Qed.

Lemma C3_fallback_first_match_witness :
  ∃ sel,
    first_related (bookKey_of (Some "1 ") "T")
      (bookNameMap Letters.bibleData) sel
    ∧ parseReference Letters.bibleData "1 T 3:16"
      = (λ kv, reference_of kv.2 "3" (Some "16") None) <$> sel.
Proof.
  apply (C3_fallback_first_match Letters.bibleData "1 T 3:16"
           (Some "1 T 3:16")); vm_compute; reflexivity.
Defined.

(** * Further properties *)

(** ** Soundness of the matcher *)

Section Sound.
Import Regex.
Context {R : Type}.

Lemma one_char_inv (p : ascii → bool) (s : string) (k : string → option R)
    (res : R) :
  one_char p s k = Some res →
  ∃ b s', s = String b s' ∧ p b = true ∧ k s' = Some res.
Proof.
  destruct s as [|b s']; simpl; [done|].
  destruct (p b) eqn:Hp; [|done]. intros Hk. by exists b, s'.
Qed.

Lemma or_else_inv (a b : option R) (res : R) :
  or_else a b = Some res → a = Some res ∨ b = Some res.
Proof. destruct a; simpl; auto. Qed.

Lemma progress_inv (s s' : string) (x : option R) (res : R) :
  progress s s' x = Some res → x = Some res.
Proof. unfold progress. by destruct (_ <? _)%nat. Qed.

(** Whatever the matcher returns, it got from its continuation, after a
    step of the regex. *)
Lemma rmatch_inv (r : regex) :
  ∀ (s : string) (c : captures) (k : string → captures → option R) (res : R),
    rmatch r s c k = Some res →
    ∃ s' c', step r s c s' c' ∧ k s' c' = Some res.
Proof.
  induction r as [|a| | |r1 IH1 r2 IH2|r1 IH1 r2 IH2|r1 IH1|r1 IH1|n r1 IH1];
    intros s c k res H.
  - exists s, c. by repeat split.
  - apply one_char_inv in H as (b & s' & -> & Hb & Hk).
    exists s', c. split; [|done]. exists b. repeat split.
    by apply Ascii.eqb_eq.
  - apply one_char_inv in H as (b & s' & -> & Hb & Hk).
    exists s', c. split; [|done]. by exists b.
  - apply one_char_inv in H as (b & s' & -> & Hb & Hk).
    exists s', c. split; [|done]. by exists b.
  - simpl in H. apply IH1 in H as (s1 & c1 & H1 & H).
    apply IH2 in H as (s' & c' & H2 & Hk).
    exists s', c'. split; [|done]. by exists s1, c1.
  - simpl in H. apply or_else_inv in H as [H|H].
    + apply IH1 in H as (s' & c' & H1 & Hk). exists s', c'. split; [by left|done].
    + apply IH2 in H as (s' & c' & H2 & Hk). exists s', c'. split; [by right|done].
  - simpl in H. revert H. generalize (String.length s) as fuel.
    intros fuel. revert s c. induction fuel as [|fuel IHf]; intros s c H.
    + exists s, c. split; [by exists O|done].
    + apply or_else_inv in H as [H|H].
      * apply IH1 in H as (s1 & c1 & H1 & H). apply progress_inv in H.
        apply IHf in H as (s' & c' & [n Hn] & Hk).
        exists s', c'. split; [|done]. exists (S n). by exists s1, c1.
      * exists s, c. split; [by exists O|done].
  - simpl in H. apply or_else_inv in H as [H|H].
    + apply IH1 in H as (s' & c' & H1 & H). apply progress_inv in H.
      exists s', c'. split; [by left|done].
    + exists s, c. split; [by right|done].
  - simpl in H. apply IH1 in H as (s' & c1 & H1 & Hk).
    exists s', (<[n := Some (matched s s')]> c1). split; [|done].
    by exists c1.
Qed.

End Sound.

Lemma matched_app (t s' : string) : Regex.matched (t +:+ s') s' = t.
Proof.
  unfold Regex.matched. rewrite length_app_s.
  replace (String.length t + String.length s' - String.length s')%nat
    with (String.length t) by lia.
  apply substring_app_exact.
Qed.

Lemma all_digits_app (t u : string) :
  all_digits (t +:+ u) = all_digits t && all_digits u.
Proof.
  induction t as [|b t IH]; [done|]. rewrite app_cons. simpl.
  rewrite IH. by rewrite andb_assoc.
Qed.

Section Steps.
Import Regex.

(** [\d*] consumes digits and leaves the captures alone. *)
Lemma step_star_digit (s s' : string) (c c' : captures) :
  step (Star Digit) s c s' c' →
  c' = c ∧ ∃ t, s = t +:+ s' ∧ all_digits t = true.
Proof.
  intros [n Hn]. revert s c Hn. induction n as [|n IH]; intros s c Hn.
  - destruct Hn as [-> ->]. split; [done|]. by exists EmptyString.
  - destruct Hn as (s1 & c1 & (b & -> & Hb & ->) & Hn).
    apply IH in Hn as (-> & t & -> & Ht). split; [done|].
    exists (String b t). split; [done|]. simpl. by rewrite Hb.
Qed.

Lemma step_plus_digit (s s' : string) (c c' : captures) :
  step (Plus Digit) s c s' c' →
  c' = c ∧ ∃ t, s = t +:+ s' ∧ digit_run t.
Proof.
  intros (s1 & c1 & (b & -> & Hb & ->) & H).
  apply step_star_digit in H as (-> & t & -> & Ht). split; [done|].
  exists (String b t). split; [done|]. split; [|done]. simpl. by rewrite Hb.
Qed.

(** [\s*] leaves the captures alone. *)
Lemma step_star_space (s s' : string) (c c' : captures) :
  step (Star Space) s c s' c' → c' = c.
Proof.
  intros [n Hn]. revert s c Hn. induction n as [|n IH]; intros s c Hn.
  - by destruct Hn as [-> ->].
  - destruct Hn as (s1 & c1 & (b & -> & Hb & ->) & Hn). by apply IH in Hn.
Qed.

Lemma step_plus_space (s s' : string) (c c' : captures) :
  step (Plus Space) s c s' c' → c' = c.
Proof.
  intros (s1 & c1 & (b & -> & Hb & ->) & H). by apply step_star_space in H.
Qed.

(** A capturing [(\d+)] stores a digit run. *)
Lemma step_group_digits (n : nat) (s s' : string) (c c' : captures) :
  step (Group n (Plus Digit)) s c s' c' →
  ∃ t, digit_run t ∧ c' = <[n := Some t]> c.
Proof.
  intros (c1 & H & ->). apply step_plus_digit in H as (-> & t & -> & Ht).
  exists t. by rewrite matched_app.
Qed.

(** The captures after the chapter and verse part: group 3 always, group
    4 only with group 3, group 5 only with group 4. *)
Lemma step_chapter_verse (s s' : string) (c c' : captures) :
  step chapter_verse s c s' c' →
  ∃ ch, digit_run ch
    ∧ (c' = <[3%nat := Some ch]> c
       ∨ ∃ v, digit_run v
           ∧ (c' = <[4%nat := Some v]> (<[3%nat := Some ch]> c)
              ∨ ∃ e, digit_run e
                  ∧ c' = <[5%nat := Some e]>
                           (<[4%nat := Some v]> (<[3%nat := Some ch]> c)))).
Proof.
  intros (s1 & c1 & Hsp%step_plus_space & s2 & c2 & H3 & Hopt). subst c1.
  apply step_group_digits in H3 as (ch & Hch & ->).
  exists ch. split; [done|].
  destruct Hopt as [Hverse|[-> ->]]; [|by left]. right.
  destruct Hverse
    as (s3 & c3 & ->%step_star_space & s4 & c4 & (b & -> & _ & ->)
        & s5 & c5 & ->%step_star_space & s6 & c6 & H4 & Hopt).
  apply step_group_digits in H4 as (v & Hv & ->).
  exists v. split; [done|].
  destruct Hopt as [Hend|[-> ->]]; [|by left]. right.
  destruct Hend
    as (s7 & c7 & ->%step_star_space & s8 & c8 & (b' & -> & _ & ->)
        & s9 & c9 & ->%step_star_space & H5).
  apply step_group_digits in H5 as (e & He & ->). by exists e.
Qed.

(** A step consumes a prefix of the input. *)
Lemma step_prefix (r : regex) :
  ∀ (s s' : string) (c c' : captures),
    step r s c s' c' → ∃ t, s = t +:+ s'.
Proof.
  induction r as [|a| | |r1 IH1 r2 IH2|r1 IH1 r2 IH2|r1 IH1|r1 IH1|n r1 IH1];
    intros s s' c c' H.
  - destruct H as [-> _]. by exists EmptyString.
  - destruct H as (b & -> & _). by exists (String b EmptyString).
  - destruct H as (b & -> & _). by exists (String b EmptyString).
  - destruct H as (b & -> & _). by exists (String b EmptyString).
  - destruct H as (s1 & c1 & [t1 ->]%IH1 & [t2 ->]%IH2).
    exists (t1 +:+ t2). by rewrite app_assoc_s.
  - destruct H as [H|H]; [by eapply IH1|by eapply IH2].
  - destruct H as [n Hn]. revert s c Hn.
    induction n as [|n IH]; intros s c Hn.
    + destruct Hn as [-> _]. by exists EmptyString.
    + destruct Hn as (s1 & c1 & [t1 ->]%IH1 & [t2 ->]%IH).
      exists (t1 +:+ t2). by rewrite app_assoc_s.
  - destruct H as [H|[-> _]]; [by eapply IH1|by exists EmptyString].
  - destruct H as (c1 & H & _). by eapply IH1.
Qed.

(** The digit prefix, when taken, is not empty. *)
Lemma step_digit_prefix (s s' : string) (c c' : captures) :
  step digit_prefix s c s' c' →
  (s' = s ∧ c' = c)
  ∨ ∃ p, JS.truthy_string p = true ∧ s = p +:+ s'
         ∧ c' = <[1%nat := Some p]> c.
Proof.
  intros [(c1 & (s1 & c2 & Hd & Hs) & ->)|[-> ->]]; [right|by left].
  apply step_plus_digit in Hd as (-> & t & -> & [Ht Hne]).
  pose proof (step_plus_space _ _ _ _ Hs) as ->.
  apply step_prefix in Hs as [u ->].
  exists (t +:+ u). rewrite <- app_assoc_s, matched_app.
  repeat split. by destruct t.
Qed.

End Steps.

Section Inversion.
Import Regex.

Lemma strip_ci_cons (a b : ascii) (p s : string) :
  JS.upper_char a = JS.upper_char b →
  strip_ci (String a p) (String b s) = strip_ci p s.
Proof. intros H. simpl. by rewrite (proj2 (Ascii.eqb_eq _ _) H). Qed.

Lemma step_literal_aux (src : string) :
  (∀ s c s' c', step (literal src) s c s' c' →
                c' = c ∧ strip_ci (unescape src) s = Some s')
  ∧ (∀ a s c s' c', step (literal (String a src)) s c s' c' →
                    c' = c ∧ strip_ci (unescape (String a src)) s = Some s').
Proof.
  induction src as [|b src [IH1 IH2]].
  - split; [by intros s c s' c' [-> ->]|]. intros a s c s' c'.
    assert (literal (String a EmptyString) = Seq (Chr a) Eps) as ->
      by (by destruct a as [[] [] [] [] [] [] [] []]).
    assert (unescape (String a EmptyString) = String a EmptyString) as ->
      by (by destruct a as [[] [] [] [] [] [] [] []]).
    intros (s1 & c1 & (x & -> & Hx & ->) & [-> ->]). split; [done|].
    by rewrite strip_ci_cons.
  - split; [apply IH2|]. intros a s c s' c'.
    destruct (ascii_dec a "\"%char) as [->|Ha].
    + simpl. intros (s1 & c1 & (x & -> & Hx & ->) & H).
      apply IH1 in H as [-> H]. split; [done|].
      by rewrite (proj2 (Ascii.eqb_eq _ _) Hx).
    + rewrite unescape_cons_plain by done.
      assert (literal (String a (String b src))
              = Seq (Chr a) (literal (String b src))) as ->.
      { by destruct a as [[] [] [] [] [] [] [] []]. }
      intros (s1 & c1 & (x & -> & Hx & ->) & H).
      apply IH2 in H as [-> H]. split; [done|]. by rewrite strip_ci_cons.
Qed.

(** A literal alternative strips its characters and stores nothing. *)
Lemma step_literal (src s s' : string) (c c' : captures) :
  step (literal src) s c s' c' →
  c' = c ∧ strip_ci (unescape src) s = Some s'.
Proof. apply step_literal_aux. Qed.

Lemma step_alternatives (ps : list string) (s s' : string) (c c' : captures) :
  step (alternatives ps) s c s' c' →
  c' = c
  ∧ ((ps = [] ∧ s' = s)
     ∨ ∃ p, p ∈ ps ∧ strip_ci (unescape p) s = Some s').
Proof.
  induction ps as [|p [|p' ps] IH].
  - intros [-> ->]. split; [done|by left].
  - intros [-> H]%step_literal. split; [done|]. right. exists p.
    split; [left|done].
  - change (alternatives (p :: p' :: ps))
      with (Alt (literal p) (alternatives (p' :: ps))).
    intros [[-> H]%step_literal|[-> H]%IH]; (split; [done|]); right.
    + exists p. split; [left|done].
    + destruct H as [[? _]|(q & Hq & H)]; [done|].
      exists q. split; [by right|done].
Qed.

(** A result of [exec] is a step of the regex from some suffix of the
    input, with group 0 set to the text consumed. *)
Lemma exec_inv (r : regex) (n : nat) (s : string) (caps : captures) :
  exec r n s = Some caps →
  ∃ s0 s' c',
    s0 ∈ suffixes s
    ∧ step r s0 (replicate (S n) None) s' c'
    ∧ caps = <[O := Some (matched s0 s')]> c'.
Proof.
  induction s as [|b s IH]; intros H; simpl in H;
    apply or_else_inv in H as [H|H]; try done.
  - apply rmatch_inv in H as (s' & c' & Hstep & [= <-]).
    exists EmptyString, s', c'. repeat split; [left|done].
  - apply rmatch_inv in H as (s' & c' & Hstep & [= <-]).
    exists (String b s), s', c'. repeat split; [left|done].
  - apply IH in H as (s0 & s' & c' & Hin & Hstep & ->).
    exists s0, s', c'. repeat split; [by right|done].
Qed.

End Inversion.

Section VerseRegex.
Import Regex.
Variable bibleData : list Book.entry.

(** The groups of a match of [verseRegex]: the prefix is absent or not
    empty; the book text is an alias up to case (or empty, in an empty
    catalog); the chapter is a digit run; the verse, if any, is a digit
    run; the end verse, if any, is a digit run and comes with a verse. *)
Lemma exec_verseRegex_groups (s : string) (caps : captures) :
  exec (verseRegex bibleData) 5 s = Some caps →
  ∃ g0 prefix bookName chapter verse endVerse,
    caps = [Some g0; prefix; Some bookName; Some chapter; verse; endVerse]
    ∧ (∀ p, prefix = Some p → JS.truthy_string p = true)
    ∧ (bibleData = [] ∧ bookName = EmptyString
       ∨ ∃ b a, b ∈ bibleData ∧ a ∈ book_aliases b
                ∧ JS.toLowerCase bookName = JS.toLowerCase a)
    ∧ digit_run chapter
    ∧ (∀ v, verse = Some v → digit_run v)
    ∧ (∀ e, endVerse = Some e → digit_run e ∧ is_Some verse).
Proof.
  intros (s0 & s' & c' & _ & Hstep & ->)%exec_inv.
  destruct Hstep as (s1 & c1 & Hpre & s3 & c2 & (c3 & Halt & ->) & Hcv).
  apply step_alternatives in Halt as [-> Halt].
  apply step_chapter_verse in Hcv as (ch & Hch & Hcv).
  set (bookName := matched s1 s3) in *.
  assert (bibleData = [] ∧ bookName = EmptyString
          ∨ ∃ b a, b ∈ bibleData ∧ a ∈ book_aliases b
                   ∧ JS.toLowerCase bookName = JS.toLowerCase a) as Hname.
  { destruct Halt as [[Hnil ->]|(p & Hp & Hstrip)].
    - left. split.
      + destruct bibleData as [|b l]; [done|].
        assert (JS.escapeRegex (Book.name b) ∈ bookPatterns (b :: l)) as Hin
          by (apply bookPatterns_name; left).
        rewrite Hnil in Hin. by apply elem_of_nil in Hin.
      + unfold bookName, matched. rewrite Nat.sub_diag. by destruct s1.
    - right. apply elem_of_bookPatterns in Hp as (b & a & Hb & Ha & ->).
      rewrite unescape_escapeRegex in Hstrip.
      exists b, a. repeat split; [done..|]. by eapply strip_ci_lower. }
  destruct Hch as [Hch1 Hch2].
  apply step_digit_prefix in Hpre
    as [[-> ->]|(p & Hp & -> & ->)];
    destruct Hcv as [->|(v & [Hv1 Hv2] & [->|(e & [He1 He2] & ->)])]; simpl;
    eexists _, _, bookName, ch, _, _; (split; [reflexivity|]);
    repeat split; try (intros; simplify_eq; done); by eexists.
Qed.

End VerseRegex.

(** ** What [parseReference] returns *)

Lemma digit_not_space_sign (b : ascii) :
  JS.is_digit b = true →
  JS.is_space b = false ∧ b ≠ "-"%char ∧ b ≠ "+"%char ∧ 0 ≤ JS.digit_val b.
Proof.
  destruct b as [[] [] [] [] [] [] [] []]; try discriminate;
    intros _; repeat split; try discriminate; by vm_compute.
Qed.



Section ParseInvariants.
Import Regex.
Variable bibleData : list Book.entry.





(** X2: the approximate fallback is only ever reached by a citation with
    a leading digit prefix. When the regex matches without one, in a
    catalog that is not empty, the lower-cased book text is a key of
    [bookNameMap] and [parseReference] returns the reference of that key's
    book. *)
Theorem X2_no_prefix_no_fallback (reference : string) (g0 : option string)
    (bookName chapter : string) (verse endVerse : option string) :
  bibleData ≠ [] →
  exec (verseRegex bibleData) 5 (JS.trim reference)
  = Some [g0; None; Some bookName; Some chapter; verse; endVerse] →
  ∃ b, JsMap.get (JS.toLowerCase bookName) (bookNameMap bibleData) = Some b
       ∧ parseReference bibleData reference
         = Some (reference_of b chapter verse endVerse).
Proof.
  intros Hne Hexec.
  destruct (exec_verseRegex_groups _ _ _ Hexec)
    as (g0' & prefix & bookName' & ch & v & e & [= -> <- <- <- <- <-]
        & _ & Hname & _).
  destruct Hname as [[? _]|(b & a & Hb & Ha & Hlow)]; [done|].
  destruct (bookNameMap_alias_key bibleData b a Hb Ha) as [b' Hget].
  rewrite <- Hlow in Hget. exists b'. split; [done|].
  unfold parseReference, lookup_book. rewrite Hexec.
  change (bookKey_of None bookName) with (JS.toLowerCase bookName).
  by rewrite Hget.
Qed.

End ParseInvariants.


Lemma X2_no_prefix_no_fallback_witness :
  ∃ b, JsMap.get (JS.toLowerCase "JOHN") (bookNameMap Sample.bibleData)
       = Some b
       ∧ parseReference Sample.bibleData " JOHN 3:16 "
         = Some (reference_of b "3" (Some "16") None).
Proof.
  apply (X2_no_prefix_no_fallback Sample.bibleData " JOHN 3:16 "
           (Some "JOHN 3:16")).
  - discriminate.
  - vm_compute. reflexivity.
Defined.

(** ** Validity, exactly *)

Section Valid.
Variable bibleData : list Book.entry.

(** X3: [isValidReference] is true exactly when the book ordinal is a
    key of [bookNumberMap], the chapter's decimal text is a key of that
    book's chapter table, the verse, if it is an integer, lies between 1
    and the chapter's verse count, and the end verse, if it is an integer,
    lies in the same bounds and is not below the verse. A verse or end
    verse that is [NaN] passes every comparison. *)
Theorem X3_isValidReference_iff (reference : BibleReference) :
  isValidReference bibleData reference = true
  ↔ ∃ bookData maxVerse,
      bookNumberMap bibleData !! bookId reference = Some bookData
      ∧ Book.chapters bookData !! JS.toString (chapter reference)
        = Some maxVerse
      ∧ (∀ v, verse reference = Some (JS.Num v) → 1 ≤ v ≤ maxVerse)
      ∧ (∀ e, endVerse reference = Some (JS.Num e) →
           1 ≤ e ≤ maxVerse
           ∧ ∀ v, verse reference = Some (JS.Num v) → v ≤ e).
Proof.
  unfold isValidReference.
  destruct (bookNumberMap bibleData !! bookId reference) as [bookData|] eqn:Hb.
  2: { split; [done|]. intros (? & ? & ? & _). done. }
  destruct (Book.chapters bookData !! _) as [maxVerse|] eqn:Hc.
  2: { split; [done|]. intros (? & ? & ? & ? & _). simplify_eq. }
  destruct (verse reference) as [[|v]|], (endVerse reference) as [[|e]|];
    simpl; unfold JS.gt, JS.lt; simpl.
  all: repeat match goal with
       | |- context [?a <? ?b] => destruct (Z.ltb_spec a b); simpl
       end.
  all: split;
    [ try done; intros _; exists bookData, maxVerse;
      repeat split; intros; simplify_eq; (done || lia)
    | intros (bd & m & ? & ? & Hv & He); simplify_eq;
      try done;
      try (specialize (Hv _ eq_refl)); try (destruct (He _ eq_refl) as [? He']);
      try (specialize (He' _ eq_refl)); lia ].
Qed.

End Valid.

(** ** The tables, key by key *)

Section TableLookup.
Variable bibleData : list Book.entry.

Lemma abbreviation_keys_cons (a : string) (l : list string) (k : string) :
  k ∈ (a :: l) ≫= (λ abbr,
         [JS.toLowerCase abbr; JS.strip_dots (JS.toLowerCase abbr)])
  ↔ k = JS.toLowerCase a ∨ k = JS.strip_dots (JS.toLowerCase a)
    ∨ k ∈ l ≫= (λ abbr,
           [JS.toLowerCase abbr; JS.strip_dots (JS.toLowerCase abbr)]).
Proof.
  rewrite bind_cons, elem_of_app, !elem_of_cons, elem_of_nil. tauto.
Qed.

Lemma get_add_abbreviations (b : Book.entry) (l : list string)
    (m : JsMap.t Book.entry) (k : string) :
  JsMap.get k (foldl (add_abbreviation b) m l)
  = if decide (k ∈ l ≫= λ abbr,
                 [JS.toLowerCase abbr; JS.strip_dots (JS.toLowerCase abbr)])
    then Some b else JsMap.get k m.
Proof.
  revert m. induction l as [|a l IH]; intros m; [done|].
  simpl foldl. rewrite IH. unfold add_abbreviation.
  rewrite !JsMap_get_set.
  destruct (decide (k ∈ l ≫= _)) as [Hl|Hl];
    destruct (decide (k ∈ (a :: l) ≫= _)) as [Hal|Hal];
    rewrite abbreviation_keys_cons in Hal; try done; try tauto.
  - destruct (String.eqb_spec (JS.strip_dots (JS.toLowerCase a)) k);
      [done|].
    destruct (String.eqb_spec (JS.toLowerCase a) k); [done|].
    destruct Hal as [?|[?|?]]; congruence.
  - destruct (String.eqb_spec (JS.strip_dots (JS.toLowerCase a)) k);
      [naive_solver|].
    destruct (String.eqb_spec (JS.toLowerCase a) k); [naive_solver|done].
Qed.

Lemma get_name_step (m : JsMap.t Book.entry) (b : Book.entry) (k : string) :
  JsMap.get k (name_step m b)
  = if decide (k ∈ alias_keys b) then Some b else JsMap.get k m.
Proof.
  unfold name_step. rewrite get_add_abbreviations, JsMap_get_set.
  unfold alias_keys.
  destruct (decide (k ∈ Book.abbreviations b ≫= _)) as [Hl|Hl];
    destruct (decide (k ∈ _ :: _)) as [Hal|Hal];
    rewrite elem_of_cons in Hal; try done; try tauto.
  - destruct (String.eqb_spec (JS.toLowerCase (Book.name b)) k); [done|].
    destruct Hal; congruence.
  - destruct (String.eqb_spec (JS.toLowerCase (Book.name b)) k);
      [naive_solver|done].
Qed.

Lemma get_name_steps (l : list Book.entry) (m : JsMap.t Book.entry)
    (k : string) :
  JsMap.get k (foldl name_step m l)
  = match last (filter (λ b, k ∈ alias_keys b) l) with
    | Some b => Some b
    | None => JsMap.get k m
    end.
Proof.
  revert m. induction l as [|b l IH]; intros m; [done|].
  simpl foldl. rewrite IH, filter_cons, get_name_step. case_decide as Hk.
  - destruct (filter _ l) as [|b' l'] eqn:Hf; [done|].
    rewrite last_cons_cons.
    destruct (last (b' :: l')) eqn:E; [done|]. by apply last_None in E.
  - by destruct (last _).
Qed.

(** X4: each of the two lookup tables resolves a key to the last row of
    the catalog that registers it: [bookNumberMap] by ordinal,
    [bookNameMap] by lower-cased name, lower-cased abbreviation, or
    lower-cased abbreviation without its dots. A later row silently takes
    over a key of an earlier one. *)
Theorem X4_tables_last_row_wins (k : string) :
  bookNumberMap bibleData !! k
  = last (filter (λ b, Book.ord b = k) bibleData)
  ∧ JsMap.get k (bookNameMap bibleData)
    = last (filter (λ b, k ∈ alias_keys b) bibleData).
Proof.
  split; [apply bookNumberMap_lookup|].
  unfold bookNameMap, init_tables. rewrite nameMap_foldl, get_name_steps.
  by destruct (last _).
Qed.

Lemma filter_insert_by_length (n : nat) (x : string) (l : list string) :
  filter (λ p, String.length p = n) (insert_by_length x l)
  = filter (λ p, String.length p = n) (x :: l).
Proof.
  induction l as [|y l IH]; [done|]. simpl insert_by_length.
  destruct (Nat.leb_spec (String.length y) (String.length x)) as [Hle|Hgt];
    [done|].
  rewrite filter_cons, IH, !filter_cons.
  repeat case_decide; try done; lia.
Qed.

Lemma filter_sort_by_length (n : nat) (l : list string) :
  filter (λ p, String.length p = n) (sort_by_length l)
  = filter (λ p, String.length p = n) l.
Proof.
  induction l as [|x l IH]; [done|]. simpl sort_by_length.
  by rewrite filter_insert_by_length, !filter_cons, IH.
Qed.

(** X5: [bookPatterns] is the stable sort, by decreasing length of the
    escaped text, of the escaped names and abbreviations in catalog order:
    it has the same elements with the same multiplicities, a longer
    alternative never comes after a shorter one, and the alternatives of
    any one length keep the order in which the loop pushed them. *)
Theorem X5_bookPatterns_stable_sort :
  let pushed := bibleData ≫= λ b, JS.escapeRegex <$> book_aliases b in
  bookPatterns bibleData ≡ₚ pushed
  ∧ StronglySorted longer_first (bookPatterns bibleData)
  ∧ ∀ n, filter (λ p, String.length p = n) (bookPatterns bibleData)
         = filter (λ p, String.length p = n) pushed.
Proof.
  intros pushed. unfold bookPatterns. rewrite patterns_init.
  split; [apply sort_by_length_Permutation|].
  split; [apply sort_by_length_sorted|].
  intros n. apply filter_sort_by_length.
Qed.

End TableLookup.

(** ** Word ids *)

Lemma substring_substring (a n m : nat) (s : string) :
  (a + n ≤ m)%nat →
  String.substring a n (String.substring 0 m s) = String.substring a n s.
Proof.
  revert a n m. induction s as [|x s IH]; intros a n m Hle.
  - destruct m, a, n; done.
  - destruct m as [|m]; [by destruct a, n; try lia|].
    destruct a as [|a]; simpl.
    + destruct n as [|n]; [done|]. f_equal. apply (IH 0%nat). lia.
    + apply IH. lia.
Qed.

Lemma length_substring_0 (m : nat) (s : string) :
  (m ≤ String.length s)%nat → String.length (String.substring 0 m s) = m.
Proof.
  revert m. induction s as [|x s IH]; intros [|m] Hle; simpl in *;
    try done; try lia.
  rewrite IH; lia.
Qed.

Lemma truthy_string_length (s : string) :
  JS.truthy_string s = negb (String.length s =? 0)%nat.
Proof. by destruct s. Qed.

Section WordIds.
Variable bibleData : list Book.entry.

(** Decoding looks at the first eight characters only. *)
Lemma parseVerseId_prefix (id : string) :
  (8 ≤ String.length id)%nat →
  parseVerseId bibleData (JS.substring 0 8 id) = parseVerseId bibleData id.
Proof.
  intros Hlen. unfold parseVerseId, JS.substring.
  rewrite !truthy_string_length, length_substring_0 by (simpl; lia).
  destruct (Nat.eqb_spec (String.length id) 0) as [?|_]; [lia|].
  destruct (Nat.ltb_spec (String.length id) 8) as [?|_]; [lia|].
  simpl. by rewrite !substring_substring by (simpl; lia).
Qed.

Lemma parseWordId_unfold (id : string) :
  parseWordId bibleData id
  = if (String.length id <? 11)%nat then None
    else (λ r, (r, JS.parseInt (JS.substring 8 11 id)))
           <$> parseVerseId bibleData id.
Proof.
  unfold parseWordId. rewrite truthy_string_length.
  destruct (Nat.ltb_spec (String.length id) 11) as [?|Hge];
    [by rewrite orb_true_r|].
  destruct (Nat.eqb_spec (String.length id) 0) as [?|_]; [lia|]. simpl.
  rewrite parseVerseId_prefix by lia. by destruct (parseVerseId _ _).
Qed.

Lemma parseVerseId_None (id : string) :
  parseVerseId bibleData id = None
  ↔ (String.length id < 8)%nat
    ∨ ∀ b, b ∈ bibleData → Book.ord b ≠ JS.substring 0 2 id.
Proof.
  unfold parseVerseId. rewrite truthy_string_length.
  destruct (Nat.ltb_spec (String.length id) 8) as [?|Hge].
  - rewrite orb_true_r. by split; [left|].
  - destruct (Nat.eqb_spec (String.length id) 0) as [?|_]; [lia|]. simpl.
    rewrite <- bookNumberMap_None.
    destruct (bookNumberMap bibleData !! _); split; try done.
    + intros [?|?]; [lia|done].
    + by right.
Qed.

(** X7: [parseWordId] fails exactly on an id of fewer than 11 characters
    or one whose first two characters are no ordinal of the catalog; when
    it succeeds, its reference is the one [parseVerseId] decodes from the
    same id (the word suffix plays no part), and its word position is the
    integer read from the characters 8 to 10, which is also what the
    import script's [parseWordPosition] stores for that id. *)
Theorem X7_parseWordId_decodes (id : string) :
  (parseWordId bibleData id = None
   ↔ (String.length id < 11)%nat
     ∨ ∀ b, b ∈ bibleData → Book.ord b ≠ JS.substring 0 2 id)
  ∧ ∀ r w, parseWordId bibleData id = Some (r, w) →
      parseVerseId bibleData id = Some r
      ∧ w = JS.parseInt (JS.substring 8 11 id)
      ∧ parseWordPosition id = w.
Proof.
  rewrite parseWordId_unfold. unfold parseWordPosition.
  destruct (Nat.ltb_spec (String.length id) 11) as [?|Hge].
  - split; [|done]. by split; [left|].
  - split.
    + rewrite fmap_None, parseVerseId_None.
      split; (intros [?|?]; [lia|by right]).
    + intros r w Hr. destruct (parseVerseId bibleData id) as [r'|]; [|done].
      by simplify_eq/=.
Qed.

Lemma length_formatVerseId (r : BibleReference) (c : Z) :
  String.length (bookId r) = 2%nat →
  chapter r = JS.Num c → 0 ≤ c ≤ 999 →
  (∀ z, verse r = Some (JS.Num z) → 0 ≤ z ≤ 999) →
  String.length (formatVerseId r) = 8%nat.
Proof.
  intros Hlen Hc Hcr Hv.
  destruct (verse_or_1_range _ Hv) as (v & Hv1 & Hvr).
  destruct (pad3_spec c Hcr) as [Hlc _].
  destruct (pad3_spec v Hvr) as [Hlv _].
  unfold formatVerseId. rewrite Hc, Hv1.
  fold (pad3 (JS.Num c)). fold (pad3 (JS.Num v)).
  rewrite !length_app_s. lia.
Qed.

(** X6: for either original-language table, [referenceToDbId] returns 999
    ids; under the conditions of the verse-id round trip (a two-character
    ordinal of the catalog, chapter and verse from 0 to 999), the id at
    index [i] decodes with [parseWordId] to the reference that the verse
    id decodes to and to the word position [i + 1], so the ids are
    pairwise distinct. *)
Theorem X6_word_ids_roundtrip (r : BibleReference) (bookData : Book.entry)
    (c : Z) (table : string) :
  bookNumberMap bibleData !! bookId r = Some bookData →
  String.length (bookId r) = 2%nat →
  chapter r = JS.Num c → 0 ≤ c ≤ 999 →
  (∀ z, verse r = Some (JS.Num z) → 0 ≤ z ≤ 999) →
  table = "hebrew_ot" ∨ table = "greek_nt" →
  ∃ ids r',
    referenceToDbId r table = Database.Return (WordIds ids)
    ∧ parseVerseId bibleData (formatVerseId r) = Some r'
    ∧ length ids = 999%nat
    ∧ (∀ (i : nat) id, ids !! i = Some id →
         parseWordId bibleData id = Some (r', JS.Num (Z.of_nat i + 1)))
    ∧ NoDup ids.
Proof.
  intros Hbook Hlen Hc Hcr Hv Htable.
  pose proof (length_formatVerseId r c Hlen Hc Hcr Hv) as Hlen8.
  pose proof (parseVerseId_formatVerseId bibleData r bookData c
                Hbook Hlen Hc Hcr Hv) as Hparse.
  match type of Hparse with _ = Some ?x => set (r' := x) in * end.
  assert (∀ (i : nat) id,
            ((λ i : nat,
                formatVerseId r
                  +:+ JS.padStart 3 "0"
                        (JS.toString (JS.Num (Z.of_nat i + 1))))
               <$> seq 0 999) !! i = Some id →
            parseWordId bibleData id
            = Some (r', JS.Num (Z.of_nat i + 1))) as Hdecode.
  { intros i id Hi. rewrite list_lookup_fmap in Hi.
    destruct (seq 0 999 !! i) as [j|] eqn:Hj; [|done].
    apply lookup_seq in Hj as [-> Hlt]. simpl in Hi. simplify_eq.
    change (JS.padStart 3 "0" _) with (pad3 (JS.Num (Z.of_nat i + 1))).
    destruct (pad3_spec (Z.of_nat i + 1)) as [Hlw Hpw]; [lia|].
    set (pw := pad3 (JS.Num (Z.of_nat i + 1))) in *.
    assert (JS.substring 0 8 (formatVerseId r +:+ pw) = formatVerseId r)
      as H08.
    { unfold JS.substring. simpl Nat.sub. rewrite <- Hlen8.
      apply substring_app_exact. }
    assert (JS.substring 8 11 (formatVerseId r +:+ pw) = pw) as H811.
    { unfold JS.substring. simpl Nat.sub.
      rewrite <- (Nat.add_0_r 8), <- Hlen8, substring_app_skip, <- Hlw.
      apply substring_whole. }
    rewrite parseWordId_unfold, length_app_s, Hlen8, Hlw. simpl Nat.ltb.
    cbv iota.
    rewrite <- parseVerseId_prefix by (rewrite length_app_s; lia).
    by rewrite H08, H811, Hparse, Hpw. }
  eexists _, r'. split; [by destruct Htable as [-> | ->]|].
  split; [exact Hparse|].
  split; [by rewrite length_fmap, length_seq|].
  split; [exact Hdecode|].
  apply NoDup_alt. intros i j id Hi Hj.
  apply Hdecode in Hi, Hj. rewrite Hi in Hj. simplify_eq. lia.
Qed.

End WordIds.

Lemma X6_word_ids_roundtrip_witness :
  ∃ ids r',
    referenceToDbId SampleDb.genesis_1_1 "hebrew_ot"
    = Database.Return (WordIds ids)
    ∧ parseVerseId Sample.bibleData (formatVerseId SampleDb.genesis_1_1)
      = Some r'
    ∧ length ids = 999%nat
    ∧ (∀ (i : nat) id, ids !! i = Some id →
         parseWordId Sample.bibleData id
         = Some (r', JS.Num (Z.of_nat i + 1)))
    ∧ NoDup ids.
Proof.
  apply (X6_word_ids_roundtrip Sample.bibleData SampleDb.genesis_1_1
           Sample.genesis 1).
  - vm_compute. reflexivity.
  - reflexivity.
  - reflexivity.
  - lia.
  - intros z [= <-]. lia.
  - left. reflexivity.
Defined.

(** ** Token assembly, at any split *)

Section AssembleSplit.
Import Database.

Lemma join_tokens_snoc_cons (l1 : list token) (tok tok' : token)
    (l2 : list token) :
  join_tokens (l1 ++ tok :: tok' :: l2)
  = join_tokens (l1 ++ [tok]) +:+ space_after tok
      +:+ join_tokens (tok' :: l2).
Proof.
  induction l1 as [|t [|t' l1] IH].
  - done.
  - simpl in *. by rewrite !app_assoc_s.
  - change (join_tokens ((t :: t' :: l1) ++ ?l))
      with (text t +:+ space_after t +:+ join_tokens ((t' :: l1) ++ l)).
    rewrite IH. by rewrite !app_assoc_s.
Qed.

Lemma join_tokens_last_flag (l : list token) (t : string) (f f' : flag) :
  join_tokens (l ++ [Token t f]) = join_tokens (l ++ [Token t f']).
Proof.
  induction l as [|tok [|tok' l] IH]; [done|done|].
  change (join_tokens ((tok :: tok' :: l) ++ ?x))
    with (text tok +:+ space_after tok +:+ join_tokens ((tok' :: l) ++ x)).
  by rewrite IH.
Qed.

(** X8: assembling a token list split at any point is assembling the two
    parts and putting between them the separator of the last token of the
    first part; and the flag of the very last token is never looked at. *)
Theorem X8_assemble_split (l1 : list token) (tok tok' : token)
    (l2 : list token) :
  assembleTextFromTokens (l1 ++ tok :: tok' :: l2)
  = assembleTextFromTokens (l1 ++ [tok])
      +:+ (if truthy_flag (skip_space_after tok) then EmptyString else " ")
      +:+ assembleTextFromTokens (tok' :: l2)
  ∧ ∀ f, assembleTextFromTokens (l1 ++ [Token (text tok) f])
         = assembleTextFromTokens (l1 ++ [tok]).
Proof.
  rewrite !assemble_join. split; [apply join_tokens_snoc_cons|].
  intros f. rewrite assemble_join. destruct tok as [t f'].
  apply join_tokens_last_flag.
Qed.

End AssembleSplit.

(** ** The statements' results *)

Section Statements.
Import Database.

Lemma insert_sorted_lt (x : Z) (l : list Z) :
  x ∉ l → StronglySorted Z.lt l →
  StronglySorted Z.lt (insert_sorted Z.leb x l).
Proof.
  induction l as [|y l IH]; simpl; intros Hx Hs.
  - repeat constructor.
  - apply StronglySorted_inv in Hs as [Hl Hy].
    apply not_elem_of_cons in Hx as [Hxy Hx].
    destruct (Z.leb_spec x y) as [Hle|Hgt].
    + constructor; [by constructor|]. constructor; [lia|].
      eapply Forall_impl; [exact Hy|]. simpl. intros; lia.
    + constructor; [by apply IH|].
      apply Forall_forall. intros z [->|Hz]%insert_sorted_elem_of; [lia|].
      by apply (proj1 (Forall_forall _ _) Hy).
Qed.

Lemma order_by_lt (l : list Z) :
  NoDup l → StronglySorted Z.lt (order_by Z.leb l).
Proof.
  induction 1 as [|x l Hx Hl IH]; simpl; [constructor|].
  apply insert_sorted_lt; [|done]. by rewrite order_by_elem_of.
Qed.

Lemma sql_distinct_verses_sorted (rows : list Row.t) (bookId : string)
    (chapter startVerse endVerse : JS.number) :
  StronglySorted Z.lt
    (sql_distinct_verses rows bookId chapter startVerse endVerse).
Proof. apply order_by_lt, NoDup_remove_dups. Qed.

Lemma elem_of_sql_distinct_verses (rows : list Row.t) (bookId : string)
    (chapter : JS.number) (lo hi v : Z) :
  v ∈ sql_distinct_verses rows bookId chapter (JS.Num lo) (JS.Num hi)
  ↔ lo ≤ v ≤ hi
    ∧ ∃ r, r ∈ rows ∧ Row.book_num r = bookId
           ∧ JS.Num (Database.Row.chapter r) = chapter ∧ Database.Row.verse r = v.
Proof.
  unfold sql_distinct_verses.
  rewrite order_by_elem_of, elem_of_remove_dups, list_elem_of_fmap.
  split.
  - intros (r & -> & [Hc Hr]%list_elem_of_filter).
    apply andb_prop in Hc as [Hc Hhi]. apply andb_prop in Hc as [Hc Hlo].
    apply andb_prop in Hc as [Hb Hc]. simpl in Hlo, Hhi.
    split; [lia|]. exists r. apply String.eqb_eq in Hb.
    repeat split; try done.
    destruct chapter as [|c]; [done|]. simpl in Hc. f_equal. lia.
  - intros (Hv & r & Hr & Hb & Hc & <-). exists r. split; [done|].
    apply list_elem_of_filter. split; [|done].
    rewrite <- Hc, <- Hb. simpl. rewrite String.eqb_refl, Z.eqb_refl. simpl.
    apply andb_true_intro. split; lia.
Qed.

(** The verse range that [getPassage] asks for, [verse || 1] up to
    [endVerse || startVerse]: both bounds are integers. *)
Lemma passage_range (reference : BibleReference) :
  ∃ lo hi,
    verse_or_1 (verse reference) = JS.Num lo
    ∧ match endVerse reference with
      | Some e => if JS.truthy_number e then e else JS.Num lo
      | None => JS.Num lo
      end = JS.Num hi.
Proof.
  assert (∃ lo, verse_or_1 (verse reference) = JS.Num lo) as [lo Hlo].
  { destruct (verse reference) as [[|v]|]; simpl; [by exists 1| |by exists 1].
    destruct (v =? 0); simpl; by eexists. }
  exists lo. destruct (endVerse reference) as [[|e]|]; simpl;
    [by exists lo| |by exists lo].
  destruct (e =? 0); simpl; by eexists.
Qed.

(** X9: on an open connection [getPassage] returns one entry per verse
    number that some row of the book and chapter carries within the range
    [verse || 1] to [endVerse || startVerse], excluded rows counting too;
    the entries come in strictly increasing verse order, so no verse is
    returned twice. *)
Theorem X9_getPassage_verses (reference : BibleReference) (w : world)
    (rows : list Row.t) :
  db w = Some rows →
  ∃ lo hi entries,
    verse_or_1 (verse reference) = JS.Num lo
    ∧ match endVerse reference with
      | Some e => if JS.truthy_number e then e else JS.Num lo
      | None => JS.Num lo
      end = JS.Num hi
    ∧ fst (getPassage reference w) = Return entries
    ∧ StronglySorted Z.lt (pv_verse <$> entries)
    ∧ ∀ v, v ∈ pv_verse <$> entries
           ↔ lo ≤ v ≤ hi
             ∧ ∃ r, r ∈ rows ∧ Row.book_num r = bookId reference
                    ∧ JS.Num (Database.Row.chapter r) = chapter reference
                    ∧ Database.Row.verse r = v.
Proof.
  intros Hdb. destruct (passage_range reference) as (lo & hi & Hlo & Hhi).
  exists lo, hi. eexists. split; [done|]. split; [done|].
  split; [by apply getPassage_open|]. cbv zeta. rewrite Hlo, Hhi.
  rewrite <- list_fmap_compose.
  change (pv_verse ∘ _) with (@id Z). rewrite list_fmap_id.
  split; [apply sql_distinct_verses_sorted|].
  intros v. apply elem_of_sql_distinct_verses.
Qed.

Lemma sorted_lt_constant (l : list Z) (z : Z) :
  StronglySorted Z.lt l → (∀ v, v ∈ l → v = z) → (length l ≤ 1)%nat.
Proof.
  intros Hs Hall. destruct l as [|a [|b l]]; simpl; [lia|lia|].
  apply StronglySorted_inv in Hs as [_ Ha].
  apply Forall_cons in Ha as [Hab _].
  rewrite (Hall a), (Hall b) in Hab; [lia|right; left|left].
Qed.

(** X10: for a reference without a verse and without an end verse, as
    [parseReference] builds it from a citation of a whole chapter,
    [getPassage] asks for the range from 1 to 1: it returns at most one
    entry, that of verse 1, never the chapter. *)
Theorem X10_getPassage_chapter_only (reference : BibleReference) (w : world)
    (rows : list Row.t) :
  db w = Some rows →
  verse reference = None ∨ verse reference = Some (JS.Num 0) →
  endVerse reference = None ∨ endVerse reference = Some (JS.Num 0) →
  ∃ entries,
    fst (getPassage reference w) = Return entries
    ∧ (length entries ≤ 1)%nat
    ∧ ∀ e, e ∈ entries →
        pv_verse e = 1
        ∧ pv_reference e
          = book reference +:+ " " +:+ JS.toString (chapter reference)
              +:+ ":1".
Proof.
  intros Hdb Hverse Hend. eexists. split; [by apply getPassage_open|].
  cbv zeta.
  assert (verse_or_1 (verse reference) = JS.Num 1) as ->
    by (by destruct Hverse as [-> | ->]).
  assert (match endVerse reference with
          | Some e => if JS.truthy_number e then e else JS.Num 1
          | None => JS.Num 1
          end = JS.Num 1) as -> by (by destruct Hend as [-> | ->]).
  assert (∀ v, v ∈ sql_distinct_verses rows (bookId reference)
                     (chapter reference) (JS.Num 1) (JS.Num 1) → v = 1)
    as Hone by (intros v [? _]%elem_of_sql_distinct_verses; lia).
  split.
  - rewrite length_fmap. eapply sorted_lt_constant; [|exact Hone].
    apply sql_distinct_verses_sorted.
  - intros e (v & -> & ->%Hone)%list_elem_of_fmap. done.
Qed.




Lemma order_by_nil {A} (le : A → A → bool) (l : list A) :
  order_by le l = [] ↔ l = [].
Proof.
  split; [|by intros ->]. destruct l as [|x l]; [done|]. intros H.
  assert (x ∈ order_by le (x :: l)) as Hin
    by (apply order_by_elem_of; left).
  rewrite H in Hin. by apply elem_of_nil in Hin.
Qed.

Lemma sql_verse_tokens_nil (rows : list Row.t) (bookId : string)
    (c v : Z) :
  sql_verse_tokens rows bookId (JS.Num c) (JS.Num v) = []
  ↔ ∀ r, r ∈ rows →
      ¬ (Row.book_num r = bookId ∧ Database.Row.chapter r = c
         ∧ Database.Row.verse r = v).
Proof.
  unfold sql_verse_tokens.
  assert (∀ l : list Row.t, select_token <$> l = [] ↔ l = []) as ->
    by (by intros [|??]).
  rewrite order_by_nil. split.
  - intros Hnil r Hr (Hb & Hc & Hv).
    assert (r ∈ filter (λ r, String.eqb (Row.book_num r) bookId
                             && sql_eq (Database.Row.chapter r) (JS.Num c)
                             && sql_eq (Database.Row.verse r) (JS.Num v) = true) rows)
      as Hin.
    { apply list_elem_of_filter. split; [|done]. simpl.
      rewrite Hb, Hc, Hv, String.eqb_refl, !Z.eqb_refl. done. }
    rewrite Hnil in Hin. by apply elem_of_nil in Hin.
  - intros Hall. destruct (filter _ rows) as [|r l] eqn:Hf; [done|].
    assert (r ∈ filter (λ r, String.eqb (Row.book_num r) bookId
                             && sql_eq (Database.Row.chapter r) (JS.Num c)
                             && sql_eq (Database.Row.verse r) (JS.Num v) = true) rows)
      as [Hc Hr]%list_elem_of_filter by (rewrite Hf; left).
    destruct (Hall r Hr). apply andb_prop in Hc as [Hc Hv].
    apply andb_prop in Hc as [Hb Hc]. apply String.eqb_eq in Hb.
    simpl in Hc, Hv. repeat split; [done|lia|lia].
Qed.

(** X12: on an open connection [getEnglishText] never throws, and it
    returns [null] exactly when the book ordinal is empty, or the chapter
    is 0 or [NaN], or the verse is absent, 0 or [NaN], or no row of the
    table carries that book, chapter and verse; otherwise it returns the
    join of the verse's tokens. *)
Theorem X12_getEnglishText_null (reference : BibleReference) (w : world)
    (rows : list Row.t) :
  db w = Some rows →
  ∃ o,
    fst (getEnglishText reference w) = Return o
    ∧ (o = None
       ↔ bookId reference = EmptyString
         ∨ JS.truthy_number (chapter reference) = false
         ∨ JS.truthy_opt JS.truthy_number (verse reference) = false
         ∨ ∀ r, r ∈ rows →
             ¬ (Row.book_num r = bookId reference
                ∧ JS.Num (Database.Row.chapter r) = chapter reference
                ∧ Some (JS.Num (Database.Row.verse r)) = verse reference)).
Proof.
  intros Hdb.
  destruct (JS.truthy_string (bookId reference)) eqn:Hb.
  2: { exists None. split; [|by split; [left; destruct (bookId reference)|]].
       unfold getEnglishText, mbind, M_bind.
       by rewrite (initDatabase_open w rows Hdb), Hb. }
  destruct (JS.truthy_number (chapter reference)) eqn:Hc.
  2: { exists None. split; [|by split; [right; left|]].
       unfold getEnglishText, mbind, M_bind.
       by rewrite (initDatabase_open w rows Hdb), Hb, Hc. }
  destruct (JS.truthy_opt JS.truthy_number (verse reference)) eqn:Hv.
  2: { exists None. split; [|by split; [right; right; left|]].
       unfold getEnglishText, mbind, M_bind.
       by rewrite (initDatabase_open w rows Hdb), Hb, Hc, Hv. }
  destruct (verse reference) as [[|v]|] eqn:Hverse; try done.
  destruct (chapter reference) as [|c] eqn:Hchapter; [done|].
  assert (JS.truthy_number (chapter reference) = true) as Hc'
    by (by rewrite Hchapter).
  pose proof (getEnglishText_open reference w rows (JS.Num v)
                Hdb Hb Hc' Hverse Hv) as Hopen.
  rewrite Hchapter in Hopen. eexists. split; [exact Hopen|].
  pose proof (sql_verse_tokens_nil rows (bookId reference) c v) as Hnil.
  destruct (sql_verse_tokens rows (bookId reference) (JS.Num c) (JS.Num v))
    as [|tok tokens].
  - split; [|done]. intros _. right. right. right.
    intros r Hr (? & ? & ?). apply (proj1 Hnil eq_refl r Hr).
    by simplify_eq.
  - split; [done|]. intros [?|[?|[?|Hall]]]; try done.
    + by destruct (bookId reference).
    + assert (tok :: tokens = []) as Habs; [|done].
      apply Hnil. intros r Hr (? & ? & ?). apply (Hall r Hr).
      by simplify_eq.
Qed.







Lemma X9_getPassage_verses_witness :
  ∃ lo hi entries,
    verse_or_1 (verse SampleDb.genesis_1_1) = JS.Num lo
    ∧ match endVerse SampleDb.genesis_1_1 with
      | Some e => if JS.truthy_number e then e else JS.Num lo
      | None => JS.Num lo
      end = JS.Num hi
    ∧ fst (getPassage SampleDb.genesis_1_1
             (World (Some SampleDb.rows) None [])) = Return entries
    ∧ StronglySorted Z.lt (pv_verse <$> entries)
    ∧ ∀ v, v ∈ pv_verse <$> entries
           ↔ lo ≤ v ≤ hi
             ∧ ∃ r, r ∈ SampleDb.rows
                    ∧ Row.book_num r = bookId SampleDb.genesis_1_1
                    ∧ JS.Num (Database.Row.chapter r) = chapter SampleDb.genesis_1_1
                    ∧ Database.Row.verse r = v.
Proof.
  apply (X9_getPassage_verses SampleDb.genesis_1_1
           (World (Some SampleDb.rows) None []) SampleDb.rows).
  reflexivity.
Defined.

Lemma X10_getPassage_chapter_only_witness :
  ∃ entries,
    fst (getPassage SampleDb.genesis_1 (World (Some SampleDb.rows) None []))
    = Return entries
    ∧ (length entries ≤ 1)%nat
    ∧ ∀ e, e ∈ entries →
        pv_verse e = 1
        ∧ pv_reference e
          = book SampleDb.genesis_1 +:+ " "
              +:+ JS.toString (chapter SampleDb.genesis_1) +:+ ":1".
Proof.
  apply (X10_getPassage_chapter_only SampleDb.genesis_1
           (World (Some SampleDb.rows) None []) SampleDb.rows).
  - reflexivity.
  - left. reflexivity.
  - left. reflexivity.
Defined.


Lemma X12_getEnglishText_null_witness :
  ∃ o,
    fst (getEnglishText SampleDb.genesis_1_1
           (World (Some SampleDb.rows) None [])) = Return o
    ∧ (o = None
       ↔ bookId SampleDb.genesis_1_1 = EmptyString
         ∨ JS.truthy_number (chapter SampleDb.genesis_1_1) = false
         ∨ JS.truthy_opt JS.truthy_number (verse SampleDb.genesis_1_1) = false
         ∨ ∀ r, r ∈ SampleDb.rows →
             ¬ (Row.book_num r = bookId SampleDb.genesis_1_1
                ∧ JS.Num (Database.Row.chapter r) = chapter SampleDb.genesis_1_1
                ∧ Some (JS.Num (Database.Row.verse r)) = verse SampleDb.genesis_1_1)).
Proof.
  apply (X12_getEnglishText_null SampleDb.genesis_1_1
           (World (Some SampleDb.rows) None []) SampleDb.rows).
  reflexivity.
Defined.

End Statements.

(** ** The matcher on canonical citations *)

Lemma length_cons (a : ascii) (s : string) :
  String.length (String a s) = S (String.length s).
Proof. reflexivity. Qed.

Lemma space_not_digit (a : ascii) :
  JS.is_space a = true → JS.is_digit a = false.
Proof.
  intros Hs. destruct (JS.is_digit a) eqn:Hd; [|done].
  destruct (digit_not_space_sign a Hd) as [Hn _]. congruence.
Qed.

Lemma digit_run_cons (t : string) :
  digit_run t →
  ∃ x t', t = String x t' ∧ JS.is_digit x = true ∧ all_digits t' = true.
Proof.
  intros [Ht Hne]. destruct t as [|x t']; [done|]. simpl in Ht.
  apply andb_prop in Ht as [Hx Ht]. by exists x, t'.
Qed.

Section Greedy.
Import Regex.
Context {R : Type}.
Implicit Types (k : string → captures → option R).

Lemma rmatch_star (r : regex) (s : string) (c : captures) k :
  rmatch (Star r) s c k = star_loop r k (String.length s) s c.
Proof. reflexivity. Qed.

Lemma rmatch_seq (r1 r2 : regex) (s : string) (c : captures) k :
  rmatch (Seq r1 r2) s c k = rmatch r1 s c (λ s' c', rmatch r2 s' c' k).
Proof. reflexivity. Qed.

Lemma rmatch_opt (r : regex) (s : string) (c : captures) k :
  rmatch (Opt r) s c k
  = or_else (rmatch r s c (λ s' c', progress s s' (k s' c'))) (k s c).
Proof. reflexivity. Qed.

Lemma progress_shorter (s s' : string) (x : option R) :
  (String.length s' < String.length s)%nat → progress s s' x = x.
Proof.
  intros Hlt. unfold progress.
  by destruct (Nat.ltb_spec (String.length s') (String.length s)); [|lia].
Qed.

Lemma progress_None (s s' : string) : progress s s' (@None R) = None.
Proof. unfold progress. by destruct (_ <? _)%nat. Qed.

(** [\s*] in front of a character that is not white space takes nothing. *)
Lemma star_space_skip (fuel : nat) (u : string) (c : captures) k :
  starts_with JS.is_space u = false →
  star_loop Space k fuel u c = k u c.
Proof.
  intros Hu. destruct fuel as [|fuel]; [done|]. simpl.
  destruct u as [|a u]; [done|]. simpl in *. by rewrite Hu.
Qed.

(** [\d*] is greedy: in front of a continuation that accepts what follows
    the digits, it takes them all. *)
Lemma star_digit_greedy (t u : string) (c : captures) k (res : R) :
  all_digits t = true → starts_with JS.is_digit u = false →
  k u c = Some res →
  ∀ fuel, (String.length t ≤ fuel)%nat →
    star_loop Digit k fuel (t +:+ u) c = Some res.
Proof.
  intros Ht Hu Hk. induction t as [|x t IH]; intros fuel Hfuel.
  - rewrite app_nil_l. destruct fuel as [|fuel]; [done|]. simpl.
    destruct u as [|a u]; [done|]. simpl in *. by rewrite Hu.
  - simpl in Ht. apply andb_prop in Ht as [Hx Ht].
    rewrite length_cons in Hfuel. destruct fuel as [|fuel]; [lia|].
    rewrite app_cons. simpl. rewrite Hx.
    rewrite progress_shorter by (rewrite length_cons; lia).
    rewrite IH; [done|done|lia].
Qed.

(** A capturing [(\d+)] in front of a digit run takes the whole run. *)
Lemma group_digits_greedy (n : nat) (t u : string) (c : captures) k
    (res : R) :
  digit_run t → starts_with JS.is_digit u = false →
  k u (<[n := Some t]> c) = Some res →
  rmatch (Group n (Plus Digit)) (t +:+ u) c k = Some res.
Proof.
  intros (x & t' & -> & Hx & Ht')%digit_run_cons Hu Hk.
  rewrite app_cons. simpl. rewrite Hx.
  apply (star_digit_greedy t' u c
           (λ s' c', k s' (<[n := Some (matched (String x (t' +:+ u)) s')]> c')));
    [done|done| |rewrite length_app_s; lia].
  change (String x (t' +:+ u)) with (String x t' +:+ u).
  by rewrite matched_app.
Qed.

(** [\s+] on one white-space character followed by something else. *)
Lemma plus_space_one (a : ascii) (u : string) (c : captures) k :
  JS.is_space a = true → starts_with JS.is_space u = false →
  rmatch (Plus Space) (String a u) c k = k u c.
Proof.
  intros Ha Hu. simpl. rewrite Ha. by apply star_space_skip.
Qed.

(** Where no white space followed by a digit starts, the numbers of a
    citation cannot start. *)
Lemma star_space_no_digit (fuel : nat) (t : string) (c : captures) k :
  (∀ s' c', starts_with JS.is_digit s' = false → k s' c' = None) →
  starts_with JS.is_digit (JS.skip_spaces t) = false →
  star_loop Space k fuel t c = None.
Proof.
  intros Hk. revert t. induction fuel as [|fuel IH]; intros t Ht.
  - simpl. apply Hk. destruct t as [|a t]; [done|]. simpl in *.
    destruct (JS.is_space a) eqn:Ha; [by apply space_not_digit|done].
  - simpl. destruct t as [|a t]; simpl in *; [by apply Hk|].
    destruct (JS.is_space a) eqn:Ha.
    + rewrite IH by done. rewrite progress_None. simpl.
      apply Hk. simpl. by apply space_not_digit.
    + simpl. by apply Hk.
Qed.

Lemma chapter_verse_none (s : string) (c : captures) k :
  numbers_follow s = false → rmatch chapter_verse s c k = None.
Proof.
  intros Hs. unfold chapter_verse. rewrite rmatch_seq.
  destruct s as [|a t]; [done|]. simpl in Hs. simpl rmatch at 1.
  destruct (JS.is_space a) eqn:Ha; [|done]. simpl in Hs.
  apply star_space_no_digit; [|done].
  intros s' c' Hs'. destruct s' as [|b s']; [done|]. simpl in *.
  by rewrite Hs'.
Qed.

Lemma or_else_Some_l (a b : option R) (res : R) :
  a = Some res → or_else a b = Some res.
Proof. by intros ->. Qed.

Lemma rmatch_chr_same (a : ascii) (s : string) (c : captures) k :
  rmatch (Chr a) (String a s) c k = k s c.
Proof. simpl. by rewrite Ascii.eqb_refl. Qed.

Lemma digit_run_not_space (t u : string) :
  digit_run t → starts_with JS.is_space (t +:+ u) = false.
Proof.
  intros (x & t' & -> & Hx & _)%digit_run_cons. simpl.
  by destruct (digit_not_space_sign x Hx) as [-> _].
Qed.

(** The numbers of a canonical citation are read greedily and in full. *)
Lemma chapter_verse_canonical (ch : string) (v e : option string)
    (c : captures) k (res : R) :
  digit_run ch → (∀ t, v = Some t → digit_run t) →
  (∀ u, e = Some u → digit_run u ∧ is_Some v) →
  k EmptyString (numbers_read c ch v e) = Some res →
  rmatch chapter_verse (" " +:+ ch +:+ verse_part v e) c k = Some res.
Proof.
  intros Hch Hv He Hk. unfold chapter_verse. rewrite rmatch_seq.
  change (" " +:+ ?x) with (String " " x).
  rewrite plus_space_one; [|done|by apply digit_run_not_space].
  rewrite rmatch_seq. apply group_digits_greedy; [done|by destruct v|].
  destruct v as [t|]; simpl verse_part.
  2: { destruct e as [u|]; [by destruct (He u eq_refl) as [_ [? ?]]|].
       exact Hk. }
  specialize (Hv t eq_refl). rewrite rmatch_opt. apply or_else_Some_l.
  change (":" +:+ ?x) with (String ":" x).
  rewrite rmatch_seq, rmatch_star, star_space_skip by done.
  rewrite rmatch_seq, rmatch_chr_same.
  rewrite rmatch_seq, rmatch_star, star_space_skip
    by (by apply digit_run_not_space).
  rewrite rmatch_seq. apply group_digits_greedy; [done|by destruct e|].
  destruct e as [u|]; simpl numbers_read in Hk.
  2: { simpl. rewrite progress_shorter; [done|].
       rewrite length_cons. simpl. lia. }
  destruct (He u eq_refl) as [Hu _]. rewrite rmatch_opt.
  apply or_else_Some_l. change ("-" +:+ ?x) with (String "-" x).
  rewrite rmatch_seq, rmatch_star, star_space_skip by done.
  rewrite rmatch_seq, rmatch_chr_same.
  rewrite rmatch_seq, rmatch_star, star_space_skip
    by (rewrite <- (app_empty_r u); by apply digit_run_not_space).
  rewrite <- (app_empty_r u) at 1.
  apply group_digits_greedy; [done|done|].
  rewrite !progress_shorter; [done| |]; rewrite length_cons; simpl; lia.
Qed.

End Greedy.

(** ** Where the numbers can start *)

Lemma elem_of_suffixes_self (s : string) : s ∈ suffixes s.
Proof. destruct s; left. Qed.

Lemma elem_of_suffixes_app_r (a b : string) : b ∈ suffixes (a +:+ b).
Proof.
  induction a as [|x a IH]; [apply elem_of_suffixes_self|].
  rewrite app_cons. simpl. by right.
Qed.

Lemma elem_of_suffixes_app (a b s' : string) :
  s' ∈ suffixes (a +:+ b) →
  (∃ x t, String x t ∈ suffixes a ∧ s' = String x t +:+ b)
  ∨ s' ∈ suffixes b.
Proof.
  induction a as [|x a IH]; [by right|]. rewrite app_cons. simpl.
  intros [->|Hin]%elem_of_cons.
  - left. exists x, a. split; [left|done].
  - destruct (IH Hin) as [(y & t & Ht & ->)|?]; [|by right].
    left. exists y, t. split; [by right|done].
Qed.

Lemma skip_spaces_app (t r : string) (d : ascii) (w : string) :
  JS.skip_spaces t = String d w →
  JS.skip_spaces (t +:+ r) = String d (w +:+ r).
Proof.
  induction t as [|a t IH]; [done|]. rewrite app_cons. simpl.
  destruct (JS.is_space a); [done|]. by intros [= -> ->].
Qed.

Lemma no_space_app (a b : string) :
  no_space (a +:+ b) = no_space a && no_space b.
Proof.
  induction a as [|x a IH]; [done|]. rewrite app_cons. simpl.
  by rewrite IH, andb_assoc.
Qed.

Lemma all_digits_no_space (t : string) :
  all_digits t = true → no_space t = true.
Proof.
  induction t as [|x t IH]; [done|]. simpl.
  intros [Hx Ht]%andb_prop.
  destruct (digit_not_space_sign x Hx) as [-> _]. by apply IH.
Qed.

Lemma no_space_numbers_follow (body s' : string) :
  no_space body = true → s' ∈ suffixes body → numbers_follow s' = false.
Proof.
  induction body as [|x body IH]; simpl.
  - by intros _ ->%list_elem_of_singleton.
  - intros [Hx Hb]%andb_prop [->|Hin]%elem_of_cons; [|by apply IH].
    simpl. by destruct (JS.is_space x).
Qed.

Lemma no_space_verse_part (v e : option string) :
  (∀ t, v = Some t → digit_run t) → (∀ u, e = Some u → digit_run u) →
  no_space (verse_part v e) = true.
Proof.
  intros Hv He. destruct v as [t|]; [|done].
  pose proof (all_digits_no_space t (proj1 (Hv t eq_refl))) as Ht.
  destruct e as [u|]; simpl verse_part; rewrite !no_space_app, Ht;
    [|done].
  by rewrite (all_digits_no_space u (proj1 (He u eq_refl))).
Qed.

Lemma quiet_suffix (name : string) (x : ascii) (t : string) :
  quiet name = true → String x t ∈ suffixes name →
  JS.is_space x = false
  ∨ ∃ d w, JS.skip_spaces t = String d w ∧ JS.is_digit d = false.
Proof.
  intros Hq Hin. unfold quiet in Hq.
  apply list_elem_of_In in Hin.
  pose proof (proj1 (forallb_forall _ _) Hq _ Hin) as H. simpl in H.
  apply orb_prop in H as [H|H].
  - left. by destruct (JS.is_space x).
  - right. destruct (JS.skip_spaces t) as [|d w]; [done|].
    exists d, w. split; [done|]. simpl in H. by destruct (JS.is_digit d).
Qed.

(** In a canonical citation of a quiet name, the numbers can start at one
    place only: after the name. *)
Lemma numbers_follow_unique (name ch : string) (v e : option string)
    (s' : string) :
  quiet name = true → digit_run ch →
  (∀ t, v = Some t → digit_run t) → (∀ u, e = Some u → digit_run u) →
  s' ∈ suffixes (citation name ch v e) →
  s' = " " +:+ ch +:+ verse_part v e ∨ numbers_follow s' = false.
Proof.
  intros Hq Hch Hv He Hin. unfold citation in Hin.
  apply elem_of_suffixes_app in Hin as [(x & t & Hxt & ->)|Hin].
  - right. rewrite app_cons. simpl.
    destruct (quiet_suffix name x t Hq Hxt) as [->|(d & w & Hs & Hd)];
      [done|].
    rewrite (skip_spaces_app _ _ _ _ Hs). simpl. rewrite Hd.
    by rewrite andb_false_r.
  - change (" " +:+ ?x) with (String " " x) in Hin. simpl in Hin.
    apply elem_of_cons in Hin as [->|Hin]; [by left|]. right.
    eapply no_space_numbers_follow; [|exact Hin].
    rewrite no_space_app, no_space_verse_part by done.
    by rewrite all_digits_no_space by apply Hch.
Qed.

(** ** [trim] on a citation *)

Lemma rev_string_rev_string (s a b : string) :
  JS.rev_string a (JS.rev_string b s) = JS.rev_string (s +:+ a) b.
Proof.
  revert a b. induction s as [|x s IH]; intros a b; [done|].
  simpl JS.rev_string at 2. by rewrite IH.
Qed.

Lemma rev_string_app (acc w u : string) :
  JS.rev_string acc (w +:+ u) = JS.rev_string (JS.rev_string acc w) u.
Proof.
  revert acc. induction w as [|x w IH]; intros acc; [done|].
  rewrite app_cons. simpl. apply IH.
Qed.

(** [trim] leaves alone a string that neither starts nor ends with white
    space. *)
Lemma trim_id (w : string) (x : ascii) :
  starts_with (λ a, negb (JS.is_space a)) (w +:+ String x EmptyString) = true →
  JS.is_space x = false →
  JS.trim (w +:+ String x EmptyString) = w +:+ String x EmptyString.
Proof.
  intros Hfirst Hlast. unfold JS.trim.
  assert (JS.skip_spaces (w +:+ String x EmptyString)
          = w +:+ String x EmptyString) as ->.
  { destruct (w +:+ String x EmptyString) as [|a s]; [done|]. simpl in *.
    by destruct (JS.is_space a). }
  rewrite rev_string_app. simpl JS.rev_string at 2.
  simpl JS.skip_spaces. rewrite Hlast.
  change (String x (JS.rev_string EmptyString w))
    with (JS.rev_string (JS.rev_string EmptyString w) (String x EmptyString)).
  rewrite <- rev_string_app, rev_string_rev_string. apply app_empty_r.
Qed.

Lemma digit_run_last (d : string) :
  digit_run d →
  ∃ w x, d = w +:+ String x EmptyString ∧ JS.is_digit x = true.
Proof.
  intros [Hd Hne]. induction d as [|a d IH]; [done|]. simpl in Hd.
  apply andb_prop in Hd as [Ha Hd]. destruct d as [|a' d'].
  - by exists EmptyString, a.
  - destruct IH as (w & x & Hw & Hx); [done|done|].
    exists (String a w), x. by rewrite app_cons, <- Hw.
Qed.

Lemma citation_last (name ch : string) (v e : option string) :
  digit_run ch → (∀ t, v = Some t → digit_run t) →
  (∀ u, e = Some u → digit_run u) →
  ∃ w x, citation name ch v e = w +:+ String x EmptyString
         ∧ JS.is_digit x = true.
Proof.
  intros Hch Hv He. unfold citation.
  destruct v as [t|]; [destruct e as [u|]|]; simpl verse_part.
  - destruct (digit_run_last u (He u eq_refl)) as (w & x & -> & Hx).
    exists (name +:+ " " +:+ ch +:+ ":" +:+ t +:+ "-" +:+ w), x.
    by rewrite !app_assoc_s.
  - destruct (digit_run_last t (Hv t eq_refl)) as (w & x & -> & Hx).
    exists (name +:+ " " +:+ ch +:+ ":" +:+ w), x.
    by rewrite !app_assoc_s, !app_empty_r.
  - destruct (digit_run_last ch Hch) as (w & x & -> & Hx).
    exists (name +:+ " " +:+ w), x. by rewrite !app_assoc_s, !app_empty_r.
Qed.

Lemma trim_citation (name ch : string) (v e : option string) :
  starts_with (λ a, negb (JS.is_space a)) name = true →
  digit_run ch → (∀ t, v = Some t → digit_run t) →
  (∀ u, e = Some u → digit_run u) →
  JS.trim (citation name ch v e) = citation name ch v e.
Proof.
  intros Hname Hch Hv He.
  destruct (citation_last name ch v e Hch Hv He) as (w & x & Heq & Hx).
  assert (starts_with (λ a, negb (JS.is_space a)) (citation name ch v e)
          = true) as Hfirst.
  { unfold citation. destruct name as [|a name]; [done|].
    by rewrite app_cons. }
  rewrite Heq in *. apply trim_id; [done|].
  by destruct (digit_not_space_sign x Hx) as [-> _].
Qed.

(** ** Canonical citations are parsed *)

Lemma matched_nil (s : string) : Regex.matched s EmptyString = s.
Proof.
  unfold Regex.matched. simpl. rewrite Nat.sub_0_r. apply substring_whole.
Qed.

Lemma strip_ci_app (a r : string) : strip_ci a (a +:+ r) = Some r.
Proof.
  induction a as [|x a IH]; [done|]. rewrite app_cons. simpl.
  by rewrite Ascii.eqb_refl.
Qed.

Lemma app_inv_tail_s (a b r : string) : a +:+ r = b +:+ r → a = b.
Proof.
  revert b. induction a as [|x a IH]; intros [|y b] H.
  - done.
  - apply (f_equal String.length) in H.
    rewrite app_nil_l, app_cons, length_cons, length_app_s in H. lia.
  - apply (f_equal String.length) in H.
    rewrite app_nil_l, app_cons, length_cons, length_app_s in H. lia.
  - rewrite !app_cons in H. injection H as -> H. f_equal. by apply IH.
Qed.

Lemma step_star_space_run (s s' : string) (c c' : Regex.captures) :
  step (Regex.Star Regex.Space) s c s' c' →
  ∃ u, s = u +:+ s' ∧ ∀ r, JS.skip_spaces (u +:+ r) = JS.skip_spaces r.
Proof.
  intros [n Hn]. revert s c Hn. induction n as [|n IH]; intros s c Hn.
  - destruct Hn as [-> ->]. by exists EmptyString.
  - destruct Hn as (s1 & c1 & (b & -> & Hb & ->) & Hn).
    apply IH in Hn as (u & -> & Hu). exists (String b u). split; [done|].
    intros r. rewrite app_cons. simpl. by rewrite Hb.
Qed.

Lemma exec_first (r : Regex.regex) (n : nat) (s : string)
    (caps : Regex.captures) :
  Regex.rmatch r s (replicate (S n) None)
    (λ s' c, Some (<[O := Some (Regex.matched s s')]> c)) = Some caps →
  Regex.exec r n s = Some caps.
Proof. intros H. destruct s; simpl; simpl in H; by rewrite H. Qed.

Section Canonical.
Import Regex.
Variable bibleData : list Book.entry.

Lemma verseRegex_canonical (b : Book.entry) (ch : string)
    (v e : option string) :
  b ∈ bibleData → quiet (Book.name b) = true →
  digit_run ch → (∀ t, v = Some t → digit_run t) →
  (∀ u, e = Some u → digit_run u ∧ is_Some v) →
  ∃ prefix bookName,
    exec (verseRegex bibleData) 5 (citation (Book.name b) ch v e)
    = Some [Some (citation (Book.name b) ch v e); prefix; Some bookName;
            Some ch; v; e]
    ∧ bookKey_of prefix bookName = JS.toLowerCase (Book.name b).
Proof.
  intros Hb Hq Hch Hv He.
  assert (∀ u, e = Some u → digit_run u) as He'
    by (intros u Hu; by destruct (He u Hu)).
  set (rest := " " +:+ ch +:+ verse_part v e).
  set (s := citation (Book.name b) ch v e).
  assert (s = Book.name b +:+ rest) as Hs by done.
  set (kfin := λ (s' : string) (c : captures),
                 Some (<[O := Some (matched s s')]> c)).
  assert (∀ s', s' ∈ suffixes s → s' = rest ∨ numbers_follow s' = false)
    as Huniq by (intros s'; by apply numbers_follow_unique).
  assert (∀ c, rmatch chapter_verse rest c kfin
               = Some (<[O := Some s]> (numbers_read c ch v e))) as Hread.
  { intros c. apply chapter_verse_canonical; [done..|].
    unfold kfin. by rewrite matched_nil. }
  assert (rmatch (book_group bibleData) s (replicate 6 None) kfin
          = Some [Some s; None; Some (Book.name b); Some ch; v; e]) as HA.
  { apply (book_group_unique bibleData s rest).
    - exists b, (Book.name b). repeat split; [done|left|].
      rewrite Hs. apply strip_ci_app.
    - unfold after_book. rewrite Hread, Hs, matched_app.
      destruct v, e; try done. by destruct (He _ eq_refl) as [_ [? ?]].
    - intros s' Hs'. destruct (Huniq s' Hs') as [->|Hno]; [by left|right].
      by apply chapter_verse_none. }
  destruct (rmatch (Group 1 (Seq (Plus Digit) (Plus Space))) s
              (replicate 6 None)
              (λ s' c', progress s s'
                          (rmatch (book_group bibleData) s' c' kfin)))
    as [capsB|] eqn:HX.
  2: { exists None, (Book.name b). split; [|done].
       apply exec_first. fold kfin.
       change (rmatch (verseRegex bibleData) s (replicate 6 None) kfin)
         with (or_else
                 (rmatch (Group 1 (Seq (Plus Digit) (Plus Space))) s
                    (replicate 6 None)
                    (λ s' c', progress s s'
                                (rmatch (book_group bibleData) s' c' kfin)))
                 (rmatch (book_group bibleData) s (replicate 6 None) kfin)).
       by rewrite HX, HA. }
  pose proof HX as HX'.
  apply rmatch_inv in HX' as (s1 & c1 & Hstep & Hk).
  apply progress_inv in Hk.
  destruct Hstep as (c' & (sm & cm & Hd & Hsp) & ->).
  apply step_plus_digit in Hd as (-> & t & Hst & Ht).
  destruct Hsp as (s2 & c2 & (x & Hsm & Hx & ->) & Hstar).
  pose proof (step_star_space _ _ _ _ Hstar) as ->.
  apply step_star_space_run in Hstar as (u & -> & Hu).
  rewrite rmatch_book_group in Hk.
  apply rmatch_inv in Hk as (s3 & c3 & Halt & Hcv).
  pose proof (step_prefix _ _ _ _ _ Halt) as [bn ->].
  apply step_alternatives in Halt as [-> _].
  rewrite matched_app in Hcv.
  set (p := t +:+ String x u) in *.
  assert (s = (p +:+ bn) +:+ s3) as Hs3.
  { rewrite Hst, Hsm. unfold p. by rewrite !app_assoc_s, !app_cons. }
  assert (s3 = rest) as ->.
  { destruct (Huniq s3) as [?|Hno]; [|done|].
    - rewrite Hs3. apply elem_of_suffixes_app_r.
    - by rewrite chapter_verse_none in Hcv. }
  assert (p +:+ bn = Book.name b) as Hname
    by (apply (app_inv_tail_s _ _ rest); by rewrite <- Hs3).
  assert (matched s (bn +:+ rest) = p) as Hp.
  { rewrite Hs3, app_assoc_s. apply matched_app. }
  rewrite Hp, Hread in Hcv. injection Hcv as <-.
  assert (bn ≠ EmptyString) as Hbn.
  { intros ->. rewrite app_nil_l in Hsm.
    destruct (Huniq sm) as [Heq|Hno].
    - rewrite Hst. apply elem_of_suffixes_app_r.
    - apply (f_equal String.length) in Heq.
      rewrite Hsm, length_cons, length_app_s in Heq. lia.
    - rewrite Hsm in Hno. simpl in Hno. rewrite Hx, Hu in Hno.
      unfold rest in Hno. change (" " +:+ ?y) with (String " " y) in Hno.
      simpl in Hno.
      destruct (digit_run_cons ch Hch) as (d & ch' & -> & Hd & _).
      rewrite app_cons in Hno. simpl in Hno.
      destruct (digit_not_space_sign d Hd) as [Hnsp _].
      rewrite Hnsp in Hno. simpl in Hno. congruence. }
  exists (Some p), bn. split.
  - apply exec_first. fold kfin.
    change (rmatch (verseRegex bibleData) s (replicate 6 None) kfin)
      with (or_else
              (rmatch (Group 1 (Seq (Plus Digit) (Plus Space))) s
                 (replicate 6 None)
                 (λ s' c', progress s s'
                             (rmatch (book_group bibleData) s' c' kfin)))
              (rmatch (book_group bibleData) s (replicate 6 None) kfin)).
    rewrite HX. simpl.
    destruct v, e; try done. by destruct (He _ eq_refl) as [_ [? ?]].
  - unfold bookKey_of. simpl.
    assert (JS.truthy_string p = true) as ->.
    { unfold p. destruct Ht as [_ Hne]. by destruct t. }
    assert (JS.truthy_string bn = true) as -> by (by destruct bn).
    simpl. by rewrite Hname.
Qed.

(** X14: a citation in canonical form is parsed to its book. For a row
    of the catalog that its own lower-cased name resolves to in
    [bookNameMap], whose name starts with a character that is not white
    space and has no white space followed by a digit, the text
    [<name> <chapter>], [<name> <chapter>:<verse>] or
    [<name> <chapter>:<verse>-<endVerse>], the numbers being runs of
    digits, parses to the reference of that row with those numbers,
    whatever the other names and abbreviations of the catalog are, and
    whether or not the name starts with a number. *)
Theorem X14_parse_canonical_citation (b : Book.entry) (ch : string)
    (v e : option string) :
  JsMap.get (JS.toLowerCase (Book.name b)) (bookNameMap bibleData) = Some b →
  starts_with (λ a, negb (JS.is_space a)) (Book.name b) = true →
  quiet (Book.name b) = true →
  digit_run ch → (∀ t, v = Some t → digit_run t) →
  (∀ u, e = Some u → digit_run u ∧ is_Some v) →
  parseReference bibleData (citation (Book.name b) ch v e)
  = Some (reference_of b ch v e).
Proof.
  intros Hget Hfirst Hq Hch Hv He.
  destruct (named_book_alias _ _ _ Hget) as [Hb _].
  destruct (verseRegex_canonical b ch v e Hb Hq Hch Hv He)
    as (prefix & bookName & Hexec & Hkey).
  unfold parseReference. rewrite trim_citation; [|done..|].
  2: { intros u Hu. by destruct (He u Hu). }
  rewrite Hexec. unfold lookup_book. by rewrite Hkey, Hget.
Qed.

End Canonical.

Lemma X14_parse_canonical_citation_witness :
  parseReference Sample.bibleData
    (citation (Book.name Sample.john1) "3" (Some "16") (Some "18"))
  = Some (reference_of Sample.john1 "3" (Some "16") (Some "18")).
Proof.
  apply (X14_parse_canonical_citation Sample.bibleData Sample.john1).
  - vm_compute. reflexivity.
  - reflexivity.
  - reflexivity.
  - by split.
  - intros t [= <-]. by split.
  - intros u [= <-]. split; [by split|by eexists].
Defined.

(** ** Decimal text of a number *)





Lemma all_digits_uint (d : Decimal.uint) :
  all_digits (NilEmpty.string_of_uint d) = true.
Proof. induction d; simpl; done. Qed.


(** ** Formatting, then parsing *)



Section FormatParse.
Variable bibleData : list Book.entry.


End FormatParse.


(** ** Letter case *)











(** The matcher does on the lower-cased input what it does on the input,
    in lower case. *)
Section CaseSim.
Import Regex.
Context {R R' : Type} (g : R → R').
Implicit Types (k : string → captures → option R)
  (kl : string → captures → option R').






End CaseSim.






Section CaseInsensitive.
Variable bibleData : list Book.entry.



End CaseInsensitive.


(** ** The tool *)

Section Tool.
Import Database.
Variable bibleData : list Book.entry.

(** X17: a citation that parses to a reference without a verse, with the
    verse 0 or with the chapter 0 (a whole chapter such as "John 3", or
    "John 3:0", or "John 0:5") always gets the answer "No text found for
    reference", with the citation as typed between quotes, and no
    statement is run on the token table; the database only has to be
    open or there to open. *)
Theorem X17_tool_whole_chapter (reference : string) (r : BibleReference)
    (w : world) :
  parseReference bibleData reference = Some r →
  verse r = None ∨ verse r = Some (JS.Num 0) ∨ chapter r = JS.Num 0 →
  is_Some (db w) ∨ is_Some (file w) →
  ∃ w', getEnglishText_tool bibleData reference w
        = (Return (no_text_found_text reference), w')
        ∧ issued w' = issued w.
Proof.
  intros Hparse Hcase Hready.
  destruct (initDatabase_ready w Hready) as (w' & Hinit & Hissued & _).
  exists w'. split; [|done].
  unfold getEnglishText_tool. rewrite Hparse.
  unfold mbind at 1, M_bind at 1.
  unfold getEnglishText, mbind, M_bind. rewrite Hinit.
  assert (negb (JS.truthy_string (bookId r))
          || negb (JS.truthy_number (chapter r))
          || negb (JS.truthy_opt JS.truthy_number (verse r)) = true) as ->.
  { destruct Hcase as [-> | [-> | ->]]; simpl;
      by rewrite ?orb_true_r. }
  done.
Qed.

Lemma getEnglishText_guard (r : BibleReference) (w : world)
    (rows : list Row.t) :
  db w = Some rows →
  JS.truthy_string (bookId r) = false
  ∨ JS.truthy_number (chapter r) = false
  ∨ JS.truthy_opt JS.truthy_number (verse r) = false →
  getEnglishText r w = (Return None, w).
Proof.
  intros Hdb Hguard. unfold getEnglishText, mbind, M_bind.
  rewrite (initDatabase_open w rows Hdb).
  assert (negb (JS.truthy_string (bookId r))
          || negb (JS.truthy_number (chapter r))
          || negb (JS.truthy_opt JS.truthy_number (verse r)) = true) as ->.
  { destruct Hguard as [-> | [-> | ->]]; simpl; by rewrite ?orb_true_r. }
  done.
Qed.

(** X18: the answer of the tool on an open connection, from the citation
    to the rows. A citation that does not parse gets the "Invalid Bible
    reference" text. One that parses gets the join, in position order, of
    all the tokens stored for its book, chapter and verse, excluded ones
    too, when the book ordinal is not empty, chapter and verse are not 0
    and that join is not empty; it gets the "No text found" text
    otherwise. The end verse of the citation plays no part. *)
Theorem X18_tool_answer (reference : string) (w : world)
    (rows : list Row.t) :
  db w = Some rows →
  fst (getEnglishText_tool bibleData reference w)
  = Return
      match parseReference bibleData reference with
      | None => invalid_reference_text reference
      | Some r =>
          match chapter r, verse r with
          | JS.Num c, Some (JS.Num v) =>
              let text :=
                join_tokens
                  (sql_verse_tokens rows (bookId r) (JS.Num c) (JS.Num v)) in
              if negb (JS.truthy_string (bookId r)) || (c =? 0) || (v =? 0)
                 || negb (JS.truthy_string text)
              then no_text_found_text reference
              else text
          | _, _ => no_text_found_text reference
          end
      end.
Proof.
  intros Hdb. unfold getEnglishText_tool.
  destruct (parseReference bibleData reference) as [r|]; [|done].
  unfold mbind at 1, M_bind at 1.
  destruct (chapter r) as [|c] eqn:Hc.
  { rewrite (getEnglishText_guard r w rows Hdb); [done|].
    right. left. by rewrite Hc. }
  destruct (verse r) as [[|v]|] eqn:Hv.
  1, 3: rewrite (getEnglishText_guard r w rows Hdb); [done|];
    right; right; by rewrite Hv.
  destruct (JS.truthy_string (bookId r)) eqn:Hb.
  2: { rewrite (getEnglishText_guard r w rows Hdb); [done|by left]. }
  destruct (Z.eqb_spec c 0) as [->|Hc0].
  { rewrite (getEnglishText_guard r w rows Hdb); [done|].
    right. left. by rewrite Hc. }
  destruct (Z.eqb_spec v 0) as [->|Hv0].
  { rewrite (getEnglishText_guard r w rows Hdb); [done|].
    right. right. by rewrite Hv. }
  assert (JS.truthy_number (chapter r) = true) as Hct
    by (rewrite Hc; simpl; by destruct (Z.eqb_spec c 0)).
  assert (JS.truthy_number (JS.Num v) = true) as Hvt
    by (simpl; by destruct (Z.eqb_spec v 0)).
  pose proof (getEnglishText_open r w rows (JS.Num v) Hdb Hb Hct Hv Hvt)
    as Hopen.
  rewrite Hc in Hopen. simpl negb. simpl orb. cbv zeta.
  destruct (sql_verse_tokens rows (bookId r) (JS.Num c) (JS.Num v))
    as [|tok tokens].
  - destruct (getEnglishText r w) as [o w'']. simpl in Hopen. by subst o.
  - revert Hopen. generalize (join_tokens (tok :: tokens)). intros txt Hopen.
    destruct (getEnglishText r w) as [o w'']. simpl in Hopen. subst o.
    simpl. by destruct (JS.truthy_string txt).
Qed.

End Tool.

Lemma X17_tool_whole_chapter_witness :
  ∃ w', getEnglishText_tool Sample.bibleData "John 3" SampleDb.closed
        = (Database.Return (no_text_found_text "John 3"), w')
        ∧ Database.issued w' = Database.issued SampleDb.closed.
Proof.
  apply (X17_tool_whole_chapter Sample.bibleData "John 3"
           (mkRef "John" "43" (JS.Num 3) None None "NT" "John")).
  - vm_compute. reflexivity.
  - left. reflexivity.
  - right. by eexists.
Defined.

Lemma X18_tool_answer_witness :
  fst (getEnglishText_tool Sample.bibleData "Gen 1:1-2"
         (Database.World (Some SampleDb.rows) None []))
  = Database.Return
      match parseReference Sample.bibleData "Gen 1:1-2" with
      | None => invalid_reference_text "Gen 1:1-2"
      | Some r =>
          match chapter r, verse r with
          | JS.Num c, Some (JS.Num v) =>
              let text :=
                join_tokens
                  (Database.sql_verse_tokens SampleDb.rows (bookId r)
                     (JS.Num c) (JS.Num v)) in
              if negb (JS.truthy_string (bookId r)) || (c =? 0) || (v =? 0)
                 || negb (JS.truthy_string text)
              then no_text_found_text "Gen 1:1-2"
              else text
          | _, _ => no_text_found_text "Gen 1:1-2"
          end
      end.
Proof.
  apply (X18_tool_answer Sample.bibleData "Gen 1:1-2"
           (Database.World (Some SampleDb.rows) None []) SampleDb.rows).
  reflexivity.
Defined.

(** ** The names the module reports *)

Section Reported.
Variable bibleData : list Book.entry.

(** X19: every name that [getBookNames] lists, and every name or
    abbreviation that [getBookAliases] lists for an ordinal, is recognised
    by the parser: its escaped text is an alternative of the regex and its
    lower-cased text is a key of [bookNameMap]. [getBookNames] has one
    name per row of the catalog, in order; [getBookAliases] is empty
    exactly for an ordinal that no row carries, and otherwise lists the
    name and abbreviations of a row with that ordinal. *)
Theorem X19_reported_names_recognised (bookId : string) :
  length (getBookNames bibleData) = length bibleData
  ∧ (∀ n, n ∈ getBookNames bibleData →
       JS.escapeRegex n ∈ bookPatterns bibleData
       ∧ is_Some (JsMap.get (JS.toLowerCase n) (bookNameMap bibleData)))
  ∧ (getBookAliases bibleData bookId = []
     ↔ ∀ b, b ∈ bibleData → Book.ord b ≠ bookId)
  ∧ (∀ a, a ∈ getBookAliases bibleData bookId →
       JS.escapeRegex a ∈ bookPatterns bibleData
       ∧ is_Some (JsMap.get (JS.toLowerCase a) (bookNameMap bibleData))
       ∧ ∃ b, b ∈ bibleData ∧ Book.ord b = bookId
              ∧ getBookAliases bibleData bookId
                = Book.name b :: Book.abbreviations b).
Proof.
  split; [apply length_fmap|]. split.
  { intros n (b & -> & Hb)%list_elem_of_fmap. split.
    - by apply bookPatterns_name.
    - apply (bookNameMap_alias_key bibleData b); [done|left]. }
  unfold getBookAliases.
  destruct (bookNumberMap bibleData !! bookId) as [b|] eqn:Hlook.
  - destruct (bookNumberMap_Some _ _ _ Hlook) as [Hb Hord]. split.
    + split; [done|]. intros Hnone. by destruct (Hnone b Hb).
    + intros a Ha. split; [|split].
      * apply elem_of_bookPatterns. by exists b, a.
      * by apply (bookNameMap_alias_key bibleData b).
      * by exists b.
  - split; [|by intros a ?%elem_of_nil].
    split; [intros _; by apply bookNumberMap_None|done].
Qed.

End Reported.

(** ** The import *)

Lemma JsMap_get_is_Some {V} (k : string) (m : JsMap.t V) :
  is_Some (JsMap.get k m) ↔ k ∈ JsMap.keys m.
Proof.
  unfold JsMap.keys. induction m as [|[k0 v0] m IH]; simpl.
  - split; [by intros [? ?]|by intros ?%elem_of_nil].
  - destruct (String.eqb_spec k0 k) as [->|Hne].
    + split; [intros _; left|by eexists].
    + rewrite IH, elem_of_cons. split; [by right|].
      intros [?|?]; [congruence|done].
Qed.

Lemma bookNames_keys : JsMap.keys bookNames = pad2 <$> seq 1 66.
Proof. vm_compute. reflexivity. Qed.

Lemma bookNames_values :
  Forall (λ kv : string * string, JS.truthy_string kv.2 = true) bookNames.
Proof. repeat constructor. Qed.

Lemma y_flag_spec (x : string) :
  (y_flag x = 1 ↔ x = "y") ∧ (y_flag x = 0 ↔ x ≠ "y").
Proof.
  unfold y_flag. destruct (String.eqb_spec x "y"); split; split; try done.
Qed.

(** X20: the import stores a token under what the reference utilities
    decode from its id. A record is skipped exactly when its id has fewer
    than 8 characters. Otherwise the book number, chapter and verse
    stored are those of the reference that [parseVerseId] returns for the
    id, in any catalog that knows the book; the word position stored is
    [parseWordPosition] of the id; the book name stored is not empty
    exactly when the first two characters are one of the ordinals 01 to
    66; and the two flags are 1 for the text "y" and 0 for anything
    else. *)
Theorem X20_import_token_decodes (id text skip_space_after exclude : string) :
  (import_token id text skip_space_after exclude = None
   ↔ (String.length id < 8)%nat)
  ∧ ∀ p, import_token id text skip_space_after exclude = Some p →
      ins_id p = id ∧ ins_text p = text
      ∧ ins_word_position p = parseWordPosition id
      ∧ (ins_skip_space_after p = 1 ↔ skip_space_after = "y")
      ∧ (ins_skip_space_after p = 0 ↔ skip_space_after ≠ "y")
      ∧ (ins_exclude p = 1 ↔ exclude = "y")
      ∧ (ins_exclude p = 0 ↔ exclude ≠ "y")
      ∧ (ins_book_name p ≠ EmptyString
         ↔ ∃ n, (1 ≤ n ≤ 66)%nat ∧ ins_book_num p = pad2 n)
      ∧ ∀ bibleData r, parseVerseId bibleData id = Some r →
          bookId r = ins_book_num p
          ∧ chapter r = ins_chapter p
          ∧ verse r = Some (ins_verse p).
Proof.
  assert ((if JS.truthy_string id && (11 <=? String.length id)%nat
           then JS.parseInt (JS.substring 8 11 id) else JS.Num 0)
          = parseWordPosition id) as Hwp.
  { unfold parseWordPosition. rewrite truthy_string_length.
    by destruct (Nat.ltb_spec (String.length id) 11),
                (Nat.leb_spec 11 (String.length id)),
                (Nat.eqb_spec (String.length id) 0); try lia. }
  unfold import_token. rewrite Hwp, truthy_string_length.
  remember (JsMap.get (JS.substring 0 2 id) bookNames) as looked eqn:Hlook.
  destruct (Nat.ltb_spec (String.length id) 8) as [Hlt|Hge].
  { rewrite orb_true_r. by split. }
  destruct (Nat.eqb_spec (String.length id) 0) as [?|_]; [lia|].
  cbn [negb orb andb].
  split; [split; [done|lia]|]. intros p [= <-].
  destruct (y_flag_spec skip_space_after) as [Hs1 Hs0].
  destruct (y_flag_spec exclude) as [He1 He0].
  cbn [ins_id ins_text ins_word_position ins_skip_space_after ins_exclude
       ins_book_name ins_book_num ins_chapter ins_verse].
  split; [done|]. split; [done|]. split; [done|].
  split; [done|]. split; [done|]. split; [done|]. split; [done|]. split.
  { symmetry in Hlook. split.
    - intros Hname. destruct looked as [name|]; [|done].
      rename Hlook into Hget.
      assert (JS.substring 0 2 id ∈ JsMap.keys bookNames) as Hin
        by (apply JsMap_get_is_Some; by eexists).
      rewrite bookNames_keys in Hin.
      apply list_elem_of_fmap in Hin as (n & Hn & Hseq).
      apply elem_of_seq in Hseq. exists n. split; [lia|done].
    - intros (n & Hn & Hnum).
      assert (JS.substring 0 2 id ∈ JsMap.keys bookNames) as Hin.
      { rewrite bookNames_keys, Hnum. apply list_elem_of_fmap. exists n.
        split; [done|]. apply elem_of_seq. lia. }
      apply JsMap_get_is_Some in Hin as [name Hget].
      rewrite Hget in Hlook. subst looked.
      apply JsMap_get_elem_of in Hget.
      pose proof (proj1 (Forall_forall _ _) bookNames_values _ Hget)
        as Hname.
      simpl in Hname. rewrite Hname. by destruct name. }
  intros bibleData r Hr. unfold parseVerseId in Hr.
  rewrite truthy_string_length in Hr.
  destruct (Nat.ltb_spec (String.length id) 8); [lia|].
  destruct (Nat.eqb_spec (String.length id) 0); [lia|]. simpl in Hr.
  destruct (bookNumberMap bibleData !! _); by simplify_eq.
Qed.

(** ** The resource *)

Lemma strip_ci_length_eq (p s s' : string) :
  strip_ci p s = Some s' →
  String.length s = (String.length p + String.length s')%nat.
Proof.
  revert s. induction p as [|a p IH]; intros s; simpl.
  - by intros [= ->].
  - destruct s as [|b s]; [done|]. destruct (Ascii.eqb _ _); [|done].
    intros H%IH. simpl. lia.
Qed.

Lemma suffixes_length (s s' : string) :
  s' ∈ suffixes s → (String.length s' ≤ String.length s)%nat.
Proof.
  induction s as [|b s IH]; simpl.
  - by intros ->%list_elem_of_singleton.
  - intros [->|Hin]%elem_of_cons; [done|]. apply IH in Hin. lia.
Qed.

Lemma suffixes_trans (s s' s'' : string) :
  s' ∈ suffixes s → s'' ∈ suffixes s' → s'' ∈ suffixes s.
Proof.
  induction s as [|b s IH]; simpl.
  - by intros ->%list_elem_of_singleton.
  - intros [->|Hin]%elem_of_cons Hs''; [done|]. right. by apply IH.
Qed.

(** Where the numbers of a citation start, white space followed by a
    digit starts. *)
Lemma step_chapter_verse_follow (s s' : string) (c c' : Regex.captures) :
  step chapter_verse s c s' c' → numbers_follow s = true.
Proof.
  intros (s1 & c1 & Hsp & s2 & c2 & Hd & _).
  destruct Hsp as (s0 & c0 & (x & -> & Hx & ->) & Hstar).
  apply step_star_space_run in Hstar as (u & -> & Hu).
  destruct Hd as (c3 & Hd & _).
  apply step_plus_digit in Hd as (_ & t & -> & Ht).
  destruct (digit_run_cons t Ht) as (d & t' & -> & Hd & _).
  unfold numbers_follow. rewrite Hx, Hu, !app_cons.
  unfold JS.skip_spaces.
  destruct (digit_not_space_sign d Hd) as [-> _]. simpl. by rewrite Hd.
Qed.

Lemma toString_no_space (n : JS.number) : no_space (JS.toString n) = true.
Proof.
  destruct n as [|z]; [done|]. unfold JS.toString.
  destruct z as [|p|p]; [done|..]; simpl Z.to_int;
    simpl NilZero.string_of_int; unfold NilZero.string_of_uint;
    pose proof (all_digits_no_space _ (all_digits_uint (Pos.to_uint p)));
    destruct (Pos.to_uint p); try done; simpl; by rewrite ?H.
Qed.

Lemma skip_spaces_suffix (s : string) : JS.skip_spaces s ∈ suffixes s.
Proof.
  induction s as [|b s IH]; [left|]. simpl.
  destruct (JS.is_space b); [by right|left].
Qed.

Lemma skip_spaces_last (w : string) (x : ascii) :
  JS.is_space x = false →
  ∃ w', JS.skip_spaces (w +:+ String x EmptyString)
        = w' +:+ String x EmptyString.
Proof.
  intros Hx. induction w as [|b w IH].
  - exists EmptyString. simpl. by rewrite Hx.
  - rewrite app_cons. simpl. destruct (JS.is_space b); [done|].
    by exists (String b w).
Qed.

(** [trim] on a string that does not end with white space only skips the
    white space in front. *)
Lemma trim_no_trailing (w : string) (x : ascii) :
  JS.is_space x = false →
  JS.trim (w +:+ String x EmptyString)
  = JS.skip_spaces (w +:+ String x EmptyString).
Proof.
  intros Hx. unfold JS.trim.
  destruct (skip_spaces_last w x Hx) as [w' ->].
  rewrite rev_string_app. simpl JS.rev_string at 2.
  simpl JS.skip_spaces. rewrite Hx.
  change (String x (JS.rev_string EmptyString w'))
    with (JS.rev_string (JS.rev_string EmptyString w') (String x EmptyString)).
  rewrite <- rev_string_app, rev_string_rev_string. apply app_empty_r.
Qed.

Lemma no_space_last (s : string) :
  no_space s = true → s ≠ EmptyString →
  ∃ w x, s = w +:+ String x EmptyString ∧ JS.is_space x = false.
Proof.
  induction s as [|b s IH]; [done|]. simpl.
  intros [Hb Hs]%andb_prop _. destruct s as [|b' s'].
  - exists EmptyString, b. split; [done|]. by destruct (JS.is_space b).
  - destruct IH as (w & x & Hw & Hx); [done|done|].
    exists (String b w), x. by rewrite app_cons, <- Hw.
Qed.

Lemma toString_not_empty (n : JS.number) : JS.toString n ≠ EmptyString.
Proof.
  destruct n as [|z]; [done|]. unfold JS.toString.
  destruct z as [|p|p]; [done|..]; simpl Z.to_int;
    simpl NilZero.string_of_int; [|done].
  unfold NilZero.string_of_uint.
  pose proof (Unsigned.to_uint_nonnil p).
  by destruct (Pos.to_uint p).
Qed.

Section Resource.
Import Database.
Variable bibleData : list Book.entry.

(** A text in which the numbers can only start within its first two
    characters cites no book whose names all have two characters or
    more. *)
Lemma parseReference_short (s : string) :
  Forall (λ b, Forall (λ a, (2 ≤ String.length a)%nat) (book_aliases b))
    bibleData →
  (∀ s3, s3 ∈ suffixes s → numbers_follow s3 = true →
         (String.length s ≤ String.length s3 + 1)%nat) →
  Regex.exec (verseRegex bibleData) 5 s = None
  ∨ bibleData = [].
Proof.
  intros Hlong Hshort.
  destruct (Regex.exec (verseRegex bibleData) 5 s) as [caps|] eqn:Hexec;
    [|by left].
  apply exec_inv in Hexec as (s0 & s' & c' & Hs0 & Hstep & _).
  destruct Hstep as (s1 & c1 & Hpre & s3 & c2 & (c3 & Halt & _) & Hcv).
  apply step_prefix in Hpre as [p ->].
  apply step_chapter_verse_follow in Hcv.
  apply step_alternatives in Halt as [_ [[Hnil _]|(pat & Hpat & Hstrip)]].
  - right. destruct bibleData as [|b l]; [done|].
    assert (JS.escapeRegex (Book.name b) ∈ bookPatterns (b :: l)) as Hin
      by (apply bookPatterns_name; left).
    rewrite Hnil in Hin. by apply elem_of_nil in Hin.
  - exfalso. apply elem_of_bookPatterns in Hpat as (b & a & Hb & Ha & ->).
    rewrite unescape_escapeRegex in Hstrip.
    pose proof (strip_ci_length_eq _ _ _ Hstrip) as Hlen.
    pose proof (proj1 (Forall_forall _ _)
                  (proj1 (Forall_forall _ _) Hlong b Hb) a Ha) as Ha2.
    simpl in Ha2.
    pose proof (suffixes_length _ _ Hs0) as Hl0.
    rewrite length_app_s in Hl0.
    assert (s3 ∈ suffixes s) as Hs3.
    { eapply suffixes_trans; [exact Hs0|].
      eapply suffixes_trans; [apply elem_of_suffixes_app_r|].
      by eapply strip_ci_suffix. }
    specialize (Hshort s3 Hs3 Hcv). lia.
Qed.

Lemma parseReference_empty_catalog (s : string) : parseReference [] s = None.
Proof.
  unfold parseReference.
  destruct (Regex.exec _ _ _)
    as [[|g0 [|g1 [|[g2|] [|[g3|] [|g4 [|g5 [|g6 caps]]]]]]]|]; done.
Qed.

(** X21: when the variables of the URI template arrive as strings, the
    resource looks at the first character of each only: the citation it
    parses is the first character of the book name, a space, and the
    first characters of the chapter and verse read as numbers. In a
    catalog in which every name and abbreviation has two characters or
    more, no such citation names a book: the resource answers "Invalid
    reference" for every URI, and never reaches the database. *)
Theorem X21_resource_first_character (bookName chapterNum verseNum : string)
    (w : world) :
  Forall (λ b, Forall (λ a, (2 ≤ String.length a)%nat) (book_aliases b))
    bibleData →
  getEnglishText_resource bibleData (Str bookName) (Str chapterNum)
    (Str verseNum) w
  = (Return "Invalid reference", w).
Proof.
  intros Hlong. unfold getEnglishText_resource.
  set (a := first_or_self (Str bookName)).
  set (body := JS.toString (parseInt_auto (first_or_self (Str chapterNum)))
                 +:+ ":"
                 +:+ JS.toString
                       (parseInt_auto (first_or_self (Str verseNum)))).
  assert (String.length a ≤ 1)%nat as Ha
    by (unfold a; destruct bookName; simpl; lia).
  assert (no_space body = true) as Hbody.
  { unfold body. by rewrite !no_space_app, !toString_no_space. }
  assert (parseReference bibleData (a +:+ " " +:+ body) = None) as ->;
    [|done].
  assert (∃ t, t ∈ suffixes (a +:+ " " +:+ body)
               ∧ JS.trim (a +:+ " " +:+ body) = t) as (t & Ht & Htrim).
  { exists (JS.skip_spaces (a +:+ " " +:+ body)).
    split; [apply skip_spaces_suffix|].
    destruct (no_space_last (JS.toString
                               (parseInt_auto (first_or_self (Str verseNum)))))
      as (y0 & y & Hy & Hsp);
      [apply toString_no_space|apply toString_not_empty|].
    unfold body. rewrite Hy, <- !app_assoc_s. by apply trim_no_trailing. }
  destruct (parseReference_short t Hlong) as [Hnone| ->].
  - intros s3 Hs3 Hfollow. pose proof (suffixes_length _ _ Ht) as Hlt.
    pose proof (suffixes_trans _ _ _ Ht Hs3) as Hin.
    change (" " +:+ body) with (String " " body) in *.
    rewrite length_app_s in Hlt.
    apply elem_of_suffixes_app in Hin as [(x & u & Hxu & ->)|Hin].
    + rewrite length_app_s, length_cons. lia.
    + simpl in Hin.
      apply elem_of_cons in Hin as [->|Hin]; [lia|].
      by rewrite (no_space_numbers_follow body s3) in Hfollow.
  - unfold parseReference. by rewrite Htrim, Hnone.
  - apply parseReference_empty_catalog.
Qed.

End Resource.

Lemma X21_resource_first_character_witness :
  getEnglishText_resource Sample.bibleData (Str "John") (Str "3") (Str "16")
    SampleDb.closed
  = (Database.Return "Invalid reference", SampleDb.closed).
Proof.
  apply (X21_resource_first_character Sample.bibleData "John" "3" "16").
  repeat constructor.
Defined.

(** ** Stored order, and the texts of a passage *)

Section StorageOrder.
Import Database.

Lemma insert_sorted_Permutation {A} (le : A → A → bool) (x : A) (l : list A) :
  insert_sorted le x l ≡ₚ x :: l.
Proof.
  induction l as [|y l IH]; simpl; [done|].
  destruct (le x y); [done|]. rewrite IH. apply Permutation_swap.
Qed.

Lemma order_by_Permutation {A} (le : A → A → bool) (l : list A) :
  order_by le l ≡ₚ l.
Proof.
  induction l as [|x l IH]; simpl; [done|].
  by rewrite insert_sorted_Permutation, IH.
Qed.

Lemma insert_sorted_position (x : Row.t) (l : list Row.t) :
  StronglySorted (λ a b, Row.word_position a ≤ Row.word_position b) l →
  StronglySorted (λ a b, Row.word_position a ≤ Row.word_position b)
    (insert_sorted (λ a b, Row.word_position a <=? Row.word_position b) x l).
Proof.
  induction l as [|y l IH]; simpl; intros Hs.
  - repeat constructor.
  - apply StronglySorted_inv in Hs as [Hl Hy].
    destruct (Z.leb_spec (Row.word_position x) (Row.word_position y))
      as [Hle|Hgt].
    + constructor; [by constructor|]. constructor; [done|].
      eapply Forall_impl; [exact Hy|]. simpl. intros; lia.
    + constructor; [by apply IH|].
      rewrite insert_sorted_Permutation. constructor; [lia|done].
Qed.

Lemma order_by_position_sorted (l : list Row.t) :
  StronglySorted (λ a b, Row.word_position a ≤ Row.word_position b)
    (order_by (λ a b, Row.word_position a <=? Row.word_position b) l).
Proof.
  induction l as [|x l IH]; simpl; [constructor|].
  by apply insert_sorted_position.
Qed.

(** Sorting by position does not depend on the order of the input when
    equal positions mean equal rows. *)
Lemma order_by_position_Permutation (l l' : list Row.t) :
  l ≡ₚ l' →
  (∀ r1 r2, r1 ∈ l → r2 ∈ l →
            Row.word_position r1 = Row.word_position r2 → r1 = r2) →
  order_by (λ a b, Row.word_position a <=? Row.word_position b) l
  = order_by (λ a b, Row.word_position a <=? Row.word_position b) l'.
Proof.
  intros Hperm Hkey.
  apply (StronglySorted_unique_strong
           (λ a b, Row.word_position a ≤ Row.word_position b)).
  - intros x1 x2 Hx1 Hx2 H12 H21. apply Hkey; [| |lia].
    + by rewrite order_by_Permutation in Hx1.
    + by rewrite order_by_Permutation, <- Hperm in Hx2.
  - apply order_by_position_sorted.
  - apply order_by_position_sorted.
  - by rewrite !order_by_Permutation.
Qed.

Lemma sql_verse_tokens_Permutation (rows rows' : list Row.t)
    (bookId : string) (chapter verse : JS.number) :
  rows ≡ₚ rows' →
  (∀ r1 r2, r1 ∈ rows → r2 ∈ rows →
            Row.book_num r1 = Row.book_num r2 →
            Database.Row.chapter r1 = Database.Row.chapter r2 →
            Database.Row.verse r1 = Database.Row.verse r2 →
            Row.word_position r1 = Row.word_position r2 → r1 = r2) →
  sql_verse_tokens rows bookId chapter verse
  = sql_verse_tokens rows' bookId chapter verse.
Proof.
  intros Hperm Hkey. unfold sql_verse_tokens. f_equal.
  apply order_by_position_Permutation; [by rewrite Hperm|].
  intros r1 r2 [H1 Hr1]%list_elem_of_filter [H2 Hr2]%list_elem_of_filter.
  apply andb_prop in H1 as [H1 Hv1]. apply andb_prop in H1 as [Hb1 Hc1].
  apply andb_prop in H2 as [H2 Hv2]. apply andb_prop in H2 as [Hb2 Hc2].
  apply String.eqb_eq in Hb1, Hb2.
  destruct chapter as [|c]; [done|]. destruct verse as [|v]; [done|].
  simpl in *. apply Hkey; try done; try congruence; lia.
Qed.

(** X22: the text of a verse does not depend on the order in which the
    rows are stored, as long as book, chapter, verse and word position
    together identify a row: on two connections whose tables hold the same
    rows in any two orders, [getEnglishText] gives the same answer. *)
Theorem X22_storage_order_irrelevant (reference : BibleReference)
    (w w' : world) (rows rows' : list Row.t) :
  db w = Some rows → db w' = Some rows' → rows ≡ₚ rows' →
  (∀ r1 r2, r1 ∈ rows → r2 ∈ rows →
            Row.book_num r1 = Row.book_num r2 →
            Database.Row.chapter r1 = Database.Row.chapter r2 →
            Database.Row.verse r1 = Database.Row.verse r2 →
            Row.word_position r1 = Row.word_position r2 → r1 = r2) →
  fst (getEnglishText reference w) = fst (getEnglishText reference w').
Proof.
  intros Hdb Hdb' Hperm Hkey.
  destruct (JS.truthy_string (bookId reference)) eqn:Hb.
  2: { by rewrite (getEnglishText_guard reference w rows),
                  (getEnglishText_guard reference w' rows'); auto. }
  destruct (JS.truthy_number (chapter reference)) eqn:Hc.
  2: { by rewrite (getEnglishText_guard reference w rows),
                  (getEnglishText_guard reference w' rows'); auto. }
  destruct (verse reference) as [v|] eqn:Hv.
  2: { by rewrite (getEnglishText_guard reference w rows),
                  (getEnglishText_guard reference w' rows');
         try done; right; right; by rewrite Hv. }
  destruct (JS.truthy_number v) eqn:Hvt.
  2: { by rewrite (getEnglishText_guard reference w rows),
                  (getEnglishText_guard reference w' rows');
         try done; right; right; by rewrite Hv. }
  rewrite (getEnglishText_open reference w rows v),
          (getEnglishText_open reference w' rows' v) by done.
  by rewrite (sql_verse_tokens_Permutation rows rows').
Qed.

Lemma X22_storage_order_irrelevant_witness :
  fst (getEnglishText SampleDb.genesis_1_1
         (World (Some SampleDb.rows) None []))
  = fst (getEnglishText SampleDb.genesis_1_1
           (World (Some (reverse SampleDb.rows)) None [])).
Proof.
  apply (X22_storage_order_irrelevant SampleDb.genesis_1_1 _ _
           SampleDb.rows (reverse SampleDb.rows)).
  - reflexivity.
  - reflexivity.
  - symmetry. apply reverse_Permutation.
  - intros r1 r2 Hr1 Hr2.
    repeat (apply elem_of_cons in Hr1 as [->|Hr1]);
      try (by apply elem_of_nil in Hr1);
      repeat (apply elem_of_cons in Hr2 as [->|Hr2]);
      try (by apply elem_of_nil in Hr2);
      try done; intros; simplify_eq.
Defined.

(** X23: on an open connection the text of every entry that [getPassage]
    returns is the join, in position order, of the tokens of its verse
    that are not excluded, and its label is the book name of the
    reference (not of the rows), the chapter and the verse; a verse all
    of whose tokens are excluded is still returned, with an empty
    text. *)
Theorem X23_getPassage_texts (reference : BibleReference) (w : world)
    (rows : list Row.t) :
  db w = Some rows →
  ∃ entries,
    fst (getPassage reference w) = Return entries
    ∧ ∀ e, e ∈ entries →
        pv_text e
        = join_tokens
            (sql_verse_tokens (included rows) (bookId reference)
               (chapter reference) (JS.Num (pv_verse e)))
        ∧ pv_reference e
          = book reference +:+ " " +:+ JS.toString (chapter reference)
              +:+ ":" +:+ JS.toString (JS.Num (pv_verse e))
        ∧ ((∀ r, r ∈ rows → Row.book_num r = bookId reference →
                 JS.Num (Database.Row.chapter r) = chapter reference →
                 Database.Row.verse r = pv_verse e → Row.exclude r ≠ 0) →
           pv_text e = EmptyString).
Proof.
  intros Hdb. eexists. split; [by apply getPassage_open|].
  intros e (v & -> & Hv)%list_elem_of_fmap. simpl.
  split; [done|]. split; [done|]. intros Hexcl.
  destruct (chapter reference) as [|c] eqn:Hc.
  { unfold sql_distinct_verses in Hv.
    apply order_by_elem_of in Hv. rewrite elem_of_remove_dups in Hv.
    apply list_elem_of_fmap in Hv as (r & _ & [Hr _]%list_elem_of_filter).
    by rewrite !andb_false_r in Hr. }
  assert (sql_verse_tokens (included rows) (bookId reference) (JS.Num c)
            (JS.Num v) = []) as ->; [|done].
  apply sql_verse_tokens_nil.
  intros r [Hex Hr]%list_elem_of_filter (Hb & Hch & Hverse).
  apply (Hexcl r Hr); [done|by rewrite Hch|done|lia].
Qed.

Lemma X23_getPassage_texts_witness :
  ∃ entries,
    fst (getPassage SampleDb.genesis_1_1
           (World (Some SampleDb.rows) None [])) = Return entries
    ∧ ∀ e, e ∈ entries →
        pv_text e
        = join_tokens
            (sql_verse_tokens (included SampleDb.rows)
               (bookId SampleDb.genesis_1_1) (chapter SampleDb.genesis_1_1)
               (JS.Num (pv_verse e)))
        ∧ pv_reference e
          = book SampleDb.genesis_1_1 +:+ " "
              +:+ JS.toString (chapter SampleDb.genesis_1_1)
              +:+ ":" +:+ JS.toString (JS.Num (pv_verse e))
        ∧ ((∀ r, r ∈ SampleDb.rows →
                 Row.book_num r = bookId SampleDb.genesis_1_1 →
                 JS.Num (Database.Row.chapter r) = chapter SampleDb.genesis_1_1 →
                 Database.Row.verse r = pv_verse e → Row.exclude r ≠ 0) →
           pv_text e = EmptyString).
Proof.
  apply (X23_getPassage_texts SampleDb.genesis_1_1
           (World (Some SampleDb.rows) None []) SampleDb.rows).
  reflexivity.
Defined.

End StorageOrder.
